(** * SCSU decoder (dop251/scsu): a shallow embedding and its properties

    The decoder of the Standard Compression Scheme for Unicode is a small
    state machine over a byte reader.  The Go receiver [*Decoder] is mutated
    in place; here every method is a function from the decoder value to an
    outcome and the decoder value it leaves behind, so that the state after a
    failed call can be inspected as well.  An index out of range is an outcome
    of its own ([Panic]), and each [for] loop runs on fuel with an outcome for
    running out of it ([OutOfFuel]); both are shown never to happen.

    The file has the model of the decoder first, then the vocabulary of the
    specification and a model of the encoder it describes, then the lemmas
    (what keeps a decoder well-formed, which commands move a window, the
    loops unrolled, one lemma per command, the round trip), and the claims
    C1 to C10 last. *)

From Stdlib Require Import ZArith List Lia Bool.
From stdpp Require Import base list.
Import ListNotations.
Local Open Scope Z_scope.

(** ** Machine integers *)

(** Go's [byte], [uint16] and [int32] as integers with their wrap-around. *)
Definition byte (z : Z) : Z := z mod 256.
Definition uint16 (z : Z) : Z := z mod 65536.
Definition int32 (z : Z) : Z := (z + 2147483648) mod 4294967296 - 2147483648.
Definition rune := Z.

Definition isByte (b : Z) : Prop := 0 <= b < 256.

(** ** Constants and tables of the shared window state *)

(** The tags of both modes.  The decoder only names them: their values are
    declared in the repository's [scsu.go], which is absent from the sources
    here, and are those fixed by UTS #6 (tr6-4), the document the README says
    the package implements. *)
Module Tag.

(** Modelled from the spec: tag SQ0 of [scsu.go] (absent), quote from window pair 0. *)
Definition SQ0 := 0x01.

(** Modelled from the spec: tag SQ1 of [scsu.go] (absent), quote from window pair 1. *)
Definition SQ1 := 0x02.

(** Modelled from the spec: tag SQ2 of [scsu.go] (absent), quote from window pair 2. *)
Definition SQ2 := 0x03.

(** Modelled from the spec: tag SQ3 of [scsu.go] (absent), quote from window pair 3. *)
Definition SQ3 := 0x04.

(** Modelled from the spec: tag SQ4 of [scsu.go] (absent), quote from window pair 4. *)
Definition SQ4 := 0x05.

(** Modelled from the spec: tag SQ5 of [scsu.go] (absent), quote from window pair 5. *)
Definition SQ5 := 0x06.

(** Modelled from the spec: tag SQ6 of [scsu.go] (absent), quote from window pair 6. *)
Definition SQ6 := 0x07.

(** Modelled from the spec: tag SQ7 of [scsu.go] (absent), quote from window pair 7. *)
Definition SQ7 := 0x08.

(** Modelled from the spec: tag SDX of [scsu.go] (absent), define an extended window. *)
Definition SDX := 0x0B.

(** Modelled from the spec: tag Srs of [scsu.go] (absent), reserved. *)
Definition Srs := 0x0C.

(** Modelled from the spec: tag SQU of [scsu.go] (absent), quote a 16-bit unit. *)
Definition SQU := 0x0E.

(** Modelled from the spec: tag SCU of [scsu.go] (absent), change to unicode mode. *)
Definition SCU := 0x0F.

(** Modelled from the spec: tag SC0 of [scsu.go] (absent), select dynamic window 0. *)
Definition SC0 := 0x10.

(** Modelled from the spec: tag SC1 of [scsu.go] (absent), select dynamic window 1. *)
Definition SC1 := 0x11.

(** Modelled from the spec: tag SC2 of [scsu.go] (absent), select dynamic window 2. *)
Definition SC2 := 0x12.

(** Modelled from the spec: tag SC3 of [scsu.go] (absent), select dynamic window 3. *)
Definition SC3 := 0x13.

(** Modelled from the spec: tag SC4 of [scsu.go] (absent), select dynamic window 4. *)
Definition SC4 := 0x14.

(** Modelled from the spec: tag SC5 of [scsu.go] (absent), select dynamic window 5. *)
Definition SC5 := 0x15.

(** Modelled from the spec: tag SC6 of [scsu.go] (absent), select dynamic window 6. *)
Definition SC6 := 0x16.

(** Modelled from the spec: tag SC7 of [scsu.go] (absent), select dynamic window 7. *)
Definition SC7 := 0x17.

(** Modelled from the spec: tag SD0 of [scsu.go] (absent), define dynamic window 0. *)
Definition SD0 := 0x18.

(** Modelled from the spec: tag SD1 of [scsu.go] (absent), define dynamic window 1. *)
Definition SD1 := 0x19.

(** Modelled from the spec: tag SD2 of [scsu.go] (absent), define dynamic window 2. *)
Definition SD2 := 0x1A.

(** Modelled from the spec: tag SD3 of [scsu.go] (absent), define dynamic window 3. *)
Definition SD3 := 0x1B.

(** Modelled from the spec: tag SD4 of [scsu.go] (absent), define dynamic window 4. *)
Definition SD4 := 0x1C.

(** Modelled from the spec: tag SD5 of [scsu.go] (absent), define dynamic window 5. *)
Definition SD5 := 0x1D.

(** Modelled from the spec: tag SD6 of [scsu.go] (absent), define dynamic window 6. *)
Definition SD6 := 0x1E.

(** Modelled from the spec: tag SD7 of [scsu.go] (absent), define dynamic window 7. *)
Definition SD7 := 0x1F.

(** Modelled from the spec: tag UC0 of [scsu.go] (absent), select window 0 from unicode mode. *)
Definition UC0 := 0xE0.

(** Modelled from the spec: tag UC7 of [scsu.go] (absent), select window 7 from unicode mode. *)
Definition UC7 := 0xE7.

(** Modelled from the spec: tag UD0 of [scsu.go] (absent), define window 0 from unicode mode. *)
Definition UD0 := 0xE8.

(** Modelled from the spec: tag UD7 of [scsu.go] (absent), define window 7 from unicode mode. *)
Definition UD7 := 0xEF.

(** Modelled from the spec: tag UQU of [scsu.go] (absent), quote a 16-bit unit in unicode mode. *)
Definition UQU := 0xF0.

(** Modelled from the spec: tag UDX of [scsu.go] (absent), define an extended window from unicode mode. *)
Definition UDX := 0xF1.
End Tag.
Import Tag.

(** Modelled from the spec: [gapThreshold] of [scsu.go] (absent), the first
    offset byte that stands for a window beyond the 0x3400..0xDFFF gap. *)
Definition gapThreshold := 0x68.

(** Modelled from the spec: [gapOffset] of [scsu.go] (absent), what is added
    to jump the gap. *)
Definition gapOffset := 0xAC00.

(** Modelled from the spec: [reservedStart] of [scsu.go] (absent), the first
    reserved offset byte. *)
Definition reservedStart := 0xA8.

(** Modelled from the spec: [fixedThreshold] of [scsu.go] (absent), the first
    offset byte that selects from the fixed offset table. *)
Definition fixedThreshold := 0xF9.

(** Modelled from the spec: the static offset table ([scsu.go], absent). *)
Definition staticOffset : list Z :=
  [0x0000; 0x0080; 0x0100; 0x0300; 0x2000; 0x2080; 0x2100; 0x3000].

(** Modelled from the spec: the initial positions of the eight dynamic
    windows ([scsu.go], absent). *)
Definition initialDynamicOffset : list Z :=
  [0x0080; 0x00C0; 0x0400; 0x0600; 0x0900; 0x3040; 0x30A0; 0xFF00].

(** Modelled from the spec: the fixed offset table selected by the index bytes
    0xF9..0xFF ([scsu.go], absent). *)
Definition fixedOffset : list Z :=
  [0x00C0; 0x0250; 0x0370; 0x0530; 0x3040; 0x30A0; 0xFF60].

(** ** Errors and outcomes *)

(** The error values the decoder can hand back: [io.EOF] and
    [io.ErrUnexpectedEOF], the package's [ErrIllegalInput], and the error
    [defineWindow] formats as ["offset = %d"]. *)
Inductive error : Type :=
| EOF
| ErrUnexpectedEOF
| ErrIllegalInput
| ErrOffset (offset : Z).

(** What a call does: return a value, return an error, panic on an index out
    of range, or (in the model only) exhaust the fuel given to a loop. *)
Inductive outcome (A : Type) : Type :=
| Ok (a : A)
| Err (e : error)
| Panic
| OutOfFuel.
Arguments Ok {A} a.
Arguments Err {A} e.
Arguments Panic {A}.
Arguments OutOfFuel {A}.

(** ** The decoder *)

(** [window] and [dynamicOffset] are the fields of the embedded [scsu] struct;
    [brd] is the rest of the [bytes.Buffer] the decoder reads from. *)
Record Decoder : Type := mkDecoder {
  window : Z;
  dynamicOffset : list Z;
  brd : list Z;
  bytesRead : Z;
  unicodeMode : bool
}.

Definition M (A : Type) : Type := Decoder -> outcome A * Decoder.

Definition ret {A} (a : A) : M A := fun d => (Ok a, d).
Definition fail {A} (e : error) : M A := fun d => (Err e, d).
Definition bind {A B} (m : M A) (k : A -> M B) : M B :=
  fun d =>
    match m d with
    | (Ok a, d') => k a d'
    | (Err e, d') => (Err e, d')
    | (Panic, d') => (Panic, d')
    | (OutOfFuel, d') => (OutOfFuel, d')
    end.
Notation "'let*' x ':=' m 'in' k" := (bind m (fun x => k))
  (at level 10, x name, m at level 100, k at level 200).
Notation "'exec' m 'in' k" := (bind m (fun _ => k))
  (at level 10, m at level 100, k at level 200).

(** [r, err := m; if err != nil { return 0, f(err) }] *)
Definition mapErr {A} (f : error -> error) (m : M A) : M A :=
  fun d =>
    match m d with
    | (Err e, d') => (Err (f e), d')
    | r => r
    end.

Definition setWindow (w : Z) : M unit :=
  fun d => (Ok tt, mkDecoder w (dynamicOffset d) (brd d) (bytesRead d) (unicodeMode d)).
Definition setUnicodeMode (u : bool) : M unit :=
  fun d => (Ok tt, mkDecoder (window d) (dynamicOffset d) (brd d) (bytesRead d) u).
Definition getWindow : M Z := fun d => (Ok (window d), d).

(** An index expression [a[i]] on a Go array: out of range is a panic. *)
Definition index (a : list Z) (i : Z) : option Z :=
  if 0 <=? i then a !! Z.to_nat i else None.

Definition readTable (a : list Z) (i : Z) : M Z :=
  fun d => match index a i with Some v => (Ok v, d) | None => (Panic, d) end.

(** [d.dynamicOffset[i]] *)
Definition getDynamicOffset (i : Z) : M Z :=
  fun d => match index (dynamicOffset d) i with
           | Some v => (Ok v, d)
           | None => (Panic, d)
           end.

(** [d.dynamicOffset[i] = v] *)
Definition setDynamicOffset (i v : Z) : M unit :=
  fun d => match index (dynamicOffset d) i with
           | Some _ =>
               (Ok tt, mkDecoder (window d) (<[Z.to_nat i := v]> (dynamicOffset d))
                                 (brd d) (bytesRead d) (unicodeMode d))
           | None => (Panic, d)
           end.

(** Modelled from the spec: [init] of the embedded [scsu] value ([scsu.go],
    absent).  Window state is created fresh per stream: window 0 is active and
    the dynamic windows stand at their initial positions. *)
Definition init (d : Decoder) : Decoder :=
  mkDecoder 0 initialDynamicOffset (brd d) (bytesRead d) (unicodeMode d).

(** [&Decoder{brd: r}] leaves every other field at its zero value. *)
Definition NewDecoder (r : list Z) : Decoder :=
  init (mkDecoder 0 (replicate 8 0) r 0 false).

Definition readByte : M Z :=
  fun d =>
    match brd d with
    | [] => (Err EOF, d)
    | b :: rest =>
        (Ok b, mkDecoder (window d) (dynamicOffset d) rest (bytesRead d + 1) (unicodeMode d))
    end.

Definition defineWindow (iWindow : Z) (offset : Z) : M unit :=
  if offset =? 0 then fail ErrIllegalInput
  else
    exec
    (if offset <? gapThreshold then
       setDynamicOffset iWindow (int32 (Z.shiftl offset 7))
     else if offset <? reservedStart then
       setDynamicOffset iWindow (int32 (int32 (Z.shiftl offset 7) + gapOffset))
     else if offset <? fixedThreshold then
       fail (ErrOffset offset)
     else
       let* v := readTable fixedOffset (byte (offset - fixedThreshold)) in
       setDynamicOffset iWindow v) in
    setWindow iWindow.

Definition defineExtendedWindow (chOffset : Z) : M unit :=
  let window := Z.shiftr chOffset 13 in
  exec setDynamicOffset window
         (int32 (int32 (Z.shiftl (Z.land chOffset 0x1FFF) 7) + Z.shiftl 1 16)) in
  setWindow window.

Definition unexpectedEOF (e : error) : error :=
  match e with
  | EOF => ErrUnexpectedEOF
  | _ => e
  end.

Definition uint16FromTwoBytes (hi lo : Z) : Z :=
  Z.lor (uint16 (Z.shiftl hi 8)) lo.

Definition readUint16 : M Z :=
  let* b1 := mapErr unexpectedEOF readByte in
  let* b2 := mapErr unexpectedEOF readByte in
  ret (uint16FromTwoBytes b1 b2).

(** ** The standard library's [unicode/utf16] and [strings.Builder] *)

Module utf16.
Definition surr1 := 0xd800.
Definition surr2 := 0xdc00.
Definition surr3 := 0xe000.
Definition surrSelf := 0x10000.
Definition replacementChar := 0xFFFD.

Definition IsSurrogate (r : rune) : bool := (surr1 <=? r) && (r <? surr3).

Definition DecodeRune (r1 r2 : rune) : rune :=
  if (surr1 <=? r1) && (r1 <? surr2) && (surr2 <=? r2) && (r2 <? surr3) then
    int32 (Z.lor (int32 (Z.shiftl (r1 - surr1) 10)) (r2 - surr2) + surrSelf)
  else replacementChar.
End utf16.

(** A Go string built by [WriteRune] alone is valid UTF-8, so it is kept here
    as the sequence of scalar values it spells.  [WriteRune] stores the
    replacement character for a rune that is no scalar value. *)
Definition gostring := list rune.

Definition validRune (r : rune) : bool :=
  (0 <=? r) && (r <=? 0x10FFFF) && negb ((0xD800 <=? r) && (r <=? 0xDFFF)).

Definition WriteRune (sb : gostring) (r : rune) : gostring :=
  sb ++ [if validRune r then r else 0xFFFD].

(** ** Expanding the two modes *)

Definition oneof (b : Z) (tags : list Z) : bool := existsb (Z.eqb b) tags.

(** One pass through the body of the [for] in [expandUnicode].  Every branch
    of that body returns, so the loop never comes round a second time. *)
Definition expandUnicode : M rune :=
  let* b := readByte in
  if (UC0 <=? b) && (b <=? UC7) then
    exec setWindow (b - UC0) in
    exec setUnicodeMode false in
    ret (-1)
  else if (UD0 <=? b) && (b <=? UD7) then
    let* b1 := mapErr unexpectedEOF readByte in
    exec setUnicodeMode false in
    exec defineWindow (b - UD0) b1 in
    ret (-1)
  else if b =? UDX then
    let* c := mapErr unexpectedEOF readUint16 in
    exec defineExtendedWindow c in
    exec setUnicodeMode false in
    ret (-1)
  else if b =? UQU then
    let* r := readUint16 in
    ret r
  else
    let* b1 := mapErr unexpectedEOF readByte in
    let ch := uint16FromTwoBytes b b1 in
    if utf16.IsSurrogate ch then
      let* ch1 := mapErr unexpectedEOF readUint16 in
      let surrLo := ch1 in
      if negb (utf16.IsSurrogate surrLo) then fail ErrIllegalInput
      else ret (utf16.DecodeRune ch surrLo)
    else ret ch.

(** The [default] case of the switch in [expandSingleByte]: output as
    character, from the static or from the dynamic window. *)
Definition outputCharacter (b staticWindow dynamicWindow : Z) : M rune :=
  if b <? 0x80 then
    let* off := readTable staticOffset staticWindow in
    ret (int32 (b + off))
  else
    let ch := int32 (b - 0x80) in
    let* off := getDynamicOffset dynamicWindow in
    ret (int32 (ch + off)).

(** One pass through the body of the [for] in [expandSingleByte]; [None]
    stands for reaching the end of the body, where the loop comes round. *)
Definition expandSingleByte_body : M (option rune) :=
  let* b := readByte in
  let staticWindow := 0 in
  let* dynamicWindow := getWindow in
  if oneof b [SQ0; SQ1; SQ2; SQ3; SQ4; SQ5; SQ6; SQ7] then
    let dynamicWindow := b - SQ0 in
    let staticWindow := dynamicWindow in
    let* b := mapErr unexpectedEOF readByte in
    let* r := outputCharacter b staticWindow dynamicWindow in
    ret (Some r)
  else if b =? SDX then
    let* ch := mapErr unexpectedEOF readUint16 in
    exec defineExtendedWindow ch in
    ret None
  else if oneof b [SD0; SD1; SD2; SD3; SD4; SD5; SD6; SD7] then
    let* b1 := mapErr unexpectedEOF readByte in
    exec defineWindow (b - SD0) b1 in
    ret None
  else if oneof b [SC0; SC1; SC2; SC3; SC4; SC5; SC6; SC7] then
    exec setWindow (b - SC0) in
    ret None
  else if b =? SCU then
    exec setUnicodeMode true in
    ret (Some (-1))
  else if b =? SQU then
    let* ch := readUint16 in
    ret (Some ch)
  else if b =? Srs then
    fail ErrIllegalInput
  else
    let* r := outputCharacter b staticWindow dynamicWindow in
    ret (Some r).

Fixpoint expandSingleByte_loop (fuel : nat) : M rune :=
  match fuel with
  | O => fun d => (OutOfFuel, d)
  | S fuel' =>
      let* r := expandSingleByte_body in
      match r with
      | Some r => ret r
      | None => expandSingleByte_loop fuel'
      end
  end.

(** Every pass that comes round has read a byte, so one more pass than there
    are bytes left is all the loop can make. *)
Definition expandSingleByte : M rune :=
  fun d => expandSingleByte_loop (S (length (brd d))) d.

Definition readRune_body : M rune :=
  fun d => if unicodeMode d then expandUnicode d else expandSingleByte d.

Fixpoint readRune_loop (fuel : nat) : M rune :=
  match fuel with
  | O => fun d => (OutOfFuel, d)
  | S fuel' =>
      let* r := readRune_body in
      if r =? -1 then readRune_loop fuel' else ret r
  end.

Definition readRune : M rune :=
  fun d => readRune_loop (S (length (brd d))) d.

Definition ReadRune : M (rune * Z) :=
  fun d =>
    let pr := bytesRead d in
    match readRune d with
    | (Ok r, d') => (Ok (r, bytesRead d' - pr), d')
    | (Err e, d') => (Err e, d')
    | (Panic, d') => (Panic, d')
    | (OutOfFuel, d') => (OutOfFuel, d')
    end.

(** [errors.Is(err, io.EOF)] on the errors the decoder produces. *)
Definition isEOF (e : error) : bool :=
  match e with EOF => true | _ => false end.

Fixpoint ReadString_loop (fuel : nat) (sb : gostring) : M gostring :=
  match fuel with
  | O => fun d => (OutOfFuel, d)
  | S fuel' =>
      fun d =>
        match readRune d with
        | (Ok r, d') => ReadString_loop fuel' (WriteRune sb r) d'
        | (Err e, d') => if isEOF e then (Ok sb, d') else (Err e, d')
        | (Panic, d') => (Panic, d')
        | (OutOfFuel, d') => (OutOfFuel, d')
        end
  end.

Definition ReadString : M gostring :=
  fun d => ReadString_loop (S (length (brd d))) [] d.

Definition Decode (b : list Z) : outcome gostring :=
  fst (ReadString (NewDecoder b)).

(** ** Well-formed decoder values *)

(** Largest base an extended window can get: ((0x1FFF << 7) + 0x10000). *)
Definition maxOffset := 0x10FF80.

Definition okOffset (o : Z) : Prop := 0 <= o <= maxOffset.

(** What the Go types and [init] guarantee and every method keeps: the reader
    holds bytes, [dynamicOffset] is an [8]int32 of bases inside the code
    space, and [window] indexes it. *)
Record wf (d : Decoder) : Prop := mkWf {
  wf_window : 0 <= window d < 8;
  wf_length : length (dynamicOffset d) = 8%nat;
  wf_offsets : Forall okOffset (dynamicOffset d);
  wf_bytes : Forall isByte (brd d)
}.

Definition failed {A} (o : outcome A) : Prop :=
  match o with Panic | OutOfFuel => True | _ => False end.

(** [m] keeps well-formed decoders well-formed, reads forward only, neither
    panics nor runs out of fuel, and its value satisfies [Q]. *)
Definition sound {A} (m : M A) (Q : A -> Prop) : Prop :=
  forall d, wf d ->
    let (o, d') := m d in
    wf d' /\ (length (brd d') <= length (brd d))%nat /\
    match o with
    | Ok a => Q a
    | Err _ => True
    | Panic | OutOfFuel => False
    end.

(** ** Runes the decoder hands out *)

Definition okRune (r : rune) : Prop := 0 <= r <= 0x10FFFF.

(** What an expansion returns: the sentinel -1, or a code point. *)
Definition expanded (r : rune) : Prop := r = -1 \/ okRune r.

(** A successful call has read at least one byte. *)
Definition advancing {A} (m : M A) : Prop :=
  forall d, wf d -> forall a d', m d = (Ok a, d') ->
    (length (brd d') < length (brd d))%nat.

Definition expanded_opt (r : option rune) : Prop :=
  match r with Some r => expanded r | None => True end.

(** ** The specification's vocabulary *)

(** The error taxonomy of the specification, read on the decoder's errors:
    [io.EOF] is the clean end of input, [io.ErrUnexpectedEOF] a truncation,
    [ErrIllegalInput] a protocol violation, and the formatted offset error the
    report of a reserved window offset. *)
Inductive errorKind : Type :=
| CleanEndOfInput
| UnexpectedEndOfInput
| IllegalInput
| InvalidWindowOffset.

Definition kind (e : error) : errorKind :=
  match e with
  | EOF => CleanEndOfInput
  | ErrUnexpectedEOF => UnexpectedEndOfInput
  | ErrIllegalInput => IllegalInput
  | ErrOffset _ => InvalidWindowOffset
  end.

(** The decoder value after (re)defining window [i] at base [v]: the window
    is repositioned and selected, nothing else moves. *)
Definition redefined (d : Decoder) (i v : Z) : Decoder :=
  mkDecoder i (<[Z.to_nat i := v]> (dynamicOffset d))
            (brd d) (bytesRead d) (unicodeMode d).

(** Defining and activating are coupled between two decoder values: a window
    whose base differs is the active one afterwards. *)
Definition coupled_step (d d' : Decoder) : Prop :=
  forall j : nat,
    dynamicOffset d' !! j <> dynamicOffset d !! j -> window d' = Z.of_nat j.

Definition coupled {A} (m : M A) : Prop :=
  forall d, coupled_step d (snd (m d)).

(** Computations that leave every window where it is ([still]), and the
    active one as well ([quiet]). *)
Definition still {A} (m : M A) : Prop :=
  forall d, dynamicOffset (snd (m d)) = dynamicOffset d.

Definition quiet {A} (m : M A) : Prop :=
  forall d, dynamicOffset (snd (m d)) = dynamicOffset d /\
            window (snd (m d)) = window d.

(** The bytes that are tags in single-byte mode; every other byte is data. *)
Definition singleByteTags : list Z :=
  [SQ0; SQ1; SQ2; SQ3; SQ4; SQ5; SQ6; SQ7; SDX;
   SD0; SD1; SD2; SD3; SD4; SD5; SD6; SD7;
   SC0; SC1; SC2; SC3; SC4; SC5; SC6; SC7; SCU; SQU; Srs].

(** The input stops inside a construct: a tag with fewer trailing bytes than
    it takes (one after SQn, SDn and UDn, two after SDX, SQU, UDX and UQU), a
    lone first byte of a 16-bit unit, or a surrogate unit without the whole
    unit that has to follow it. *)
Definition truncated (unicode : bool) (input : list Z) : bool :=
  if unicode then
    match input with
    | [c] => negb ((UC0 <=? c) && (c <=? UC7))
    | [c; b1] =>
        if (UC0 <=? c) && (c <=? UD7) then false
        else if (c =? UDX) || (c =? UQU) then true
        else utf16.IsSurrogate (uint16FromTwoBytes c b1)
    | [c; b1; _] =>
        if (UC0 <=? c) && (c <=? UD7) || (c =? UDX) || (c =? UQU) then false
        else utf16.IsSurrogate (uint16FromTwoBytes c b1)
    | _ => false
    end
  else
    match input with
    | [c] =>
        oneof c [SQ0; SQ1; SQ2; SQ3; SQ4; SQ5; SQ6; SQ7;
                 SD0; SD1; SD2; SD3; SD4; SD5; SD6; SD7; SDX; SQU]
    | [c; _] => (c =? SDX) || (c =? SQU)
    | _ => false
    end.

(** [ReadString] resumed with [sb] already built. *)
Definition ReadString_from (sb : gostring) : M gostring :=
  fun d => ReadString_loop (S (length (brd d))) sb d.

(** The decoder after reading on to [rest], [k] bytes further. *)
Definition consumed (d : Decoder) (k : Z) (rest : list Z) : Decoder :=
  mkDecoder (window d) (dynamicOffset d) rest (bytesRead d + k) (unicodeMode d).

(** ** The encoder *)

(** Modelled from the spec: the encoder (NewEncoder, Encode and the strict
    rune source, in the repository's encoder file) is absent from the
    sources.  The specification gives it as a policy over the shared window
    state: pass plain bytes through, use the active window, quote from a
    static window, quote from or select a window that is already defined,
    reposition a window (or an extended window for the supplementary planes),
    fall back on a raw 16-bit quote; or go through unicode mode, with 16-bit
    units, surrogate pairs and UQU where a unit starts like a tag.  What the
    specification leaves to heuristics is taken as a parameter here: which
    window to reposition, whether to quote or to select, and when to use
    unicode mode. *)
Record WindowState : Type := mkWindowState {
  activeWindow : Z;
  offsets : list Z;
  unicode : bool
}.

(** Modelled from the spec: window state is created fresh per stream. *)
Definition initialState : WindowState :=
  mkWindowState 0 initialDynamicOffset false.

(** Modelled from the spec: [activate(index)], select without redefining. *)
Definition activate (i : Z) (st : WindowState) : WindowState :=
  mkWindowState i (offsets st) (unicode st).

(** Modelled from the spec: redefining a window also selects it. *)
Definition define (i base : Z) (st : WindowState) : WindowState :=
  mkWindowState i (<[Z.to_nat i := base]> (offsets st)) (unicode st).

(** Modelled from the spec: the mode switch (SCU one way, UCn the other). *)
Definition setMode (u : bool) (st : WindowState) : WindowState :=
  mkWindowState (activeWindow st) (offsets st) u.

(** Modelled from the spec: a window with base B covers B .. B + 0x7F. *)
Definition inWindow (base c : Z) : bool := (base <=? c) && (c <? base + 0x80).

(** Modelled from the spec: the first window of [bases] (numbered from [i])
    that covers [c], with its base. *)
Fixpoint findWindow (c : Z) (bases : list Z) (i : Z) : option (Z * Z) :=
  match bases with
  | [] => None
  | base :: rest =>
      if inWindow base c then Some (i, base) else findWindow c rest (i + 1)
  end.

(** Modelled from the spec: the offset byte that positions a window on the
    half-block of [c], with the base it stands for; there is none between
    0x3400 and 0xDFFF, nor below 0x80. *)
Definition windowIndex (c : rune) : option (Z * Z) :=
  if (0x80 <=? c) && (c <? 0x3400) then
    Some (c / 128, c / 128 * 128)
  else if (0xE000 <=? c) && (c <? 0x10000) then
    Some ((c - gapOffset) / 128, (c - gapOffset) / 128 * 128 + gapOffset)
  else None.

(** Modelled from the spec: a scalar value in unicode mode, as one 16-bit
    unit (behind UQU when its first byte would read as one of the tags
    0xE0..0xF2) or as a surrogate pair, big-endian. *)
Definition encodeUnit (c : rune) : list Z :=
  if 0x10000 <=? c then
    let hi := 0xD800 + (c - 0x10000) / 1024 in
    let lo := 0xDC00 + (c - 0x10000) mod 1024 in
    [hi / 256; hi mod 256; lo / 256; lo mod 256]
  else if (0xE0 <=? c / 256) && (c / 256 <=? 0xF2) then
    [UQU; c / 256; c mod 256]
  else [c / 256; c mod 256].

(** Modelled from the spec: through the active window. *)
Definition viaActive (st : WindowState) (c : rune) : option (list Z * WindowState) :=
  match index (offsets st) (activeWindow st) with
  | Some base =>
      if inWindow base c then Some ([0x80 + (c - base)], st) else None
  | None => None
  end.

(** Modelled from the spec: a one-off quote from a static window. *)
Definition viaStatic (st : WindowState) (c : rune) : option (list Z * WindowState) :=
  match findWindow c staticOffset 0 with
  | Some (i, base) => Some ([SQ0 + i; c - base], st)
  | None => None
  end.

(** Modelled from the spec: the raw 16-bit quote, the escape hatch. *)
Definition rawQuote (st : WindowState) (c : rune) : list Z * WindowState :=
  ([SQU; c / 256; c mod 256], st).

Section Policy.

Variable pickWindow : WindowState -> rune -> Z.
Variable preferQuote : WindowState -> rune -> list rune -> bool.
Variable preferUnicode : WindowState -> rune -> list rune -> bool.

(** Modelled from the spec: through a dynamic window that is already defined,
    quoted (SQn) or selected (SCn). *)
Definition viaDefined (st : WindowState) (c : rune) (rest : list rune)
    : option (list Z * WindowState) :=
  match findWindow c (offsets st) 0 with
  | Some (i, base) =>
      Some (if preferQuote st c rest
            then ([SQ0 + i; 0x80 + (c - base)], st)
            else ([SC0 + i; 0x80 + (c - base)], activate i st))
  | None => None
  end.

(** Modelled from the spec: by repositioning a window on the half-block of
    [c]: SDX with the descriptor (window << 13) | ((c - 0x10000) >> 7) beyond
    the first 65536 code points, SDn with an offset byte below. *)
Definition viaNewWindow (st : WindowState) (c : rune)
    : option (list Z * WindowState) :=
  let n := pickWindow st c mod 8 in
  if 0x10000 <=? c then
    let q := (c - 0x10000) / 128 in
    let D := n * 8192 + q in
    Some ([SDX; D / 256; D mod 256; 0x80 + (c - 0x10000) mod 128],
          define n (q * 128 + 0x10000) st)
  else
    match windowIndex c with
    | Some (x, base) => Some ([SD0 + n; x; 0x80 + (c - base)], define n base st)
    | None => None
    end.

(** Modelled from the spec: one scalar value in single-byte mode, by the
    first representation that applies. *)
Definition encodeSingle (st : WindowState) (c : rune) (rest : list rune)
    : list Z * WindowState :=
  if (c <? 0x80) && negb (oneof c singleByteTags) then ([c], st)
  else
    match viaActive st c with
    | Some r => r
    | None =>
        match viaStatic st c with
        | Some r => r
        | None =>
            match viaDefined st c rest with
            | Some r => r
            | None =>
                match viaNewWindow st c with
                | Some r => r
                | None => rawQuote st c
                end
            end
        end
    end.

(** Modelled from the spec: one scalar value, in the mode the heuristic
    prefers; a value that is no scalar value is refused ([None] stands for
    the invalid-encoding error). *)
Definition encodeRune (st : WindowState) (c : rune) (rest : list rune)
    : option (list Z * WindowState) :=
  if negb (validRune c) then None
  else if unicode st then
    if preferUnicode st c rest then Some (encodeUnit c, st)
    else
      let (bs, st') := encodeSingle (setMode false st) c rest in
      Some ((UC0 + activeWindow st) :: bs, st')
  else
    if preferUnicode st c rest then Some (SCU :: encodeUnit c, setMode true st)
    else Some (encodeSingle st c rest).

(** Modelled from the spec: the whole sequence, one scalar value after the
    other, on one window state. *)
Fixpoint encodeAll (st : WindowState) (s : list rune) : option (list Z) :=
  match s with
  | [] => Some []
  | c :: rest =>
      match encodeRune st c rest with
      | None => None
      | Some (bs, st') =>
          match encodeAll st' rest with
          | None => None
          | Some out => Some (bs ++ out)
          end
      end
  end.

(** Modelled from the spec: one-shot Encode(sequence, existing buffer). *)
Definition Encode (s : list rune) (dst : list Z) : option (list Z) :=
  match encodeAll initialState s with
  | Some out => Some (dst ++ out)
  | None => None
  end.

End Policy.

(** The decoder that mirrors a window state, about to read [input]. *)
Definition decoderOf (st : WindowState) (input : list Z) (n : Z) : Decoder :=
  mkDecoder (activeWindow st) (offsets st) input n (unicode st).

Record wfState (st : WindowState) : Prop := mkWfState {
  wfs_window : 0 <= activeWindow st < 8;
  wfs_length : length (offsets st) = 8%nat;
  wfs_offsets : Forall okOffset (offsets st)
}.

(** In single-byte mode the bytes [bs] make the decoder that mirrors [st]
    hand out [c] and end up mirroring [st'], whatever follows. *)
Definition decodesSingle (st : WindowState) (c : rune) (bs : list Z)
    (st' : WindowState) : Prop :=
  wfState st' /\ unicode st' = false /\ Forall isByte bs /\
  forall more n, Forall isByte more ->
    exists n', expandSingleByte (decoderOf st (bs ++ more) n)
               = (Ok c, decoderOf st' more n').

(** The same through [readRune], from either mode. *)
Definition decodesRune (st : WindowState) (c : rune) (bs : list Z)
    (st' : WindowState) : Prop :=
  wfState st' /\ Forall isByte bs /\
  forall more n, Forall isByte more ->
    exists n', readRune (decoderOf st (bs ++ more) n)
               = (Ok c, decoderOf st' more n').

(** ** Commands *)

(** One command of the stream, as the decoder takes it: one pass of
    [expandUnicode] in unicode mode, one pass through the body of the [for]
    in [expandSingleByte] otherwise.  [None] and [Some (-1)] are the passes
    after which the loops of [expandSingleByte] and [readRune] come round. *)
Definition command : M (option rune) :=
  fun d =>
    if unicodeMode d then (let* r := expandUnicode in ret (Some r)) d
    else expandSingleByte_body d.

(** The rune a pass hands to the caller of [readRune], if any. *)
Definition emitted (o : option rune) : list rune :=
  match o with
  | Some r => if r =? -1 then [] else [r]
  | None => []
  end.

(** [n] commands in a row, none of which fails: the runes they hand out and
    the decoder they leave. *)
Fixpoint run (n : nat) (d : Decoder) : option (list rune * Decoder) :=
  match n with
  | O => Some ([], d)
  | S n' =>
      match command d with
      | (Ok o, d1) =>
          match run n' d1 with
          | Some (rs, d2) => Some (emitted o ++ rs, d2)
          | None => None
          end
      | _ => None
      end
  end.

(** [k] calls of [readRune] in a row, each returning a rune. *)
Fixpoint readRunes (k : nat) (d : Decoder) : option (list rune * Decoder) :=
  match k with
  | O => Some ([], d)
  | S k' =>
      match readRune d with
      | (Ok r, d1) =>
          match readRunes k' d1 with
          | Some (rs, d2) => Some (r :: rs, d2)
          | None => None
          end
      | _ => None
      end
  end.

(** The string after [sb.WriteRune(r)] for each of [rs] in turn. *)
Definition written (sb : gostring) (rs : list rune) : gostring :=
  fold_left WriteRune rs sb.

(** Computations that leave the mode alone. *)
Definition keepsMode {A} (m : M A) : Prop :=
  forall d, unicodeMode (snd (m d)) = unicodeMode d.

(** Computations after which a pass that comes round ([None]) has left the
    mode alone. *)
Definition roundKeepsMode (m : M (option rune)) : Prop :=
  forall d d', m d = (Ok None, d') -> unicodeMode d' = unicodeMode d.

(** A computation that reports [io.EOF] only when it finds the reader
    exhausted, and then has done nothing. *)
Definition eofAtStart {A} (m : M A) : Prop :=
  forall d d', m d = (Err EOF, d') -> brd d = [] /\ d' = d.
(** ** Reading forward *)



(** A computation that can only report [io.EOF] with the reader exhausted. *)
Definition eofAtEnd {A} (m : M A) : Prop :=
  forall d d', m d = (Err EOF, d') -> brd d' = [].

(** A computation that never reports [io.EOF]. *)
Definition neverEOF {A} (m : M A) : Prop :=
  forall d d', m d <> (Err EOF, d').

(** ** Where a window may stand *)

(** The 128 code points from [base] on avoid 0x3400..0xDFFF: they lie below
    the gap, between the gap and 0xFFFF, or in the supplementary planes. *)
Definition placed (base : Z) : Prop :=
  (0 <= base /\ base + 0x7F < 0x3400) \/
  (0xE000 <= base /\ base + 0x7F <= 0xFFFF) \/
  (0x10000 <= base /\ base + 0x7F <= 0x10FFFF).

(** ** Bytes that stand for themselves *)

(** A byte that is no tag of single-byte mode. *)
Definition passes (b : Z) : bool :=
  (0 <=? b) && (b <? 256) && negb (oneof b singleByteTags).

(** A computation that leaves every window outside the gap when it finds
    them so, on a well-formed decoder. *)
Definition placing {A} (m : M A) : Prop :=
  forall d, wf d -> Forall placed (dynamicOffset d) ->
    Forall placed (dynamicOffset (snd (m d))).

Lemma sound_ret {A} (a : A) (Q : A -> Prop) : Q a -> sound (ret a) Q.
Proof. intros H d Hd. simpl. auto. Qed.

Lemma sound_fail {A} (e : error) (Q : A -> Prop) : sound (fail e) Q.
Proof. intros d Hd. simpl. auto. Qed.

Lemma sound_bind {A B} (m : M A) (k : A -> M B) (Q : A -> Prop) (R : B -> Prop) :
  sound m Q -> (forall a, Q a -> sound (k a) R) -> sound (bind m k) R.
Proof.
  intros Hm Hk d Hd. unfold bind. specialize (Hm d Hd).
  destruct (m d) as [[a|e| |] d1]; destruct Hm as (Hw & Hl & Hq);
    try contradiction; auto.
  specialize (Hk a Hq d1 Hw). destruct (k a d1) as [o d2].
  destruct Hk as (Hw2 & Hl2 & Hq2). split; [|split]; auto.
  etransitivity; eassumption.
Qed.

Lemma sound_mapErr {A} f (m : M A) (Q : A -> Prop) :
  sound m Q -> sound (mapErr f m) Q.
Proof.
  intros Hm d Hd. unfold mapErr. specialize (Hm d Hd).
  destruct (m d) as [[a|e| |] d1]; auto.
Qed.


Ltac sound_step tac :=
  eapply sound_bind; [tac | intros ? ?; cbv beta in *].

Lemma sound_readByte : sound readByte isByte.
Proof.
  intros d Hd. unfold readByte.
  destruct (brd d) as [|b rest] eqn:Hr.
  - rewrite Hr. auto.
  - pose proof (wf_bytes d Hd) as Hb. rewrite Hr in Hb.
    inversion Hb; subst. destruct Hd. simpl.
    split; [constructor; assumption | split; [lia | assumption]].
Qed.

(** ** Arithmetic of the bit operations *)

Lemma land_shiftl_small (a b n : Z) :
  0 <= n -> 0 <= b < 2 ^ n -> Z.land (Z.shiftl a n) b = 0.
Proof.
  intros Hn Hb. apply Z.bits_inj'. intros k Hk.
  rewrite Z.land_spec, Z.bits_0.
  destruct (Z.ltb_spec k n) as [Hlt | Hge].
  - rewrite Z.shiftl_spec_low by lia. reflexivity.
  - replace b with (b mod 2 ^ n) by (apply Z.mod_small; lia).
    rewrite Z.mod_pow2_bits_high by lia. apply andb_false_r.
Qed.

Lemma lor_shiftl_add (a b n : Z) :
  0 <= n -> 0 <= b < 2 ^ n -> Z.lor (Z.shiftl a n) b = a * 2 ^ n + b.
Proof.
  intros Hn Hb.
  pose proof (Z.add_lor_land (Z.shiftl a n) b) as H.
  rewrite land_shiftl_small in H by assumption.
  rewrite Z.shiftl_mul_pow2 in * by assumption. lia.
Qed.

Lemma int32_small (z : Z) : -2147483648 <= z < 2147483648 -> int32 z = z.
Proof.
  intros H. unfold int32.
  rewrite Z.mod_small by lia. lia.
Qed.

Lemma uint16_small (z : Z) : 0 <= z < 65536 -> uint16 z = z.
Proof. intros H. unfold uint16. apply Z.mod_small. assumption. Qed.

Lemma byte_small (z : Z) : 0 <= z < 256 -> byte z = z.
Proof. intros H. unfold byte. apply Z.mod_small. assumption. Qed.

Lemma uint16FromTwoBytes_val (hi lo : Z) :
  isByte hi -> isByte lo -> uint16FromTwoBytes hi lo = hi * 256 + lo.
Proof.
  unfold isByte, uint16FromTwoBytes. intros Hhi Hlo.
  rewrite Z.shiftl_mul_pow2 by lia. rewrite uint16_small by lia.
  rewrite <- (Z.shiftl_mul_pow2 hi 8) by lia.
  rewrite lor_shiftl_add by lia. reflexivity.
Qed.

Lemma uint16FromTwoBytes_range (hi lo : Z) :
  isByte hi -> isByte lo -> 0 <= uint16FromTwoBytes hi lo < 65536.
Proof.
  intros Hhi Hlo. rewrite uint16FromTwoBytes_val by assumption.
  unfold isByte in *. lia.
Qed.

Lemma index_Some (a : list Z) (i : Z) :
  0 <= i < Z.of_nat (length a) -> exists v, index a i = Some v /\ v ∈ a.
Proof.
  intros H. unfold index.
  destruct (Z.leb_spec 0 i); [|lia].
  destruct (lookup_lt_is_Some_2 a (Z.to_nat i)) as [v Hv]; [lia|].
  exists v. split; [assumption|]. apply list_elem_of_lookup. eauto.
Qed.


(** ** The state accessors keep the decoder well-formed *)

Lemma sound_setWindow (w : Z) :
  0 <= w < 8 -> sound (setWindow w) (fun _ => True).
Proof.
  intros Hw d Hd. destruct Hd. simpl.
  split; [constructor; assumption | auto].
Qed.

Lemma sound_setUnicodeMode (u : bool) : sound (setUnicodeMode u) (fun _ => True).
Proof.
  intros d Hd. destruct Hd. simpl.
  split; [constructor; assumption | auto].
Qed.

Lemma sound_getWindow : sound getWindow (fun w => 0 <= w < 8).
Proof. intros d Hd. simpl. pose proof (wf_window d Hd). auto. Qed.

Lemma staticOffset_bounds : Forall (fun v => 0 <= v <= 0x3000) staticOffset.
Proof. unfold staticOffset. repeat constructor; lia. Qed.

Lemma fixedOffset_bounds : Forall okOffset fixedOffset.
Proof. unfold fixedOffset, okOffset, maxOffset. repeat constructor; lia. Qed.

Lemma initialDynamicOffset_bounds : Forall okOffset initialDynamicOffset.
Proof. unfold initialDynamicOffset, okOffset, maxOffset. repeat constructor; lia. Qed.

Lemma sound_readTable (a : list Z) (P : Z -> Prop) (i : Z) :
  Forall P a -> 0 <= i < Z.of_nat (length a) -> sound (readTable a i) P.
Proof.
  intros HP Hi d Hd. unfold readTable.
  destruct (index_Some a i Hi) as (v & Hv & Hin). rewrite Hv.
  rewrite Forall_forall in HP. auto.
Qed.

Lemma sound_getDynamicOffset (i : Z) :
  0 <= i < 8 -> sound (getDynamicOffset i) okOffset.
Proof.
  intros Hi d Hd. unfold getDynamicOffset.
  destruct (index_Some (dynamicOffset d) i) as (v & Hv & Hin).
  { rewrite (wf_length d Hd). lia. }
  rewrite Hv. pose proof (wf_offsets d Hd) as Ho.
  rewrite Forall_forall in Ho. auto.
Qed.

Lemma sound_setDynamicOffset (i v : Z) :
  0 <= i < 8 -> okOffset v -> sound (setDynamicOffset i v) (fun _ => True).
Proof.
  intros Hi Hv d Hd. unfold setDynamicOffset.
  destruct (index_Some (dynamicOffset d) i) as (v0 & Hv0 & _).
  { rewrite (wf_length d Hd). lia. }
  rewrite Hv0. destruct Hd. 
  split; [constructor; simpl; auto | auto].
  - rewrite length_insert. assumption.
  - apply Forall_insert; assumption.
Qed.

Lemma sound_readUint16 : sound readUint16 (fun c => 0 <= c < 65536).
Proof.
  unfold readUint16.
  eapply sound_bind; [apply sound_mapErr, sound_readByte|]. intros b1 Hb1.
  eapply sound_bind; [apply sound_mapErr, sound_readByte|]. intros b2 Hb2.
  apply sound_ret. apply uint16FromTwoBytes_range; assumption.
Qed.

Lemma shiftl7 (b : Z) : Z.shiftl b 7 = b * 128.
Proof. rewrite Z.shiftl_mul_pow2 by lia. reflexivity. Qed.

Lemma sound_defineWindow (iWindow offset : Z) :
  0 <= iWindow < 8 -> isByte offset ->
  sound (defineWindow iWindow offset) (fun _ => True).
Proof.
  intros Hi Hb. unfold defineWindow, isByte in *.
  destruct (offset =? 0); [apply sound_fail|].
  eapply sound_bind; [|intros; apply sound_setWindow; assumption].
  unfold gapThreshold, reservedStart, fixedThreshold, gapOffset.
  destruct (Z.ltb_spec offset 104).
  { apply sound_setDynamicOffset; [assumption|].
    rewrite shiftl7, int32_small by lia. unfold okOffset, maxOffset. lia. }
  destruct (Z.ltb_spec offset 168).
  { apply sound_setDynamicOffset; [assumption|].
    rewrite shiftl7, !int32_small; rewrite ?int32_small; try lia.
    unfold okOffset, maxOffset. lia. }
  destruct (Z.ltb_spec offset 249); [apply sound_fail|].
  eapply sound_bind.
  - apply (sound_readTable fixedOffset okOffset); [apply fixedOffset_bounds|].
    rewrite byte_small by lia. simpl. lia.
  - intros v Hv. apply sound_setDynamicOffset; assumption.
Qed.

Lemma extended_offset (c : Z) :
  0 <= c < 65536 ->
  int32 (int32 (Z.shiftl (Z.land c 0x1FFF) 7) + Z.shiftl 1 16)
  = (c mod 8192) * 128 + 65536.
Proof.
  intros Hc. change 0x1FFF with (Z.ones 13). rewrite Z.land_ones by lia.
  rewrite shiftl7. change (Z.shiftl 1 16) with 65536. change (2 ^ 13) with 8192.
  pose proof (Z.mod_pos_bound c 8192 ltac:(lia)).
  rewrite !int32_small; rewrite ?int32_small; lia.
Qed.

Lemma shiftr13 (c : Z) : 0 <= c < 65536 -> 0 <= Z.shiftr c 13 < 8.
Proof.
  intros Hc. rewrite Z.shiftr_div_pow2 by lia. change (2 ^ 13) with 8192.
  split; [apply Z.div_pos; lia | apply Z.div_lt_upper_bound; lia].
Qed.

Lemma sound_defineExtendedWindow (chOffset : Z) :
  0 <= chOffset < 65536 ->
  sound (defineExtendedWindow chOffset) (fun _ => True).
Proof.
  intros Hc. unfold defineExtendedWindow. cbv zeta.
  pose proof (shiftr13 chOffset Hc) as Hw.
  eapply sound_bind; [|intros; apply sound_setWindow; assumption].
  apply sound_setDynamicOffset; [assumption|].
  rewrite extended_offset by assumption.
  pose proof (Z.mod_pos_bound chOffset 8192 ltac:(lia)).
  unfold okOffset, maxOffset. lia.
Qed.

Lemma DecodeRune_pair (r1 r2 : rune) :
  0xD800 <= r1 < 0xDC00 -> 0xDC00 <= r2 < 0xE000 ->
  utf16.DecodeRune r1 r2 = (r1 - 0xD800) * 1024 + (r2 - 0xDC00) + 0x10000.
Proof.
  intros H1 H2. unfold utf16.DecodeRune, utf16.surr1, utf16.surr2, utf16.surr3,
    utf16.surrSelf.
  destruct (Z.leb_spec 0xd800 r1); [|lia].
  destruct (Z.ltb_spec r1 0xdc00); [|lia].
  destruct (Z.leb_spec 0xdc00 r2); [|lia].
  destruct (Z.ltb_spec r2 0xe000); [|lia]. simpl.
  rewrite (int32_small (Z.shiftl _ 10)) by (rewrite Z.shiftl_mul_pow2; lia).
  rewrite lor_shiftl_add by lia. change (2 ^ 10) with 1024.
  apply int32_small. lia.
Qed.

Lemma DecodeRune_range (r1 r2 : rune) : okRune (utf16.DecodeRune r1 r2).
Proof.
  unfold okRune.
  destruct (Z.leb_spec 0xd800 r1); [destruct (Z.ltb_spec r1 0xdc00);
    [destruct (Z.leb_spec 0xdc00 r2); [destruct (Z.ltb_spec r2 0xe000)|]|]|];
  try (rewrite DecodeRune_pair by lia; lia);
  unfold utf16.DecodeRune, utf16.surr1, utf16.surr2, utf16.surr3,
    utf16.replacementChar.
  - destruct (Z.ltb_spec r2 0xe000); [lia|]. rewrite !andb_false_r. lia.
  - destruct (Z.leb_spec 0xdc00 r2); [lia|]. rewrite andb_false_r. simpl. lia.
  - destruct (Z.ltb_spec r1 0xdc00); [lia|]. rewrite andb_false_r. simpl. lia.
  - destruct (Z.leb_spec 0xd800 r1); [lia|]. simpl. lia.
Qed.

Lemma oneof_In (b : Z) (tags : list Z) : oneof b tags = true <-> In b tags.
Proof.
  unfold oneof. rewrite existsb_exists. split.
  - intros (x & Hin & Heq). apply Z.eqb_eq in Heq. subst. assumption.
  - intros Hin. exists b. split; [assumption | apply Z.eqb_refl].
Qed.

Ltac unfold_tags :=
  unfold SQ0, SQ1, SQ2, SQ3, SQ4, SQ5, SQ6, SQ7, SDX, Srs, SQU, SCU,
    SC0, SC1, SC2, SC3, SC4, SC5, SC6, SC7,
    SD0, SD1, SD2, SD3, SD4, SD5, SD6, SD7,
    UC0, UC7, UD0, UD7, UQU, UDX in *.

Ltac tag_cases H :=
  apply oneof_In in H; simpl in H;
  repeat (destruct H as [H | H]; [subst|]); try contradiction.

Lemma sound_outputCharacter (b staticWindow dynamicWindow : Z) :
  isByte b -> 0 <= staticWindow < 8 -> 0 <= dynamicWindow < 8 ->
  sound (outputCharacter b staticWindow dynamicWindow) okRune.
Proof.
  intros Hb Hs Hd. unfold outputCharacter, isByte in *.
  destruct (Z.ltb_spec b 0x80).
  - eapply sound_bind.
    + apply (sound_readTable staticOffset _ staticWindow staticOffset_bounds).
      simpl. lia.
    + intros off Hoff. apply sound_ret. cbv beta in Hoff.
      rewrite int32_small by lia. unfold okRune. lia.
  - eapply sound_bind; [apply sound_getDynamicOffset; assumption|].
    intros off Hoff. apply sound_ret. unfold okOffset, maxOffset in Hoff.
    rewrite !int32_small; rewrite ?int32_small; unfold okRune; lia.
Qed.

Lemma advancing_readByte_bind {A} (k : Z -> M A) (Q : A -> Prop) :
  (forall b, isByte b -> sound (k b) Q) -> advancing (bind readByte k).
Proof.
  intros Hk d Hd a d' Hrun. unfold bind in Hrun.
  pose proof (sound_readByte d Hd) as Hr.
  destruct (readByte d) as [[b|e| |] d1] eqn:Hrd; try discriminate.
  destruct Hr as (Hw1 & Hl1 & Hb).
  assert (length (brd d1) < length (brd d))%nat as Hlt.
  { unfold readByte in Hrd. destruct (brd d) as [|b0 rest]; [discriminate|].
    inversion Hrd; subst. simpl. lia. }
  specialize (Hk b Hb d1 Hw1). rewrite Hrun in Hk.
  destruct Hk as (_ & Hl2 & _). lia.
Qed.

Lemma sound_expandUnicode_cont (b : Z) :
  isByte b ->
  sound
    (if (UC0 <=? b) && (b <=? UC7) then
       exec setWindow (b - UC0) in
       exec setUnicodeMode false in
       ret (-1)
     else if (UD0 <=? b) && (b <=? UD7) then
       let* b1 := mapErr unexpectedEOF readByte in
       exec setUnicodeMode false in
       exec defineWindow (b - UD0) b1 in
       ret (-1)
     else if b =? UDX then
       let* c := mapErr unexpectedEOF readUint16 in
       exec defineExtendedWindow c in
       exec setUnicodeMode false in
       ret (-1)
     else if b =? UQU then
       let* r := readUint16 in
       ret r
     else
       let* b1 := mapErr unexpectedEOF readByte in
       let ch := uint16FromTwoBytes b b1 in
       if utf16.IsSurrogate ch then
         let* ch1 := mapErr unexpectedEOF readUint16 in
         let surrLo := ch1 in
         if negb (utf16.IsSurrogate surrLo) then fail ErrIllegalInput
         else ret (utf16.DecodeRune ch surrLo)
       else ret ch)
    expanded.
Proof.
  intros Hb. unfold UC0, UC7, UD0, UD7, UDX, UQU.
  destruct (Z.leb_spec 0xE0 b), (Z.leb_spec b 0xE7); simpl;
    try (destruct (Z.leb_spec 0xE8 b), (Z.leb_spec b 0xEF); simpl);
    try lia.
  all: try (sound_step ltac:(apply sound_setWindow; lia);
            sound_step ltac:(apply sound_setUnicodeMode);
            apply sound_ret; left; reflexivity).
  all: try (sound_step ltac:(apply sound_mapErr, sound_readByte);
            sound_step ltac:(apply sound_setUnicodeMode);
            sound_step ltac:(apply sound_defineWindow; [lia|assumption]);
            apply sound_ret; left; reflexivity).
  all: destruct (b =? 241);
    [ sound_step ltac:(apply sound_mapErr, sound_readUint16);
      sound_step ltac:(apply sound_defineExtendedWindow; assumption);
      sound_step ltac:(apply sound_setUnicodeMode);
      apply sound_ret; left; reflexivity |].
  all: destruct (b =? 240);
    [ sound_step ltac:(apply sound_readUint16);
      apply sound_ret; right; unfold okRune; lia |].
  all: sound_step ltac:(apply sound_mapErr, sound_readByte);
    match goal with
    | H0 : isByte ?b0, H1 : isByte ?b1 |- context [uint16FromTwoBytes ?b0 ?b1] =>
        pose proof (uint16FromTwoBytes_range b0 b1 H0 H1)
    end;
    match goal with |- context [utf16.IsSurrogate ?c] =>
      destruct (utf16.IsSurrogate c) end;
    [ sound_step ltac:(apply sound_mapErr, sound_readUint16);
      match goal with |- context [negb ?c] => destruct (negb c) end;
      [ apply sound_fail | apply sound_ret; right; apply DecodeRune_range ]
    | apply sound_ret; right; unfold okRune; lia ].
Qed.

Lemma sound_expandUnicode : sound expandUnicode expanded.
Proof.
  unfold expandUnicode.
  eapply sound_bind; [apply sound_readByte|].
  intros b Hb. apply sound_expandUnicode_cont. assumption.
Qed.

Lemma advancing_expandUnicode : advancing expandUnicode.
Proof.
  unfold expandUnicode. eapply advancing_readByte_bind.
  intros b Hb. apply sound_expandUnicode_cont. assumption.
Qed.

Lemma sound_expandSingleByte_cont (b : Z) :
  isByte b ->
  sound
    (let staticWindow := 0 in
     let* dynamicWindow := getWindow in
     if oneof b [SQ0; SQ1; SQ2; SQ3; SQ4; SQ5; SQ6; SQ7] then
       let dynamicWindow := b - SQ0 in
       let staticWindow := dynamicWindow in
       let* b := mapErr unexpectedEOF readByte in
       let* r := outputCharacter b staticWindow dynamicWindow in
       ret (Some r)
     else if b =? SDX then
       let* ch := mapErr unexpectedEOF readUint16 in
       exec defineExtendedWindow ch in
       ret None
     else if oneof b [SD0; SD1; SD2; SD3; SD4; SD5; SD6; SD7] then
       let* b1 := mapErr unexpectedEOF readByte in
       exec defineWindow (b - SD0) b1 in
       ret None
     else if oneof b [SC0; SC1; SC2; SC3; SC4; SC5; SC6; SC7] then
       exec setWindow (b - SC0) in
       ret None
     else if b =? SCU then
       exec setUnicodeMode true in
       ret (Some (-1))
     else if b =? SQU then
       let* ch := readUint16 in
       ret (Some ch)
     else if b =? Srs then
       fail ErrIllegalInput
     else
       let* r := outputCharacter b staticWindow dynamicWindow in
       ret (Some r))
    expanded_opt.
Proof.
  intros Hb. cbv zeta.
  sound_step ltac:(apply sound_getWindow).
  destruct (oneof b _) eqn:Hq.
  { sound_step ltac:(apply sound_mapErr, sound_readByte).
    sound_step ltac:(apply sound_outputCharacter; [assumption| |];
                     tag_cases Hq; unfold SQ0, SQ1, SQ2, SQ3, SQ4, SQ5, SQ6, SQ7; lia).
    apply sound_ret. right. assumption. }
  clear Hq. destruct (b =? SDX).
  { sound_step ltac:(apply sound_mapErr, sound_readUint16).
    sound_step ltac:(apply sound_defineExtendedWindow; assumption).
    apply sound_ret. exact I. }
  destruct (oneof b _) eqn:Hd.
  { sound_step ltac:(apply sound_mapErr, sound_readByte).
    sound_step ltac:(apply sound_defineWindow; [|assumption];
                     tag_cases Hd; unfold SD0, SD1, SD2, SD3, SD4, SD5, SD6, SD7; lia).
    apply sound_ret. exact I. }
  clear Hd. destruct (oneof b _) eqn:Hc.
  { sound_step ltac:(apply sound_setWindow;
                     tag_cases Hc; unfold SC0, SC1, SC2, SC3, SC4, SC5, SC6, SC7; lia).
    apply sound_ret. exact I. }
  clear Hc. destruct (b =? SCU).
  { sound_step ltac:(apply sound_setUnicodeMode).
    apply sound_ret. left. reflexivity. }
  destruct (b =? SQU).
  { sound_step ltac:(apply sound_readUint16).
    apply sound_ret. right. unfold okRune. lia. }
  destruct (b =? Srs); [apply sound_fail|].
  sound_step ltac:(apply sound_outputCharacter; [assumption|lia|assumption]).
  apply sound_ret. right. assumption.
Qed.

Lemma sound_expandSingleByte_body : sound expandSingleByte_body expanded_opt.
Proof.
  unfold expandSingleByte_body.
  eapply sound_bind; [apply sound_readByte|].
  intros b Hb. apply sound_expandSingleByte_cont. assumption.
Qed.

Lemma advancing_expandSingleByte_body : advancing expandSingleByte_body.
Proof.
  unfold expandSingleByte_body. eapply advancing_readByte_bind.
  intros b Hb. apply sound_expandSingleByte_cont. assumption.
Qed.

(** ** The loops return *)

(** The three [for] loops are run on fuel; with more fuel than bytes left
    they never exhaust it. *)
Lemma sound_expandSingleByte_loop (fuel : nat) (d : Decoder) :
  wf d -> (length (brd d) < fuel)%nat ->
  let (o, d') := expandSingleByte_loop fuel d in
  wf d' /\
  match o with
  | Ok r => expanded r /\ (length (brd d') < length (brd d))%nat
  | Err _ => (length (brd d') <= length (brd d))%nat
  | Panic | OutOfFuel => False
  end.
Proof.
  revert d. induction fuel as [|fuel IH]; intros d Hd Hlen; [lia|].
  simpl. unfold bind.
  pose proof (sound_expandSingleByte_body d Hd) as Hs.
  pose proof (advancing_expandSingleByte_body d Hd) as Ha.
  destruct (expandSingleByte_body d) as [[r|e| |] d1];
    destruct Hs as (Hw1 & Hl1 & Hq); try contradiction; [|auto].
  specialize (Ha r d1 eq_refl).
  destruct r as [r|].
  - simpl. auto.
  - specialize (IH d1 Hw1 ltac:(lia)).
    destruct (expandSingleByte_loop fuel d1) as [[r|e| |] d2];
      destruct IH as (Hw2 & H2); try contradiction; split; auto; try lia.
    destruct H2. split; [assumption|lia].
Qed.

Lemma sound_expandSingleByte : sound expandSingleByte expanded.
Proof.
  intros d Hd. unfold expandSingleByte.
  pose proof (sound_expandSingleByte_loop (S (length (brd d))) d Hd ltac:(lia)) as H.
  destruct (expandSingleByte_loop _ d) as [[r|e| |] d1];
    destruct H as (Hw & H); try contradiction;
    (split; [assumption | split]); try exact I; try tauto; lia.
Qed.

Lemma advancing_expandSingleByte : advancing expandSingleByte.
Proof.
  intros d Hd a d' Hrun. unfold expandSingleByte in Hrun.
  pose proof (sound_expandSingleByte_loop (S (length (brd d))) d Hd ltac:(lia)) as H.
  rewrite Hrun in H. destruct H as (_ & _ & H). assumption.
Qed.

Lemma sound_readRune_body : sound readRune_body expanded.
Proof.
  intros d Hd. unfold readRune_body. destruct (unicodeMode d).
  - apply sound_expandUnicode. assumption.
  - apply sound_expandSingleByte. assumption.
Qed.

Lemma advancing_readRune_body : advancing readRune_body.
Proof.
  intros d Hd a d'. unfold readRune_body. destruct (unicodeMode d).
  - apply advancing_expandUnicode. assumption.
  - apply advancing_expandSingleByte. assumption.
Qed.

Lemma sound_readRune_loop (fuel : nat) (d : Decoder) :
  wf d -> (length (brd d) < fuel)%nat ->
  let (o, d') := readRune_loop fuel d in
  wf d' /\
  match o with
  | Ok r => okRune r /\ (length (brd d') < length (brd d))%nat
  | Err _ => (length (brd d') <= length (brd d))%nat
  | Panic | OutOfFuel => False
  end.
Proof.
  revert d. induction fuel as [|fuel IH]; intros d Hd Hlen; [lia|].
  simpl. unfold bind.
  pose proof (sound_readRune_body d Hd) as Hs.
  pose proof (advancing_readRune_body d Hd) as Ha.
  destruct (readRune_body d) as [[r|e| |] d1];
    destruct Hs as (Hw1 & Hl1 & Hq); try contradiction; [|auto].
  specialize (Ha r d1 eq_refl).
  destruct (Z.eqb_spec r (-1)) as [Heq|Hne].
  - specialize (IH d1 Hw1 ltac:(lia)).
    destruct (readRune_loop fuel d1) as [[r'|e| |] d2];
      destruct IH as (Hw2 & H2); try contradiction; split; auto; try lia.
    destruct H2. split; [assumption|lia].
  - simpl. destruct Hq as [Hq|Hq]; [contradiction|]. auto.
Qed.

Lemma sound_readRune : sound readRune okRune.
Proof.
  intros d Hd. unfold readRune.
  pose proof (sound_readRune_loop (S (length (brd d))) d Hd ltac:(lia)) as H.
  destruct (readRune_loop _ d) as [[r|e| |] d1];
    destruct H as (Hw & H); try contradiction;
    (split; [assumption | split]); try exact I; try tauto; lia.
Qed.

Lemma advancing_readRune : advancing readRune.
Proof.
  intros d Hd a d' Hrun. unfold readRune in Hrun.
  pose proof (sound_readRune_loop (S (length (brd d))) d Hd ltac:(lia)) as H.
  rewrite Hrun in H. destruct H as (_ & _ & H). assumption.
Qed.

Lemma sound_ReadString_loop (fuel : nat) (sb : gostring) (d : Decoder) :
  wf d -> (length (brd d) < fuel)%nat ->
  let (o, d') := ReadString_loop fuel sb d in
  wf d' /\ (length (brd d') <= length (brd d))%nat /\ ~ failed o.
Proof.
  revert sb d. induction fuel as [|fuel IH]; intros sb d Hd Hlen; [lia|].
  simpl.
  pose proof (sound_readRune d Hd) as Hs.
  pose proof (advancing_readRune d Hd) as Ha.
  destruct (readRune d) as [[r|e| |] d1];
    destruct Hs as (Hw1 & Hl1 & Hq); try contradiction.
  - specialize (Ha r d1 eq_refl).
    specialize (IH (WriteRune sb r) d1 Hw1 ltac:(lia)).
    destruct (ReadString_loop fuel _ d1) as [o d2].
    destruct IH as (Hw2 & Hl2 & Hf). split; [assumption | split]; [lia | assumption].
  - destruct (isEOF e); simpl; auto.
Qed.

Lemma sound_ReadString : sound ReadString (fun _ => True).
Proof.
  intros d Hd. unfold ReadString.
  pose proof (sound_ReadString_loop (S (length (brd d))) [] d Hd ltac:(lia)) as H.
  destruct (ReadString_loop _ _ d) as [[s|e| |] d1];
    destruct H as (Hw & Hl & Hf); simpl in Hf; auto.
Qed.

Lemma wf_NewDecoder (b : list Z) : Forall isByte b -> wf (NewDecoder b).
Proof.
  intros Hb. constructor; simpl; [lia | reflexivity | | assumption].
  apply initialDynamicOffset_bounds.
Qed.


(** ** Which computations move a window *)

Lemma quiet_ret {A} (a : A) : quiet (ret a).
Proof. intros d. simpl. auto. Qed.

Lemma quiet_fail {A} (e : error) : quiet (@fail A e).
Proof. intros d. simpl. auto. Qed.

Lemma quiet_bind {A B} (m : M A) (k : A -> M B) :
  quiet m -> (forall a, quiet (k a)) -> quiet (bind m k).
Proof.
  intros Hm Hk d. unfold bind. specialize (Hm d).
  destruct (m d) as [[a|e| |] d1]; simpl in *; try assumption.
  destruct (Hk a d1) as [H3 H4]. destruct Hm as [H1 H2].
  split; congruence.
Qed.

Lemma quiet_mapErr {A} f (m : M A) : quiet m -> quiet (mapErr f m).
Proof.
  intros Hm d. unfold mapErr. specialize (Hm d).
  destruct (m d) as [[a|e| |] d1]; assumption.
Qed.

Lemma quiet_readByte : quiet readByte.
Proof. intros d. unfold readByte. destruct (brd d); simpl; auto. Qed.

Lemma quiet_readUint16 : quiet readUint16.
Proof.
  unfold readUint16.
  apply quiet_bind; [apply quiet_mapErr, quiet_readByte|]. intros b1.
  apply quiet_bind; [apply quiet_mapErr, quiet_readByte|]. intros b2.
  apply quiet_ret.
Qed.

Lemma quiet_setUnicodeMode (u : bool) : quiet (setUnicodeMode u).
Proof. intros d. simpl. auto. Qed.

Lemma quiet_getWindow : quiet getWindow.
Proof. intros d. simpl. auto. Qed.

Lemma quiet_readTable (a : list Z) (i : Z) : quiet (readTable a i).
Proof. intros d. unfold readTable. destruct (index a i); simpl; auto. Qed.

Lemma quiet_getDynamicOffset (i : Z) : quiet (getDynamicOffset i).
Proof.
  intros d. unfold getDynamicOffset.
  destruct (index (dynamicOffset d) i); simpl; auto.
Qed.

Lemma quiet_outputCharacter (b sw dw : Z) : quiet (outputCharacter b sw dw).
Proof.
  unfold outputCharacter. destruct (b <? 0x80).
  - apply quiet_bind; [apply quiet_readTable | intros; apply quiet_ret].
  - apply quiet_bind; [apply quiet_getDynamicOffset | intros; apply quiet_ret].
Qed.

Lemma coupled_step_refl (d d' : Decoder) :
  dynamicOffset d' = dynamicOffset d -> coupled_step d d'.
Proof. intros H j Hj. rewrite H in Hj. contradiction. Qed.

Lemma coupled_of_quiet {A} (m : M A) : quiet m -> coupled m.
Proof. intros Hm d. apply coupled_step_refl. apply Hm. Qed.

Lemma coupled_of_still {A} (m : M A) : still m -> coupled m.
Proof. intros Hm d. apply coupled_step_refl. apply Hm. Qed.


Lemma coupled_bind_quiet_l {A B} (m : M A) (k : A -> M B) :
  quiet m -> (forall a, coupled (k a)) -> coupled (bind m k).
Proof.
  intros Hm Hk d. unfold bind. specialize (Hm d).
  destruct (m d) as [[a|e| |] d1]; simpl in *;
    try (apply coupled_step_refl; apply Hm).
  specialize (Hk a d1). destruct Hm as [Hdyn _].
  intros j Hj. apply Hk. rewrite Hdyn. assumption.
Qed.

Lemma coupled_bind_quiet_r {A B} (m : M A) (k : A -> M B) :
  coupled m -> (forall a, quiet (k a)) -> coupled (bind m k).
Proof.
  intros Hm Hk d. unfold bind. specialize (Hm d).
  destruct (m d) as [[a|e| |] d1]; simpl in *; try assumption.
  destruct (Hk a d1) as [Hdyn Hwin].
  intros j Hj. rewrite Hwin. apply Hm. rewrite <- Hdyn. assumption.
Qed.

Lemma index_nonneg (a : list Z) (i v : Z) : index a i = Some v -> 0 <= i.
Proof. unfold index. destruct (Z.leb_spec 0 i); [auto | discriminate]. Qed.

Lemma coupled_step_redefined (d : Decoder) (i v : Z) :
  0 <= i -> coupled_step d (redefined d i v).
Proof.
  intros Hi j Hj. unfold redefined in *. simpl in *.
  destruct (decide (Z.to_nat i = j)) as [<- | Hne]; [lia|].
  rewrite list_lookup_insert_ne in Hj by assumption. contradiction.
Qed.

(** Setting a base and selecting the window, as both definitions do. *)
Lemma redefine_effect (i v : Z) (d : Decoder) :
  (exec setDynamicOffset i v in setWindow i) d = (Panic, d) \/
  (0 <= i /\ (exec setDynamicOffset i v in setWindow i) d = (Ok tt, redefined d i v)).
Proof.
  unfold bind, setDynamicOffset.
  destruct (index (dynamicOffset d) i) as [v0|] eqn:Hi; simpl; [|auto].
  right. split; [eapply index_nonneg; eassumption | reflexivity].
Qed.

(** [defineWindow] either stops short and leaves the decoder alone, or
    repositions the window and selects it. *)
Lemma defineWindow_effect (i b : Z) (d : Decoder) :
  (exists o, defineWindow i b d = (o, d) /\ o <> Ok tt) \/
  (exists v, 0 <= i /\ defineWindow i b d = (Ok tt, redefined d i v)).
Proof.
  unfold defineWindow.
  destruct (b =? 0); [left; eexists; split; [reflexivity | discriminate]|].
  destruct (b <? gapThreshold).
  { destruct (redefine_effect i (int32 (Z.shiftl b 7)) d) as [H | (Hi & H)]; rewrite H;
      [left; eexists; split; [reflexivity | discriminate] | eauto]. }
  destruct (b <? reservedStart).
  { destruct (redefine_effect i (int32 (int32 (Z.shiftl b 7) + gapOffset)) d)
      as [H | (Hi & H)]; rewrite H;
      [left; eexists; split; [reflexivity | discriminate] | eauto]. }
  destruct (b <? fixedThreshold);
    [left; eexists; split; [reflexivity | discriminate]|].
  unfold bind at 1 2. unfold readTable.
  destruct (index fixedOffset _) as [v|];
    [|left; eexists; split; [reflexivity | discriminate]].
  destruct (redefine_effect i v d) as [H | (Hi & H)]; unfold bind in H; rewrite H;
    [left; eexists; split; [reflexivity | discriminate] | eauto].
Qed.

Lemma defineExtendedWindow_effect (c : Z) (d : Decoder) :
  defineExtendedWindow c d = (Panic, d) \/
  (exists v, 0 <= Z.shiftr c 13 /\
     defineExtendedWindow c d = (Ok tt, redefined d (Z.shiftr c 13) v)).
Proof.
  unfold defineExtendedWindow. cbv zeta.
  destruct (redefine_effect (Z.shiftr c 13)
              (int32 (int32 (Z.shiftl (Z.land c 0x1FFF) 7) + Z.shiftl 1 16)) d)
    as [H | (Hi & H)]; rewrite H; eauto.
Qed.

Lemma coupled_defineWindow (i b : Z) : coupled (defineWindow i b).
Proof.
  intros d.
  destruct (defineWindow_effect i b d) as [(o & H & _) | (v & Hi & H)]; rewrite H.
  - apply coupled_step_refl. reflexivity.
  - apply coupled_step_redefined. assumption.
Qed.

Lemma coupled_defineExtendedWindow (c : Z) : coupled (defineExtendedWindow c).
Proof.
  intros d.
  destruct (defineExtendedWindow_effect c d) as [H | (v & Hi & H)]; rewrite H.
  - apply coupled_step_refl. reflexivity.
  - apply coupled_step_redefined. assumption.
Qed.

Lemma coupled_expandUnicode : coupled expandUnicode.
Proof.
  unfold expandUnicode.
  apply coupled_bind_quiet_l; [apply quiet_readByte|]. intros b.
  destruct (_ && _).
  { apply coupled_of_still. intros d. reflexivity. }
  destruct (_ && _).
  { apply coupled_bind_quiet_l; [apply quiet_mapErr, quiet_readByte|]. intros b1.
    apply coupled_bind_quiet_l; [apply quiet_setUnicodeMode|]. intros _.
    apply coupled_bind_quiet_r; [apply coupled_defineWindow|]. intros _.
    apply quiet_ret. }
  destruct (b =? UDX).
  { apply coupled_bind_quiet_l; [apply quiet_mapErr, quiet_readUint16|]. intros c.
    apply coupled_bind_quiet_r; [apply coupled_defineExtendedWindow|]. intros _.
    apply quiet_bind; [apply quiet_setUnicodeMode | intros; apply quiet_ret]. }
  apply coupled_of_quiet.
  destruct (b =? UQU).
  { apply quiet_bind; [apply quiet_readUint16 | intros; apply quiet_ret]. }
  apply quiet_bind; [apply quiet_mapErr, quiet_readByte|]. intros b1. cbv zeta.
  destruct (utf16.IsSurrogate _); [|apply quiet_ret].
  apply quiet_bind; [apply quiet_mapErr, quiet_readUint16|]. intros ch1.
  destruct (negb _); [apply quiet_fail | apply quiet_ret].
Qed.

Lemma coupled_expandSingleByte_body : coupled expandSingleByte_body.
Proof.
  unfold expandSingleByte_body.
  apply coupled_bind_quiet_l; [apply quiet_readByte|]. intros b. cbv zeta.
  apply coupled_bind_quiet_l; [apply quiet_getWindow|]. intros w.
  destruct (oneof b _).
  { apply coupled_of_quiet.
    apply quiet_bind; [apply quiet_mapErr, quiet_readByte|]. intros b1.
    apply quiet_bind; [apply quiet_outputCharacter | intros; apply quiet_ret]. }
  destruct (b =? SDX).
  { apply coupled_bind_quiet_l; [apply quiet_mapErr, quiet_readUint16|]. intros c.
    apply coupled_bind_quiet_r; [apply coupled_defineExtendedWindow|]. intros _.
    apply quiet_ret. }
  destruct (oneof b _).
  { apply coupled_bind_quiet_l; [apply quiet_mapErr, quiet_readByte|]. intros b1.
    apply coupled_bind_quiet_r; [apply coupled_defineWindow|]. intros _.
    apply quiet_ret. }
  destruct (oneof b _).
  { apply coupled_of_still. intros d. reflexivity. }
  apply coupled_of_quiet.
  destruct (b =? SCU).
  { apply quiet_bind; [apply quiet_setUnicodeMode | intros; apply quiet_ret]. }
  destruct (b =? SQU).
  { apply quiet_bind; [apply quiet_readUint16 | intros; apply quiet_ret]. }
  destruct (b =? Srs); [apply quiet_fail|].
  apply quiet_bind; [apply quiet_outputCharacter | intros; apply quiet_ret].
Qed.

(** ** The loops, unrolled *)

(** On a well-formed decoder the fuel never matters once it exceeds the bytes
    left, so each fuelled loop satisfies the equation of the [for] it
    stands for. *)
Lemma expandSingleByte_loop_fuel (f1 f2 : nat) (d : Decoder) :
  wf d -> (length (brd d) < f1)%nat -> (length (brd d) < f2)%nat ->
  expandSingleByte_loop f1 d = expandSingleByte_loop f2 d.
Proof.
  revert f2 d. induction f1 as [|f1 IH]; intros f2 d Hd H1 H2; [lia|].
  destruct f2 as [|f2]; [lia|]. simpl. unfold bind.
  pose proof (sound_expandSingleByte_body d Hd) as Hs.
  pose proof (advancing_expandSingleByte_body d Hd) as Ha.
  destruct (expandSingleByte_body d) as [[[r|]|e| |] d1]; try reflexivity.
  destruct Hs as (Hw1 & _ & _). specialize (Ha None d1 eq_refl).
  apply IH; [assumption | lia | lia].
Qed.

Lemma expandSingleByte_unroll (d : Decoder) :
  wf d ->
  expandSingleByte d =
    match expandSingleByte_body d with
    | (Ok (Some r), d') => (Ok r, d')
    | (Ok None, d') => expandSingleByte d'
    | (Err e, d') => (Err e, d')
    | (Panic, d') => (Panic, d')
    | (OutOfFuel, d') => (OutOfFuel, d')
    end.
Proof.
  intros Hd. unfold expandSingleByte at 1. cbn [expandSingleByte_loop].
  unfold bind at 1.
  pose proof (sound_expandSingleByte_body d Hd) as Hs.
  pose proof (advancing_expandSingleByte_body d Hd) as Ha.
  destruct (expandSingleByte_body d) as [[[r|]|e| |] d1]; try reflexivity.
  destruct Hs as (Hw1 & _ & _). specialize (Ha None d1 eq_refl).
  unfold expandSingleByte.
  apply expandSingleByte_loop_fuel; [assumption | lia | lia].
Qed.

Lemma readRune_loop_fuel (f1 f2 : nat) (d : Decoder) :
  wf d -> (length (brd d) < f1)%nat -> (length (brd d) < f2)%nat ->
  readRune_loop f1 d = readRune_loop f2 d.
Proof.
  revert f2 d. induction f1 as [|f1 IH]; intros f2 d Hd H1 H2; [lia|].
  destruct f2 as [|f2]; [lia|]. simpl. unfold bind.
  pose proof (sound_readRune_body d Hd) as Hs.
  pose proof (advancing_readRune_body d Hd) as Ha.
  destruct (readRune_body d) as [[r|e| |] d1]; try reflexivity.
  destruct Hs as (Hw1 & _ & _). specialize (Ha r d1 eq_refl).
  destruct (r =? -1); [|reflexivity].
  apply IH; [assumption | lia | lia].
Qed.

Lemma readRune_unroll (d : Decoder) :
  wf d ->
  readRune d =
    match readRune_body d with
    | (Ok r, d') => if r =? -1 then readRune d' else (Ok r, d')
    | (Err e, d') => (Err e, d')
    | (Panic, d') => (Panic, d')
    | (OutOfFuel, d') => (OutOfFuel, d')
    end.
Proof.
  intros Hd. unfold readRune at 1. cbn [readRune_loop]. unfold bind at 1.
  pose proof (sound_readRune_body d Hd) as Hs.
  pose proof (advancing_readRune_body d Hd) as Ha.
  destruct (readRune_body d) as [[r|e| |] d1]; try reflexivity.
  destruct Hs as (Hw1 & _ & _). specialize (Ha r d1 eq_refl).
  destruct (r =? -1); [|reflexivity].
  unfold readRune. apply readRune_loop_fuel; [assumption | lia | lia].
Qed.

Lemma ReadString_loop_fuel (f1 f2 : nat) (sb : gostring) (d : Decoder) :
  wf d -> (length (brd d) < f1)%nat -> (length (brd d) < f2)%nat ->
  ReadString_loop f1 sb d = ReadString_loop f2 sb d.
Proof.
  revert f2 sb d. induction f1 as [|f1 IH]; intros f2 sb d Hd H1 H2; [lia|].
  destruct f2 as [|f2]; [lia|]. simpl.
  pose proof (sound_readRune d Hd) as Hs.
  pose proof (advancing_readRune d Hd) as Ha.
  destruct (readRune d) as [[r|e| |] d1]; try reflexivity.
  destruct Hs as (Hw1 & _ & _). specialize (Ha r d1 eq_refl).
  apply IH; [assumption | lia | lia].
Qed.

Lemma ReadString_from_unroll (sb : gostring) (d : Decoder) :
  wf d ->
  ReadString_from sb d =
    match readRune d with
    | (Ok r, d') => ReadString_from (WriteRune sb r) d'
    | (Err e, d') => if isEOF e then (Ok sb, d') else (Err e, d')
    | (Panic, d') => (Panic, d')
    | (OutOfFuel, d') => (OutOfFuel, d')
    end.
Proof.
  intros Hd. unfold ReadString_from at 1. cbn [ReadString_loop].
  pose proof (sound_readRune d Hd) as Hs.
  pose proof (advancing_readRune d Hd) as Ha.
  destruct (readRune d) as [[r|e| |] d1]; try reflexivity.
  destruct Hs as (Hw1 & _ & _). specialize (Ha r d1 eq_refl).
  unfold ReadString_from. apply ReadString_loop_fuel; [assumption | lia | lia].
Qed.

(** ** Running one command *)


Lemma outputCharacter_run (b staticWindow dynamicWindow : Z) (d : Decoder) :
  isByte b -> 0 <= staticWindow < 8 -> 0 <= dynamicWindow < 8 -> wf d ->
  exists so dyo,
    index staticOffset staticWindow = Some so /\
    index (dynamicOffset d) dynamicWindow = Some dyo /\
    0 <= so /\ 0 <= dyo /\
    outputCharacter b staticWindow dynamicWindow d =
      (Ok (if b <? 0x80 then so + b else dyo + (b - 0x80)), d).
Proof.
  intros Hb Hs Hdw Hd. unfold isByte in Hb.
  destruct (index_Some staticOffset staticWindow) as (so & Hso & Hsin);
    [simpl; lia|].
  destruct (index_Some (dynamicOffset d) dynamicWindow) as (dyo & Hdyo & Hdin);
    [rewrite (wf_length d Hd); lia|].
  pose proof staticOffset_bounds as Hsb. rewrite Forall_forall in Hsb.
  specialize (Hsb so Hsin). cbv beta in Hsb.
  pose proof (wf_offsets d Hd) as Hob. rewrite Forall_forall in Hob.
  specialize (Hob dyo Hdin). unfold okOffset, maxOffset in Hob.
  exists so, dyo. repeat (split; [assumption || lia|]).
  unfold outputCharacter, bind, readTable, getDynamicOffset, ret.
  destruct (Z.ltb_spec b 0x80).
  - rewrite Hso. rewrite int32_small by lia. do 2 f_equal. lia.
  - rewrite Hdyo. rewrite (int32_small (b - 128)) by lia.
    rewrite int32_small by lia. do 2 f_equal. lia.
Qed.

Lemma expandSingleByte_of_body (d d' : Decoder) (r : rune) :
  expandSingleByte_body d = (Ok (Some r), d') ->
  expandSingleByte d = (Ok r, d').
Proof.
  intros H. unfold expandSingleByte. cbn [expandSingleByte_loop].
  unfold bind at 1. rewrite H. reflexivity.
Qed.

Lemma readRune_of_expandSingleByte (d d' : Decoder) (r : rune) :
  unicodeMode d = false -> expandSingleByte d = (Ok r, d') -> r <> -1 ->
  readRune d = (Ok r, d').
Proof.
  intros Hu H Hr. unfold readRune. cbn [readRune_loop].
  unfold bind at 1. unfold readRune_body. rewrite Hu, H.
  destruct (Z.eqb_spec r (-1)); [contradiction | reflexivity].
Qed.


Lemma wf_consumed (d : Decoder) (k : Z) (rest : list Z) :
  wf d -> Forall isByte rest -> wf (consumed d k rest).
Proof. intros [Hw Hl Ho Hb] Hr. constructor; simpl; assumption. Qed.

Lemma oneof_tags_split (b : Z) :
  oneof b singleByteTags = false ->
  oneof b [SQ0; SQ1; SQ2; SQ3; SQ4; SQ5; SQ6; SQ7] = false /\
  (b =? SDX) = false /\
  oneof b [SD0; SD1; SD2; SD3; SD4; SD5; SD6; SD7] = false /\
  oneof b [SC0; SC1; SC2; SC3; SC4; SC5; SC6; SC7] = false /\
  (b =? SCU) = false /\ (b =? SQU) = false /\ (b =? Srs) = false.
Proof.
  unfold singleByteTags, oneof. cbn [existsb]. intros H.
  repeat (apply orb_false_iff in H as [? H]).
  repeat match goal with H : (b =? _) = false |- _ => rewrite H; clear H end.
  repeat split; reflexivity.
Qed.

(** A data byte: through static window 0 below 0x80, through the active
    dynamic window from 0x80 on. *)
Lemma body_data (d : Decoder) (b base : Z) (more : list Z) :
  wf d -> brd d = b :: more -> oneof b singleByteTags = false ->
  index (dynamicOffset d) (window d) = Some base ->
  expandSingleByte_body d =
    (Ok (Some (if b <? 0x80 then b else base + (b - 0x80))), consumed d 1 more).
Proof.
  intros Hd Hbrd Htag Hbase.
  pose proof (wf_bytes d Hd) as Hby. rewrite Hbrd in Hby.
  inversion Hby as [|? ? Hb Hmore]; subst.
  pose proof (wf_consumed d 1 more Hd Hmore) as Hd1.
  destruct (outputCharacter_run b 0 (window d) (consumed d 1 more) Hb
              ltac:(lia) (wf_window d Hd) Hd1)
    as (so & dyo & Hso & Hdyo & _ & _ & Hout).
  inversion Hso; subst so. cbn [consumed dynamicOffset] in Hdyo.
  rewrite Hbase in Hdyo. inversion Hdyo; subst dyo.
  destruct (oneof_tags_split b Htag) as (H1 & H2 & H3 & H4 & H5 & H6 & H7).
  unfold expandSingleByte_body. unfold bind at 1. unfold readByte at 1.
  rewrite Hbrd. unfold bind at 1. unfold getWindow at 1.
  cbn [window dynamicOffset brd bytesRead unicodeMode]. cbv zeta.
  rewrite H1, H2, H3, H4, H5, H6, H7.
  unfold bind at 1. unfold consumed in Hout. rewrite Hout.
  unfold ret, consumed. reflexivity.
Qed.

Lemma oneof_SQ (n : Z) :
  0 <= n < 8 -> oneof (SQ0 + n) [SQ0; SQ1; SQ2; SQ3; SQ4; SQ5; SQ6; SQ7] = true.
Proof.
  intros Hn. apply oneof_In. unfold_tags. simpl.
  assert (n = 0 \/ n = 1 \/ n = 2 \/ n = 3 \/ n = 4 \/ n = 5 \/ n = 6 \/ n = 7)
    as Hc by lia.
  repeat (destruct Hc as [-> | Hc]; [tauto|]). subst. tauto.
Qed.

(** A quote: the byte after SQn goes through the pair of windows n. *)
Lemma body_quote (d : Decoder) (n b so base : Z) (more : list Z) :
  wf d -> 0 <= n < 8 -> brd d = (SQ0 + n) :: b :: more ->
  index staticOffset n = Some so ->
  index (dynamicOffset d) n = Some base ->
  expandSingleByte_body d =
    (Ok (Some (if b <? 0x80 then so + b else base + (b - 0x80))), consumed d 2 more).
Proof.
  intros Hd Hn Hbrd Hso Hbase.
  pose proof (wf_bytes d Hd) as Hby. rewrite Hbrd in Hby.
  inversion Hby as [|? ? _ Hby']; subst.
  inversion Hby' as [|? ? Hb Hmore]; subst.
  pose proof (wf_consumed d (1 + 1) more Hd Hmore) as Hd1.
  destruct (outputCharacter_run b n n (consumed d (1 + 1) more) Hb Hn Hn Hd1)
    as (so' & dyo & Hso' & Hdyo & _ & _ & Hout).
  rewrite Hso in Hso'. inversion Hso'; subst so'.
  cbn [consumed dynamicOffset] in Hdyo.
  rewrite Hbase in Hdyo. inversion Hdyo; subst dyo.
  unfold expandSingleByte_body. unfold bind at 1. unfold readByte at 1.
  rewrite Hbrd. unfold bind at 1. unfold getWindow at 1.
  rewrite (oneof_SQ n Hn).
  cbv zeta. replace (SQ0 + n - SQ0) with n by lia.
  unfold bind at 1. unfold mapErr, readByte.
  cbn [window dynamicOffset brd bytesRead unicodeMode].
  unfold bind at 1. unfold consumed in Hout.
  replace (bytesRead d + 1 + 1) with (bytesRead d + (1 + 1)) by lia.
  rewrite Hout. unfold ret, consumed. reflexivity.
Qed.

Lemma oneof_SC (i : Z) :
  0 <= i < 8 ->
  oneof (SC0 + i) [SQ0; SQ1; SQ2; SQ3; SQ4; SQ5; SQ6; SQ7] = false /\
  (SC0 + i =? SDX) = false /\
  oneof (SC0 + i) [SD0; SD1; SD2; SD3; SD4; SD5; SD6; SD7] = false /\
  oneof (SC0 + i) [SC0; SC1; SC2; SC3; SC4; SC5; SC6; SC7] = true.
Proof.
  intros Hi.
  assert (i = 0 \/ i = 1 \/ i = 2 \/ i = 3 \/ i = 4 \/ i = 5 \/ i = 6 \/ i = 7)
    as Hc by lia.
  repeat (destruct Hc as [-> | Hc]; [repeat split; reflexivity|]).
  subst. repeat split; reflexivity.
Qed.

(** SCn selects window n and the loop comes round. *)
Lemma body_select (d : Decoder) (i : Z) (more : list Z) :
  0 <= i < 8 -> brd d = (SC0 + i) :: more ->
  expandSingleByte_body d =
    (Ok None, mkDecoder i (dynamicOffset d) more (bytesRead d + 1) (unicodeMode d)).
Proof.
  intros Hi Hbrd.
  destruct (oneof_SC i Hi) as (H1 & H2 & H3 & H4).
  unfold expandSingleByte_body. unfold bind at 1. unfold readByte at 1.
  rewrite Hbrd. unfold bind at 1. unfold getWindow at 1. cbv zeta.
  rewrite H1, H2, H3, H4.
  replace (SC0 + i - SC0) with i by lia. reflexivity.
Qed.

Lemma oneof_SD (n : Z) :
  0 <= n < 8 ->
  oneof (SD0 + n) [SQ0; SQ1; SQ2; SQ3; SQ4; SQ5; SQ6; SQ7] = false /\
  (SD0 + n =? SDX) = false /\
  oneof (SD0 + n) [SD0; SD1; SD2; SD3; SD4; SD5; SD6; SD7] = true.
Proof.
  intros Hn.
  assert (n = 0 \/ n = 1 \/ n = 2 \/ n = 3 \/ n = 4 \/ n = 5 \/ n = 6 \/ n = 7)
    as Hc by lia.
  repeat (destruct Hc as [-> | Hc]; [repeat split; reflexivity|]).
  subst. repeat split; reflexivity.
Qed.

(** SDn x positions window n as [defineWindow] says and the loop comes round. *)
Lemma body_define (d d' : Decoder) (n x : Z) (more : list Z) :
  0 <= n < 8 -> brd d = (SD0 + n) :: x :: more ->
  defineWindow n x (consumed d 2 more) = (Ok tt, d') ->
  expandSingleByte_body d = (Ok None, d').
Proof.
  intros Hn Hbrd Hdef.
  destruct (oneof_SD n Hn) as (H1 & H2 & H3).
  unfold expandSingleByte_body. unfold bind at 1. unfold readByte at 1.
  rewrite Hbrd. unfold bind at 1. unfold getWindow at 1. cbv zeta.
  rewrite H1, H2, H3.
  replace (SD0 + n - SD0) with n by lia.
  unfold bind at 1. unfold mapErr, readByte.
  cbn [window dynamicOffset brd bytesRead unicodeMode].
  unfold bind at 1. unfold consumed in Hdef.
  replace (bytesRead d + 1 + 1) with (bytesRead d + 2) by lia.
  rewrite Hdef. reflexivity.
Qed.

(** SDX hi lo positions an extended window and the loop comes round. *)
Lemma body_extended (d d' : Decoder) (hi lo : Z) (more : list Z) :
  brd d = SDX :: hi :: lo :: more ->
  defineExtendedWindow (uint16FromTwoBytes hi lo) (consumed d 3 more) = (Ok tt, d') ->
  expandSingleByte_body d = (Ok None, d').
Proof.
  intros Hbrd Hdef.
  unfold expandSingleByte_body. unfold bind at 1. unfold readByte at 1.
  rewrite Hbrd. unfold bind at 1. unfold getWindow at 1. cbv zeta.
  change (oneof SDX [SQ0; SQ1; SQ2; SQ3; SQ4; SQ5; SQ6; SQ7]) with false.
  change (SDX =? SDX) with true. cbv iota.
  unfold bind at 1. unfold mapErr, readUint16, bind, mapErr, readByte, ret.
  cbn [window dynamicOffset brd bytesRead unicodeMode].
  unfold consumed in Hdef.
  replace (bytesRead d + 1 + 1 + 1) with (bytesRead d + 3) by lia.
  rewrite Hdef. reflexivity.
Qed.

(** SQU hi lo hands out the 16-bit unit as it is. *)
Lemma body_rawquote (d : Decoder) (hi lo : Z) (more : list Z) :
  brd d = SQU :: hi :: lo :: more ->
  expandSingleByte_body d =
    (Ok (Some (uint16FromTwoBytes hi lo)), consumed d 3 more).
Proof.
  intros Hbrd.
  unfold expandSingleByte_body. unfold bind at 1. unfold readByte at 1.
  rewrite Hbrd. unfold bind at 1. unfold getWindow at 1. cbv zeta.
  change (oneof SQU [SQ0; SQ1; SQ2; SQ3; SQ4; SQ5; SQ6; SQ7]) with false.
  change (SQU =? SDX) with false.
  change (oneof SQU [SD0; SD1; SD2; SD3; SD4; SD5; SD6; SD7]) with false.
  change (oneof SQU [SC0; SC1; SC2; SC3; SC4; SC5; SC6; SC7]) with false.
  change (SQU =? SCU) with false. change (SQU =? SQU) with true. cbv iota.
  unfold readUint16, bind, mapErr, readByte, ret, consumed.
  cbn [window dynamicOffset brd bytesRead unicodeMode].
  replace (bytesRead d + 1 + 1 + 1) with (bytesRead d + 3) by lia.
  reflexivity.
Qed.

(** SCU switches to unicode mode and returns the sentinel. *)
Lemma body_tounicode (d : Decoder) (more : list Z) :
  brd d = SCU :: more ->
  expandSingleByte_body d =
    (Ok (Some (-1)),
     mkDecoder (window d) (dynamicOffset d) more (bytesRead d + 1) true).
Proof.
  intros Hbrd.
  unfold expandSingleByte_body. unfold bind at 1. unfold readByte at 1.
  rewrite Hbrd. reflexivity.
Qed.

(** UCn goes back to single-byte mode with window n selected. *)
Lemma unicode_select (d : Decoder) (i : Z) (more : list Z) :
  0 <= i < 8 -> brd d = (UC0 + i) :: more ->
  expandUnicode d =
    (Ok (-1), mkDecoder i (dynamicOffset d) more (bytesRead d + 1) false).
Proof.
  intros Hi Hbrd. unfold expandUnicode. unfold bind at 1. unfold readByte at 1.
  rewrite Hbrd.
  destruct (Z.leb_spec UC0 (UC0 + i)); [|lia].
  destruct (Z.leb_spec (UC0 + i) UC7); [|unfold_tags; lia]. cbn [andb].
  replace (UC0 + i - UC0) with i by lia. reflexivity.
Qed.

Lemma not_unicode_tag (hi : Z) :
  hi < UC0 \/ UDX < hi ->
  (UC0 <=? hi) && (hi <=? UC7) = false /\
  (UD0 <=? hi) && (hi <=? UD7) = false /\
  (hi =? UDX) = false /\ (hi =? UQU) = false.
Proof.
  unfold_tags. intros H.
  destruct (Z.leb_spec 224 hi), (Z.leb_spec hi 231), (Z.leb_spec 232 hi),
    (Z.leb_spec hi 239), (Z.eqb_spec hi 241), (Z.eqb_spec hi 240);
    try lia; repeat split; reflexivity.
Qed.

(** A 16-bit unit that is no surrogate is handed out as it is. *)
Lemma unicode_unit (d : Decoder) (hi lo : Z) (more : list Z) :
  brd d = hi :: lo :: more -> hi < UC0 \/ UDX < hi ->
  utf16.IsSurrogate (uint16FromTwoBytes hi lo) = false ->
  expandUnicode d = (Ok (uint16FromTwoBytes hi lo), consumed d 2 more).
Proof.
  intros Hbrd Hhi Hsur.
  destruct (not_unicode_tag hi Hhi) as (H1 & H2 & H3 & H4).
  unfold expandUnicode. unfold bind at 1. unfold readByte at 1.
  rewrite Hbrd. rewrite H1, H2, H3, H4.
  unfold bind at 1. unfold mapErr, readByte.
  cbn [window dynamicOffset brd bytesRead unicodeMode]. cbv zeta.
  rewrite Hsur. unfold ret, consumed.
  replace (bytesRead d + 1 + 1) with (bytesRead d + 2) by lia. reflexivity.
Qed.

(** UQU hi lo hands out the unit as it is. *)
Lemma unicode_quote (d : Decoder) (hi lo : Z) (more : list Z) :
  brd d = UQU :: hi :: lo :: more ->
  expandUnicode d = (Ok (uint16FromTwoBytes hi lo), consumed d 3 more).
Proof.
  intros Hbrd. unfold expandUnicode. unfold bind at 1. unfold readByte at 1.
  rewrite Hbrd.
  change ((UC0 <=? UQU) && (UQU <=? UC7)) with false.
  change ((UD0 <=? UQU) && (UQU <=? UD7)) with false.
  change (UQU =? UDX) with false. change (UQU =? UQU) with true. cbv iota.
  unfold readUint16, bind, mapErr, readByte, ret, consumed.
  cbn [window dynamicOffset brd bytesRead unicodeMode].
  replace (bytesRead d + 1 + 1 + 1) with (bytesRead d + 3) by lia.
  reflexivity.
Qed.

(** Two surrogate units in a row are combined by [utf16.DecodeRune]. *)
Lemma unicode_pair (d : Decoder) (h1 h2 l1 l2 : Z) (more : list Z) :
  brd d = h1 :: h2 :: l1 :: l2 :: more -> h1 < UC0 \/ UDX < h1 ->
  utf16.IsSurrogate (uint16FromTwoBytes h1 h2) = true ->
  utf16.IsSurrogate (uint16FromTwoBytes l1 l2) = true ->
  expandUnicode d =
    (Ok (utf16.DecodeRune (uint16FromTwoBytes h1 h2) (uint16FromTwoBytes l1 l2)),
     consumed d 4 more).
Proof.
  intros Hbrd Hhi Hs1 Hs2.
  destruct (not_unicode_tag h1 Hhi) as (H1 & H2 & H3 & H4).
  unfold expandUnicode. unfold bind at 1. unfold readByte at 1.
  rewrite Hbrd. rewrite H1, H2, H3, H4.
  unfold bind at 1. unfold mapErr at 1. unfold readByte at 1.
  cbn [window dynamicOffset brd bytesRead unicodeMode]. cbv zeta.
  rewrite Hs1.
  unfold readUint16, bind, mapErr, readByte, ret, consumed.
  cbn [window dynamicOffset brd bytesRead unicodeMode].
  rewrite Hs2. cbn [negb].
  replace (bytesRead d + 1 + 1 + 1 + 1) with (bytesRead d + 4) by lia.
  reflexivity.
Qed.

(** Positioning a window that exists always works. *)
Lemma redefine_run (d : Decoder) (i v : Z) :
  0 <= i < 8 -> length (dynamicOffset d) = 8%nat ->
  (exec setDynamicOffset i v in setWindow i) d = (Ok tt, redefined d i v).
Proof.
  intros Hi Hlen.
  destruct (redefine_effect i v d) as [H | [_ H]]; [|assumption].
  unfold bind, setDynamicOffset in H.
  destruct (index_Some (dynamicOffset d) i) as (v0 & Hv0 & _);
    [rewrite Hlen; lia|].
  rewrite Hv0 in H. discriminate.
Qed.

Lemma defineWindow_low (d : Decoder) (i x : Z) :
  0 <= i < 8 -> length (dynamicOffset d) = 8%nat -> 0 < x < gapThreshold ->
  defineWindow i x d = (Ok tt, redefined d i (x * 128)).
Proof.
  intros Hi Hlen Hx. unfold gapThreshold in Hx. unfold defineWindow.
  destruct (Z.eqb_spec x 0); [lia|].
  destruct (Z.ltb_spec x gapThreshold); [|unfold gapThreshold in *; lia].
  rewrite shiftl7, int32_small by lia.
  apply redefine_run; assumption.
Qed.

Lemma defineWindow_gap (d : Decoder) (i x : Z) :
  0 <= i < 8 -> length (dynamicOffset d) = 8%nat ->
  gapThreshold <= x < reservedStart ->
  defineWindow i x d = (Ok tt, redefined d i (x * 128 + gapOffset)).
Proof.
  intros Hi Hlen Hx. unfold gapThreshold, reservedStart in Hx.
  unfold defineWindow.
  destruct (Z.eqb_spec x 0); [lia|].
  destruct (Z.ltb_spec x gapThreshold); [unfold gapThreshold in *; lia|].
  destruct (Z.ltb_spec x reservedStart); [|unfold reservedStart in *; lia].
  unfold gapOffset.
  rewrite shiftl7, (int32_small (x * 128)), int32_small by lia.
  apply redefine_run; assumption.
Qed.

Lemma defineExtendedWindow_run (d : Decoder) (c : Z) :
  0 <= c < 65536 -> length (dynamicOffset d) = 8%nat ->
  defineExtendedWindow c d =
    (Ok tt, redefined d (c / 8192) (c mod 8192 * 128 + 65536)).
Proof.
  intros Hc Hlen. unfold defineExtendedWindow. cbv zeta.
  pose proof (shiftr13 c Hc) as Hw.
  rewrite extended_offset by assumption.
  rewrite redefine_run by assumption.
  rewrite Z.shiftr_div_pow2 by lia. reflexivity.
Qed.

(** ** End of input *)

Lemma readRune_nil (d : Decoder) : brd d = [] -> readRune d = (Err EOF, d).
Proof.
  intros Hnil. unfold readRune. rewrite Hnil. simpl.
  unfold bind, readRune_body.
  destruct (unicodeMode d).
  - unfold expandUnicode, bind, readByte. rewrite Hnil. reflexivity.
  - unfold expandSingleByte. rewrite Hnil. simpl.
    unfold bind, expandSingleByte_body, bind, readByte. rewrite Hnil. reflexivity.
Qed.

Lemma readRune_Ok_nonempty (d d' : Decoder) (r : rune) :
  readRune d = (Ok r, d') -> brd d <> [].
Proof.
  intros Hrun Hnil. rewrite (readRune_nil d Hnil) in Hrun. discriminate.
Qed.

Lemma ReadString_loop_not_EOF (fuel : nat) (sb : gostring) (d : Decoder) :
  fst (ReadString_loop fuel sb d) <> Err EOF.
Proof.
  revert sb d. induction fuel as [|fuel IH]; intros sb d; simpl; [discriminate|].
  destruct (readRune d) as [[r|e| |] d1]; simpl; try discriminate.
  - apply IH.
  - destruct e; simpl; discriminate.
Qed.

(** ** Round trip: what the encoder writes, the decoder reads back *)

Lemma wf_decoderOf (st : WindowState) (input : list Z) (n : Z) :
  wfState st -> Forall isByte input -> wf (decoderOf st input n).
Proof. intros [Hw Hl Ho] Hi. constructor; simpl; assumption. Qed.

Lemma validRune_range (c : rune) :
  validRune c = true -> 0 <= c <= 0x10FFFF /\ ~ (0xD800 <= c <= 0xDFFF).
Proof.
  unfold validRune. intros H.
  apply andb_true_iff in H as [H H3]. apply andb_true_iff in H as [H1 H2].
  apply Z.leb_le in H1, H2. apply negb_true_iff in H3.
  split; [lia|]. intros [Ha Hb].
  apply Z.leb_le in Ha, Hb. rewrite Ha, Hb in H3. discriminate.
Qed.

Lemma inWindow_spec (base c : Z) :
  inWindow base c = true <-> base <= c < base + 128.
Proof.
  unfold inWindow. rewrite andb_true_iff, Z.leb_le, Z.ltb_lt. reflexivity.
Qed.

Lemma findWindow_spec (c : Z) (bases : list Z) (k i base : Z) :
  findWindow c bases k = Some (i, base) ->
  k <= i < k + Z.of_nat (length bases) /\
  bases !! Z.to_nat (i - k) = Some base /\
  base <= c < base + 128.
Proof.
  revert k. induction bases as [|b0 bases IH]; intros k H; [discriminate|].
  cbn [findWindow] in H. destruct (inWindow b0 c) eqn:Hin.
  - inversion H; subst. rewrite Z.sub_diag. cbn [length].
    split; [lia|]. split; [reflexivity|]. apply inWindow_spec. assumption.
  - destruct (IH (k + 1) H) as (Hr & Hl & Hc). cbn [length].
    split; [lia|]. split; [|assumption].
    replace (Z.to_nat (i - k)) with (S (Z.to_nat (i - (k + 1)))) by lia.
    exact Hl.
Qed.

Lemma findWindow_index (c : Z) (bases : list Z) (i base : Z) :
  findWindow c bases 0 = Some (i, base) ->
  0 <= i < Z.of_nat (length bases) /\ index bases i = Some base /\
  base <= c < base + 128.
Proof.
  intros H. destruct (findWindow_spec c bases 0 i base H) as (Hr & Hl & Hc).
  split; [lia|]. split; [|assumption].
  unfold index. destruct (Z.leb_spec 0 i); [|lia].
  rewrite Z.sub_0_r in Hl. assumption.
Qed.

Lemma high_byte_no_tag (b : Z) : 0x20 <= b -> oneof b singleByteTags = false.
Proof.
  intros Hb. destruct (oneof b singleByteTags) eqn:H; [|reflexivity].
  tag_cases H; unfold_tags; lia.
Qed.

Lemma wfState_activate (i : Z) (st : WindowState) :
  0 <= i < 8 -> wfState st -> wfState (activate i st).
Proof. intros Hi [Hw Hl Ho]. constructor; simpl; assumption. Qed.

Lemma wfState_define (i base : Z) (st : WindowState) :
  0 <= i < 8 -> okOffset base -> wfState st -> wfState (define i base st).
Proof.
  intros Hi Hb [Hw Hl Ho]. constructor; simpl.
  - assumption.
  - rewrite length_insert. assumption.
  - apply Forall_insert; assumption.
Qed.

Lemma wfState_setMode (u : bool) (st : WindowState) :
  wfState st -> wfState (setMode u st).
Proof. intros [Hw Hl Ho]. constructor; simpl; assumption. Qed.

Lemma index_define (i base : Z) (st : WindowState) :
  0 <= i < 8 -> length (offsets st) = 8%nat ->
  index (offsets (define i base st)) i = Some base.
Proof.
  intros Hi Hl. unfold index, define. cbn [offsets].
  destruct (Z.leb_spec 0 i); [|lia].
  apply list_lookup_insert_eq. lia.
Qed.

Lemma active_base (st : WindowState) :
  wfState st -> exists base,
    index (offsets st) (activeWindow st) = Some base /\ okOffset base.
Proof.
  intros [Hw Hl Ho].
  destruct (index_Some (offsets st) (activeWindow st)) as (base & Hb & Hin);
    [rewrite Hl; lia|].
  exists base. split; [assumption|].
  rewrite Forall_forall in Ho. apply Ho. assumption.
Qed.

Lemma uint16_of_divmod (c : Z) :
  0 <= c < 65536 ->
  isByte (c / 256) /\ isByte (c mod 256) /\
  uint16FromTwoBytes (c / 256) (c mod 256) = c.
Proof.
  intros Hc. unfold isByte.
  assert (0 <= c / 256 < 256) as H1.
  { split; [apply Z.div_pos; lia | apply Z.div_lt_upper_bound; lia]. }
  pose proof (Z.mod_pos_bound c 256 ltac:(lia)) as H2.
  split; [assumption|]. split; [assumption|].
  rewrite uint16FromTwoBytes_val by assumption.
  pose proof (Z.div_mod c 256 ltac:(lia)). lia.
Qed.

Lemma expandSingleByte_next (d d1 : Decoder) :
  wf d -> expandSingleByte_body d = (Ok None, d1) ->
  expandSingleByte d = expandSingleByte d1.
Proof. intros Hd H. rewrite (expandSingleByte_unroll d Hd), H. reflexivity. Qed.

(** A byte that passes through, or a byte of the active window. *)
Lemma data_byte_decodes (st : WindowState) (b base : Z) :
  wfState st -> unicode st = false -> isByte b ->
  oneof b singleByteTags = false ->
  index (offsets st) (activeWindow st) = Some base ->
  decodesSingle st (if b <? 0x80 then b else base + (b - 0x80)) [b] st.
Proof.
  intros Hst Hu Hb Htag Hbase.
  split; [assumption|]. split; [assumption|].
  split; [constructor; [assumption | constructor]|].
  intros more n Hmore. exists (n + 1).
  apply expandSingleByte_of_body.
  apply (body_data (decoderOf st ([b] ++ more) n) b base more);
    [|reflexivity|assumption|assumption].
  apply wf_decoderOf; [assumption|]. constructor; assumption.
Qed.

Lemma plain_decodes (st : WindowState) (c : rune) :
  wfState st -> unicode st = false -> 0 <= c ->
  (c <? 0x80) && negb (oneof c singleByteTags) = true ->
  decodesSingle st c [c] st.
Proof.
  intros Hst Hu Hc H. apply andb_true_iff in H as [Hlt Htag].
  apply negb_true_iff in Htag.
  destruct (active_base st Hst) as (base & Hbase & _).
  pose proof (data_byte_decodes st c base Hst Hu) as Hd.
  rewrite Hlt in Hd. apply Hd; try assumption.
  apply Z.ltb_lt in Hlt. unfold isByte. lia.
Qed.

Lemma viaActive_decodes (st : WindowState) (c : rune) bs st' :
  wfState st -> unicode st = false ->
  viaActive st c = Some (bs, st') -> decodesSingle st c bs st'.
Proof.
  intros Hst Hu H. unfold viaActive in H.
  destruct (index (offsets st) (activeWindow st)) as [base|] eqn:Hbase;
    [|discriminate].
  destruct (inWindow base c) eqn:Hin; [|discriminate].
  injection H as <- <-. apply inWindow_spec in Hin.
  pose proof (data_byte_decodes st (128 + (c - base)) base Hst Hu) as Hd.
  destruct (Z.ltb_spec (128 + (c - base)) 128); [lia|].
  replace (base + (128 + (c - base) - 128)) with c in Hd by lia.
  apply Hd; [unfold isByte; lia | apply high_byte_no_tag; lia | assumption].
Qed.

(** A quoted byte, from the static or from the dynamic window of the pair. *)
Lemma quote_decodes (st : WindowState) (i b so base : Z) :
  wfState st -> unicode st = false -> 0 <= i < 8 -> isByte b ->
  index staticOffset i = Some so ->
  index (offsets st) i = Some base ->
  decodesSingle st (if b <? 0x80 then so + b else base + (b - 0x80))
                [SQ0 + i; b] st.
Proof.
  intros Hst Hu Hi Hb Hso Hbase.
  assert (isByte (SQ0 + i)) as Hq by (unfold isByte; unfold_tags; lia).
  split; [assumption|]. split; [assumption|].
  split; [constructor; [assumption | constructor; [assumption | constructor]]|].
  intros more n Hmore. exists (n + 2).
  apply expandSingleByte_of_body.
  apply (body_quote (decoderOf st ([SQ0 + i; b] ++ more) n) i b so base more);
    try assumption; [|reflexivity].
  apply wf_decoderOf; [assumption|].
  constructor; [assumption | constructor; assumption].
Qed.

Lemma viaStatic_decodes (st : WindowState) (c : rune) bs st' :
  wfState st -> unicode st = false ->
  viaStatic st c = Some (bs, st') -> decodesSingle st c bs st'.
Proof.
  intros Hst Hu H. unfold viaStatic in H.
  destruct (findWindow c staticOffset 0) as [[i so]|] eqn:Hf; [|discriminate].
  injection H as <- <-.
  destruct (findWindow_index c staticOffset i so Hf) as (Hi & Hso & Hc).
  cbn [length staticOffset] in Hi.
  destruct (index_Some (offsets st) i) as (base & Hbase & _);
    [rewrite (wfs_length st Hst); lia|].
  pose proof (quote_decodes st i (c - so) so base Hst Hu) as Hd.
  destruct (Z.ltb_spec (c - so) 128); [|lia].
  replace (so + (c - so)) with c in Hd by lia.
  apply Hd; [lia | unfold isByte; lia | assumption | assumption].
Qed.

(** A command that only moves the window state, followed by the bytes that
    decode from the new state. *)
Lemma after_command (st st1 st' : WindowState) (c : rune) (pre bs : list Z) :
  wfState st -> Forall isByte pre ->
  (forall more n, Forall isByte more ->
     exists n1, expandSingleByte_body (decoderOf st (pre ++ more) n)
                = (Ok None, decoderOf st1 more n1)) ->
  decodesSingle st1 c bs st' ->
  decodesSingle st c (pre ++ bs) st'.
Proof.
  intros Hst Hpre Hcmd (Hst' & Hu' & Hbs & Hrun).
  split; [assumption|]. split; [assumption|].
  split; [apply Forall_app; split; assumption|].
  intros more n Hmore.
  assert (Forall isByte (bs ++ more)) as Hrest
    by (apply Forall_app; split; assumption).
  destruct (Hcmd (bs ++ more) n Hrest) as (n1 & Hbody).
  destruct (Hrun more n1 Hmore) as (n' & Hexp).
  exists n'. rewrite <- app_assoc.
  assert (wf (decoderOf st (pre ++ bs ++ more) n)) as Hwf.
  { apply wf_decoderOf; [assumption|]. apply Forall_app; split; assumption. }
  rewrite (expandSingleByte_next _ _ Hwf Hbody).
  assumption.
Qed.

Lemma viaDefined_decodes preferQuote (st : WindowState) (c : rune) rest bs st' :
  wfState st -> unicode st = false ->
  viaDefined preferQuote st c rest = Some (bs, st') -> decodesSingle st c bs st'.
Proof.
  intros Hst Hu H. unfold viaDefined in H.
  destruct (findWindow c (offsets st) 0) as [[i base]|] eqn:Hf; [|discriminate].
  destruct (findWindow_index c (offsets st) i base Hf) as (Hi & Hbase & Hc).
  rewrite (wfs_length st Hst) in Hi.
  assert (isByte (128 + (c - base))) as Hb by (unfold isByte; lia).
  destruct (preferQuote st c rest); injection H as <- <-.
  - destruct (index_Some staticOffset i) as (so & Hso & _); [simpl; lia|].
    pose proof (quote_decodes st i (128 + (c - base)) so base Hst Hu) as Hd.
    destruct (Z.ltb_spec (128 + (c - base)) 128); [lia|].
    replace (base + (128 + (c - base) - 128)) with c in Hd by lia.
    apply Hd; assumption.
  - apply (after_command st (activate i st) (activate i st) c [SC0 + i]
             [128 + (c - base)]); [assumption| | |].
    + constructor; [unfold isByte; unfold_tags; lia | constructor].
    + intros more n Hmore. exists (n + 1).
      apply (body_select (decoderOf st ([SC0 + i] ++ more) n) i more);
        [lia | reflexivity].
    + pose proof (data_byte_decodes (activate i st) (128 + (c - base)) base
                    (wfState_activate i st ltac:(lia) Hst) Hu) as Hd.
      destruct (Z.ltb_spec (128 + (c - base)) 128); [lia|].
      replace (base + (128 + (c - base) - 128)) with c in Hd by lia.
      apply Hd; [assumption | apply high_byte_no_tag; lia | assumption].
Qed.

Lemma windowIndex_spec (c x base : Z) :
  windowIndex c = Some (x, base) ->
  0 <= c < 65536 /\ isByte x /\ base <= c < base + 128 /\ okOffset base /\
  ((0 < x < gapThreshold /\ base = x * 128) \/
   (gapThreshold <= x < reservedStart /\ base = x * 128 + gapOffset)).
Proof.
  unfold windowIndex, gapThreshold, reservedStart, gapOffset, isByte, okOffset,
    maxOffset.
  destruct (Z.leb_spec 128 c), (Z.ltb_spec c 13312); cbn [andb];
    try (destruct (Z.leb_spec 57344 c), (Z.ltb_spec c 65536); cbn [andb]);
    intros Hwi; try discriminate; injection Hwi as <- <-.
  all: pose proof (Z.div_mod c 128 ltac:(lia));
    pose proof (Z.mod_pos_bound c 128 ltac:(lia));
    pose proof (Z.div_mod (c - 44032) 128 ltac:(lia));
    pose proof (Z.mod_pos_bound (c - 44032) 128 ltac:(lia)); lia.
Qed.

Lemma extended_descriptor (n c : Z) :
  0 <= n < 8 -> 0x10000 <= c <= 0x10FFFF ->
  let q := (c - 0x10000) / 128 in
  let D := n * 8192 + q in
  0 <= D < 65536 /\ D / 8192 = n /\ D mod 8192 = q /\
  q * 128 + 0x10000 <= c < q * 128 + 0x10000 + 128 /\
  (c - 0x10000) mod 128 = c - (q * 128 + 0x10000) /\
  okOffset (q * 128 + 0x10000).
Proof.
  intros Hn Hc q D. subst D q. unfold okOffset, maxOffset.
  pose proof (Z.div_mod (c - 65536) 128 ltac:(lia)).
  pose proof (Z.mod_pos_bound (c - 65536) 128 ltac:(lia)).
  assert (0 <= (c - 65536) / 128 < 8192) as Hq by lia.
  split; [lia|]. split; [|split; [|lia]].
  - symmetry. apply (Z.div_unique _ 8192 n ((c - 65536) / 128)); lia.
  - symmetry. apply (Z.mod_unique _ 8192 n ((c - 65536) / 128)); lia.
Qed.

Lemma viaNewWindow_decodes pickWindow (st : WindowState) (c : rune) bs st' :
  wfState st -> unicode st = false -> 0 <= c <= 0x10FFFF ->
  viaNewWindow pickWindow st c = Some (bs, st') -> decodesSingle st c bs st'.
Proof.
  intros Hst Hu Hc H. unfold viaNewWindow in H. cbv zeta in H.
  pose proof (Z.mod_pos_bound (pickWindow st c) 8 ltac:(lia)) as Hn.
  set (n := pickWindow st c mod 8) in *.
  destruct (Z.leb_spec 65536 c) as [Hsup | Hbmp].
  - injection H as <- <-.
    destruct (extended_descriptor n c Hn ltac:(lia))
      as (HD & Hdiv & Hmod & Hin & Hlow & Hok).
    set (q := (c - 65536) / 128) in *. set (D := n * 8192 + q) in *.
    destruct (uint16_of_divmod D HD) as (Hhi & Hlo & Hval).
    apply (after_command st (define n (q * 128 + 65536) st)
             (define n (q * 128 + 65536) st) c [SDX; D / 256; D mod 256]
             [128 + (c - 65536) mod 128]); [assumption| | |].
    + constructor; [unfold isByte; unfold_tags; lia|].
      constructor; [assumption|]. constructor; [assumption | constructor].
    + intros more k Hmore. exists (k + 3).
      apply (body_extended (decoderOf st ([SDX; D / 256; D mod 256] ++ more) k)
               _ (D / 256) (D mod 256) more); [reflexivity|].
      rewrite Hval. rewrite defineExtendedWindow_run;
        [|assumption | exact (wfs_length st Hst)].
      rewrite Hdiv, Hmod. reflexivity.
    + pose proof (data_byte_decodes (define n (q * 128 + 65536) st)
                    (128 + (c - 65536) mod 128) (q * 128 + 65536)
                    (wfState_define n _ st Hn Hok Hst) Hu) as Hd.
      rewrite Hlow in Hd |- *.
      destruct (Z.ltb_spec (128 + (c - (q * 128 + 65536))) 128); [lia|].
      replace (q * 128 + 65536 + (128 + (c - (q * 128 + 65536)) - 128))
        with c in Hd by lia.
      apply Hd; [unfold isByte; lia | apply high_byte_no_tag; lia |].
      apply index_define; [assumption | exact (wfs_length st Hst)].
  - destruct (windowIndex c) as [[x base]|] eqn:Hwi; [|discriminate].
    injection H as <- <-.
    destruct (windowIndex_spec c x base Hwi) as (_ & Hx & Hin & Hok & Hcase).
    apply (after_command st (define n base st) (define n base st) c
             [SD0 + n; x] [128 + (c - base)]); [assumption| | |].
    + constructor; [unfold isByte; unfold_tags; lia|].
      constructor; [assumption | constructor].
    + intros more k Hmore. exists (k + 2).
      apply (body_define (decoderOf st ([SD0 + n; x] ++ more) k) _ n x more);
        [assumption | reflexivity |].
      destruct Hcase as [[Hr ->] | [Hr ->]].
      * rewrite defineWindow_low; [reflexivity | assumption | | assumption].
        exact (wfs_length st Hst).
      * rewrite defineWindow_gap; [reflexivity | assumption | | assumption].
        exact (wfs_length st Hst).
    + pose proof (data_byte_decodes (define n base st) (128 + (c - base)) base
                    (wfState_define n _ st Hn Hok Hst) Hu) as Hd.
      destruct (Z.ltb_spec (128 + (c - base)) 128); [lia|].
      replace (base + (128 + (c - base) - 128)) with c in Hd by lia.
      apply Hd; [unfold isByte; lia | apply high_byte_no_tag; lia |].
      apply index_define; [assumption | exact (wfs_length st Hst)].
Qed.

Lemma rawQuote_decodes (st : WindowState) (c : rune) :
  wfState st -> unicode st = false -> 0 <= c < 65536 ->
  decodesSingle st c (fst (rawQuote st c)) (snd (rawQuote st c)).
Proof.
  intros Hst Hu Hc. cbn [rawQuote fst snd].
  destruct (uint16_of_divmod c Hc) as (Hhi & Hlo & Hval).
  split; [assumption|]. split; [assumption|]. split.
  { constructor; [unfold isByte; unfold_tags; lia|].
    constructor; [assumption|]. constructor; [assumption | constructor]. }
  intros more n Hmore. exists (n + 3).
  apply expandSingleByte_of_body.
  rewrite (body_rawquote (decoderOf st ([SQU; c / 256; c mod 256] ++ more) n)
             (c / 256) (c mod 256) more eq_refl).
  rewrite Hval. reflexivity.
Qed.

Lemma encodeSingle_decodes pickWindow preferQuote (st : WindowState) (c : rune)
    (rest : list rune) :
  wfState st -> unicode st = false -> validRune c = true ->
  decodesSingle st c (fst (encodeSingle pickWindow preferQuote st c rest))
                (snd (encodeSingle pickWindow preferQuote st c rest)).
Proof.
  intros Hst Hu Hv. destruct (validRune_range c Hv) as (Hc & _).
  unfold encodeSingle.
  destruct ((c <? 128) && negb (oneof c singleByteTags)) eqn:Hplain.
  { apply plain_decodes; [assumption | assumption | lia | assumption]. }
  destruct (viaActive st c) as [[bs st']|] eqn:H1.
  { apply viaActive_decodes; assumption. }
  destruct (viaStatic st c) as [[bs st']|] eqn:H2.
  { apply viaStatic_decodes; assumption. }
  destruct (viaDefined preferQuote st c rest) as [[bs st']|] eqn:H3.
  { apply (viaDefined_decodes preferQuote st c rest); assumption. }
  destruct (viaNewWindow pickWindow st c) as [[bs st']|] eqn:H4.
  { apply (viaNewWindow_decodes pickWindow); assumption. }
  apply rawQuote_decodes; [assumption | assumption |].
  unfold viaNewWindow in H4. cbv zeta in H4.
  destruct (Z.leb_spec 65536 c); [discriminate | lia].
Qed.

Lemma IsSurrogate_spec (r : rune) :
  utf16.IsSurrogate r = true <-> 0xD800 <= r < 0xE000.
Proof.
  unfold utf16.IsSurrogate, utf16.surr1, utf16.surr3.
  rewrite andb_true_iff, Z.leb_le, Z.ltb_lt. reflexivity.
Qed.

Lemma IsSurrogate_false (r : rune) :
  ~ (0xD800 <= r <= 0xDFFF) -> utf16.IsSurrogate r = false.
Proof.
  intros H. destruct (utf16.IsSurrogate r) eqn:Hs; [|reflexivity].
  apply IsSurrogate_spec in Hs. lia.
Qed.

(** A scalar value written in unicode mode is read back in unicode mode. *)
Lemma encodeUnit_decodes (st : WindowState) (c : rune) (more : list Z) (n : Z) :
  unicode st = true -> validRune c = true ->
  Forall isByte (encodeUnit c) /\
  exists n', expandUnicode (decoderOf st (encodeUnit c ++ more) n)
             = (Ok c, decoderOf st more n').
Proof.
  intros Hu Hv. destruct (validRune_range c Hv) as (Hc & Hns).
  unfold encodeUnit. destruct (Z.leb_spec 65536 c) as [Hsup | Hbmp].
  - cbv zeta.
    pose proof (Z.div_mod (c - 65536) 1024 ltac:(lia)) as Hdm.
    pose proof (Z.mod_pos_bound (c - 65536) 1024 ltac:(lia)) as Hm.
    assert (0 <= (c - 65536) / 1024 < 1024) as Hq by lia.
    set (h := 55296 + (c - 65536) / 1024) in *.
    set (l := 56320 + (c - 65536) mod 1024) in *.
    destruct (uint16_of_divmod h ltac:(lia)) as (Hh1 & Hh2 & Hhv).
    destruct (uint16_of_divmod l ltac:(lia)) as (Hl1 & Hl2 & Hlv).
    split.
    { repeat (constructor; [assumption|]). constructor. }
    exists (n + 4). cbn [app].
    rewrite (unicode_pair (decoderOf st _ n) (h / 256) (h mod 256) (l / 256)
               (l mod 256) more eq_refl).
    + rewrite Hhv, Hlv. rewrite DecodeRune_pair by lia.
      unfold consumed, decoderOf. cbn [window dynamicOffset bytesRead unicodeMode].
      do 2 f_equal. lia.
    + left. unfold UC0. apply Z.div_lt_upper_bound; lia.
    + rewrite Hhv. apply IsSurrogate_spec. lia.
    + rewrite Hlv. apply IsSurrogate_spec. lia.
  - destruct (uint16_of_divmod c ltac:(lia)) as (Hc1 & Hc2 & Hcv).
    destruct ((224 <=? c / 256) && (c / 256 <=? 242)) eqn:Htag.
    + split.
      { constructor; [unfold isByte; unfold_tags; lia|].
        repeat (constructor; [assumption|]). constructor. }
      exists (n + 3). cbn [app].
      rewrite (unicode_quote (decoderOf st _ n) (c / 256) (c mod 256) more eq_refl).
      rewrite Hcv. reflexivity.
    + split.
      { repeat (constructor; [assumption|]). constructor. }
      exists (n + 2). cbn [app].
      rewrite (unicode_unit (decoderOf st _ n) (c / 256) (c mod 256) more eq_refl).
      * rewrite Hcv. reflexivity.
      * unfold_tags. apply andb_false_iff in Htag as [H | H].
        -- apply Z.leb_gt in H. left. assumption.
        -- apply Z.leb_gt in H. right. lia.
      * rewrite Hcv. apply IsSurrogate_false. assumption.
Qed.

Lemma readRune_body_unicode (d : Decoder) :
  unicodeMode d = true -> readRune_body d = expandUnicode d.
Proof. intros H. unfold readRune_body. rewrite H. reflexivity. Qed.

Lemma readRune_body_single (d : Decoder) :
  unicodeMode d = false -> readRune_body d = expandSingleByte d.
Proof. intros H. unfold readRune_body. rewrite H. reflexivity. Qed.

Lemma readRune_emit (d d' : Decoder) (c : rune) :
  wf d -> readRune_body d = (Ok c, d') -> c <> -1 -> readRune d = (Ok c, d').
Proof.
  intros Hd Hb Hc. rewrite (readRune_unroll d Hd), Hb.
  destruct (Z.eqb_spec c (-1)); [contradiction | reflexivity].
Qed.

Lemma readRune_again (d d1 : Decoder) :
  wf d -> readRune_body d = (Ok (-1), d1) -> readRune d = readRune d1.
Proof. intros Hd Hb. rewrite (readRune_unroll d Hd), Hb. reflexivity. Qed.

Lemma encodeRune_decodes pickWindow preferQuote preferUnicode
    (st : WindowState) (c : rune) (rest : list rune) :
  wfState st -> validRune c = true ->
  exists bs st',
    encodeRune pickWindow preferQuote preferUnicode st c rest = Some (bs, st') /\
    decodesRune st c bs st'.
Proof.
  intros Hst Hv. destruct (validRune_range c Hv) as (Hc & _).
  unfold encodeRune. rewrite Hv. cbn [negb].
  destruct (unicode st) eqn:Hu; destruct (preferUnicode st c rest).
  - (* stay in unicode mode *)
    exists (encodeUnit c), st. split; [reflexivity|].
    split; [assumption|].
    split; [apply (encodeUnit_decodes st c [] 0 Hu Hv)|].
    intros more n Hmore.
    destruct (encodeUnit_decodes st c more n Hu Hv) as (Hbs & n' & Hrun).
    exists n'. apply readRune_emit; [| |lia].
    + apply wf_decoderOf; [assumption | apply Forall_app; split; assumption].
    + rewrite readRune_body_unicode by exact Hu. assumption.
  - (* leave unicode mode with UCn, then single-byte mode *)
    pose proof (encodeSingle_decodes pickWindow preferQuote (setMode false st)
                  c rest (wfState_setMode false st Hst) eq_refl Hv) as Hs.
    destruct (encodeSingle pickWindow preferQuote (setMode false st) c rest)
      as [bs st'] eqn:He.
    cbn [fst snd] in Hs. destruct Hs as (Hst' & Hu' & Hbs & Hrun).
    pose proof (wfs_window st Hst) as Hw.
    assert (isByte (UC0 + activeWindow st)) as Htag
      by (unfold isByte; unfold_tags; lia).
    exists ((UC0 + activeWindow st) :: bs), st'. split; [reflexivity|].
    split; [assumption|]. split; [constructor; assumption|].
    intros more n Hmore.
    destruct (Hrun more (n + 1) Hmore) as (n' & Hexp).
    exists n'.
    assert (Forall isByte (bs ++ more)) as Hrest
      by (apply Forall_app; split; assumption).
    rewrite (readRune_again (decoderOf st (((UC0 + activeWindow st) :: bs) ++ more) n)
               (decoderOf (setMode false st) (bs ++ more) (n + 1))).
    + apply readRune_emit; [| |lia].
      * apply wf_decoderOf; [apply wfState_setMode; assumption | assumption].
      * rewrite readRune_body_single by reflexivity. exact Hexp.
    + apply wf_decoderOf; [assumption|]. constructor; assumption.
    + rewrite readRune_body_unicode by exact Hu.
      rewrite (unicode_select
                 (decoderOf st (((UC0 + activeWindow st) :: bs) ++ more) n)
                 (activeWindow st) (bs ++ more) Hw eq_refl).
      reflexivity.
  - (* enter unicode mode with SCU *)
    exists (SCU :: encodeUnit c), (setMode true st). split; [reflexivity|].
    destruct (encodeUnit_decodes (setMode true st) c [] 0 eq_refl Hv) as (Hbs & _).
    split; [apply wfState_setMode; assumption|].
    split; [constructor; [unfold isByte; unfold_tags; lia | assumption]|].
    intros more n Hmore.
    destruct (encodeUnit_decodes (setMode true st) c more (n + 1) eq_refl Hv)
      as (_ & n' & Hrun).
    exists n'.
    assert (Forall isByte (encodeUnit c ++ more)) as Hrest
      by (apply Forall_app; split; assumption).
    rewrite (readRune_again (decoderOf st ((SCU :: encodeUnit c) ++ more) n)
               (decoderOf (setMode true st) (encodeUnit c ++ more) (n + 1))).
    + apply readRune_emit; [| |lia].
      * apply wf_decoderOf; [apply wfState_setMode; assumption | assumption].
      * rewrite readRune_body_unicode by reflexivity. exact Hrun.
    + apply wf_decoderOf; [assumption|].
      constructor; [unfold isByte; unfold_tags; lia | assumption].
    + rewrite readRune_body_single by exact Hu.
      apply expandSingleByte_of_body.
      rewrite (body_tounicode
                 (decoderOf st ((SCU :: encodeUnit c) ++ more) n)
                 (encodeUnit c ++ more) eq_refl).
      reflexivity.
  - (* single-byte mode *)
    pose proof (encodeSingle_decodes pickWindow preferQuote st c rest Hst Hu Hv)
      as Hs.
    destruct (encodeSingle pickWindow preferQuote st c rest) as [bs st'] eqn:He.
    cbn [fst snd] in Hs. destruct Hs as (Hst' & Hu' & Hbs & Hrun).
    exists bs, st'. split; [reflexivity|].
    split; [assumption|]. split; [assumption|].
    intros more n Hmore.
    destruct (Hrun more n Hmore) as (n' & Hexp).
    exists n'. apply readRune_emit; [| |lia].
    + apply wf_decoderOf; [assumption | apply Forall_app; split; assumption].
    + rewrite readRune_body_single by exact Hu. exact Hexp.
Qed.

Lemma WriteRune_valid (sb : gostring) (c : rune) :
  validRune c = true -> WriteRune sb c = sb ++ [c].
Proof. intros Hv. unfold WriteRune. rewrite Hv. reflexivity. Qed.

Lemma encodeAll_decodes pickWindow preferQuote preferUnicode (s : list rune) :
  forall (st : WindowState) (n : Z) (sb : gostring),
  wfState st -> forallb validRune s = true ->
  exists out d',
    encodeAll pickWindow preferQuote preferUnicode st s = Some out /\
    Forall isByte out /\
    ReadString_from sb (decoderOf st out n) = (Ok (sb ++ s), d').
Proof.
  induction s as [|c rest IH]; intros st n sb Hst Hs.
  - exists [], (decoderOf st [] n). split; [reflexivity|].
    split; [constructor|].
    rewrite ReadString_from_unroll by (apply wf_decoderOf; [assumption | constructor]).
    rewrite readRune_nil by reflexivity. rewrite app_nil_r. reflexivity.
  - cbn [forallb] in Hs. apply andb_true_iff in Hs as [Hv Hrest].
    destruct (encodeRune_decodes pickWindow preferQuote preferUnicode st c rest
                Hst Hv) as (bs & st' & Henc & Hst' & Hbs & Hrun).
    destruct (Hrun [] 0 ltac:(constructor)) as (_ & _).
    cbn [encodeAll]. rewrite Henc.
    assert (forall n1, exists out d',
              encodeAll pickWindow preferQuote preferUnicode st' rest = Some out /\
              Forall isByte out /\
              ReadString_from (sb ++ [c]) (decoderOf st' out n1)
                = (Ok ((sb ++ [c]) ++ rest), d')) as IH'.
    { intros n1. apply IH; assumption. }
    destruct (IH' 0) as (out & _ & Hout & Hob & _).
    rewrite Hout.
    destruct (Hrun out n Hob) as (n' & Hread).
    destruct (IH' n') as (out2 & d' & Hout2 & _ & Hfin).
    rewrite Hout in Hout2. injection Hout2 as <-.
    exists (bs ++ out), d'. split; [reflexivity|].
    split; [apply Forall_app; split; assumption|].
    rewrite ReadString_from_unroll
      by (apply wf_decoderOf; [assumption | apply Forall_app; split; assumption]).
    rewrite Hread. rewrite WriteRune_valid by assumption.
    rewrite Hfin. rewrite <- app_assoc. reflexivity.
Qed.
(** ** The decoder as an interpreter of commands *)

Lemma keepsMode_ret {A} (a : A) : keepsMode (ret a).
Proof. intros d. reflexivity. Qed.

Lemma keepsMode_fail {A} (e : error) : keepsMode (@fail A e).
Proof. intros d. reflexivity. Qed.

Lemma keepsMode_bind {A B} (m : M A) (k : A -> M B) :
  keepsMode m -> (forall a, keepsMode (k a)) -> keepsMode (bind m k).
Proof.
  intros Hm Hk d. unfold bind. specialize (Hm d).
  destruct (m d) as [[a|e| |] d1]; simpl in *; try assumption.
  rewrite (Hk a d1). assumption.
Qed.

Lemma keepsMode_mapErr {A} f (m : M A) : keepsMode m -> keepsMode (mapErr f m).
Proof.
  intros Hm d. unfold mapErr. specialize (Hm d).
  destruct (m d) as [[a|e| |] d1]; assumption.
Qed.

Lemma keepsMode_readByte : keepsMode readByte.
Proof. intros d. unfold readByte. destruct (brd d); reflexivity. Qed.

Lemma keepsMode_readUint16 : keepsMode readUint16.
Proof.
  unfold readUint16.
  apply keepsMode_bind; [apply keepsMode_mapErr, keepsMode_readByte|]. intros b1.
  apply keepsMode_bind; [apply keepsMode_mapErr, keepsMode_readByte|]. intros b2.
  apply keepsMode_ret.
Qed.

Lemma keepsMode_setWindow (w : Z) : keepsMode (setWindow w).
Proof. intros d. reflexivity. Qed.

Lemma keepsMode_getWindow : keepsMode getWindow.
Proof. intros d. reflexivity. Qed.

Lemma keepsMode_readTable (a : list Z) (i : Z) : keepsMode (readTable a i).
Proof. intros d. unfold readTable. destruct (index a i); reflexivity. Qed.

Lemma keepsMode_getDynamicOffset (i : Z) : keepsMode (getDynamicOffset i).
Proof.
  intros d. unfold getDynamicOffset.
  destruct (index (dynamicOffset d) i); reflexivity.
Qed.

Lemma keepsMode_setDynamicOffset (i v : Z) : keepsMode (setDynamicOffset i v).
Proof.
  intros d. unfold setDynamicOffset.
  destruct (index (dynamicOffset d) i); reflexivity.
Qed.

Lemma keepsMode_defineWindow (i b : Z) : keepsMode (defineWindow i b).
Proof.
  unfold defineWindow. destruct (b =? 0); [apply keepsMode_fail|].
  apply keepsMode_bind; [|intros; apply keepsMode_setWindow].
  destruct (b <? gapThreshold); [apply keepsMode_setDynamicOffset|].
  destruct (b <? reservedStart); [apply keepsMode_setDynamicOffset|].
  destruct (b <? fixedThreshold); [apply keepsMode_fail|].
  apply keepsMode_bind; [apply keepsMode_readTable|].
  intros v. apply keepsMode_setDynamicOffset.
Qed.

Lemma keepsMode_defineExtendedWindow (c : Z) : keepsMode (defineExtendedWindow c).
Proof.
  unfold defineExtendedWindow. cbv zeta.
  apply keepsMode_bind; [apply keepsMode_setDynamicOffset|].
  intros; apply keepsMode_setWindow.
Qed.

Lemma roundKeepsMode_of_keeps (m : M (option rune)) : keepsMode m -> roundKeepsMode m.
Proof. intros Hm d d' H. specialize (Hm d). rewrite H in Hm. exact Hm. Qed.

Lemma roundKeepsMode_bind {A} (m : M A) (k : A -> M (option rune)) :
  keepsMode m -> (forall a, roundKeepsMode (k a)) -> roundKeepsMode (bind m k).
Proof.
  intros Hm Hk d d' H. unfold bind in H. specialize (Hm d).
  destruct (m d) as [[a|e| |] d1]; try discriminate.
  simpl in Hm. rewrite <- Hm. exact (Hk a d1 d' H).
Qed.

Lemma roundKeepsMode_Some {A} (m : M A) (f : A -> rune) :
  roundKeepsMode (let* a := m in ret (Some (f a))).
Proof.
  intros d d' H. unfold bind in H.
  destruct (m d) as [[a|e| |] d1]; discriminate.
Qed.

(** The passes of [expandSingleByte] that come round (SDX, SDn, SCn) stay in
    single-byte mode. *)
Lemma roundKeepsMode_expandSingleByte_body : roundKeepsMode expandSingleByte_body.
Proof.
  unfold expandSingleByte_body.
  apply roundKeepsMode_bind; [apply keepsMode_readByte|]. intros b. cbv zeta.
  apply roundKeepsMode_bind; [apply keepsMode_getWindow|]. intros w.
  destruct (oneof b _).
  { apply roundKeepsMode_bind; [apply keepsMode_mapErr, keepsMode_readByte|].
    intros b1. apply (roundKeepsMode_Some _ (fun r => r)). }
  destruct (b =? SDX).
  { apply roundKeepsMode_of_keeps.
    apply keepsMode_bind; [apply keepsMode_mapErr, keepsMode_readUint16|]. intros c.
    apply keepsMode_bind; [apply keepsMode_defineExtendedWindow|].
    intros; apply keepsMode_ret. }
  destruct (oneof b _).
  { apply roundKeepsMode_of_keeps.
    apply keepsMode_bind; [apply keepsMode_mapErr, keepsMode_readByte|]. intros b1.
    apply keepsMode_bind; [apply keepsMode_defineWindow|].
    intros; apply keepsMode_ret. }
  destruct (oneof b _).
  { apply roundKeepsMode_of_keeps.
    apply keepsMode_bind; [apply keepsMode_setWindow | intros; apply keepsMode_ret]. }
  destruct (b =? SCU).
  { apply (roundKeepsMode_Some _ (fun _ => -1)). }
  destruct (b =? SQU).
  { apply (roundKeepsMode_Some _ (fun ch => ch)). }
  destruct (b =? Srs); [intros d d' H; discriminate|].
  apply (roundKeepsMode_Some _ (fun r => r)).
Qed.

Lemma command_single (d : Decoder) :
  unicodeMode d = false -> command d = expandSingleByte_body d.
Proof. intros H. unfold command. rewrite H. reflexivity. Qed.

Lemma command_unicode (d : Decoder) :
  unicodeMode d = true ->
  command d =
    match expandUnicode d with
    | (Ok r, d') => (Ok (Some r), d')
    | (Err e, d') => (Err e, d')
    | (Panic, d') => (Panic, d')
    | (OutOfFuel, d') => (OutOfFuel, d')
    end.
Proof.
  intros H. unfold command. rewrite H. unfold bind.
  destruct (expandUnicode d) as [[r|e| |] d1]; reflexivity.
Qed.

Lemma command_round (d d1 : Decoder) :
  command d = (Ok None, d1) ->
  unicodeMode d = false /\ unicodeMode d1 = false /\
  expandSingleByte_body d = (Ok None, d1).
Proof.
  intros H. destruct (unicodeMode d) eqn:Hu.
  - rewrite (command_unicode d Hu) in H.
    destruct (expandUnicode d) as [[r|e| |] d']; discriminate.
  - rewrite (command_single d Hu) in H.
    pose proof (roundKeepsMode_expandSingleByte_body d d1 H) as Hm.
    rewrite Hu in Hm. auto.
Qed.

Lemma sound_command : sound command expanded_opt.
Proof.
  intros d Hd. destruct (unicodeMode d) eqn:Hu.
  - rewrite (command_unicode d Hu).
    pose proof (sound_expandUnicode d Hd) as H.
    destruct (expandUnicode d) as [[r|e| |] d1]; exact H.
  - rewrite (command_single d Hu). exact (sound_expandSingleByte_body d Hd).
Qed.

Lemma advancing_command : advancing command.
Proof.
  intros d Hd o d' H. destruct (unicodeMode d) eqn:Hu.
  - rewrite (command_unicode d Hu) in H.
    destruct (expandUnicode d) as [[r|e| |] d1] eqn:He; try discriminate.
    injection H as _ <-. exact (advancing_expandUnicode d Hd r d1 He).
  - rewrite (command_single d Hu) in H.
    exact (advancing_expandSingleByte_body d Hd o d' H).
Qed.

Lemma command_wf (d d1 : Decoder) (o : option rune) :
  wf d -> command d = (Ok o, d1) -> wf d1.
Proof.
  intros Hd H. pose proof (sound_command d Hd) as Hs. rewrite H in Hs. apply Hs.
Qed.

Lemma command_nil (d : Decoder) : brd d = [] -> command d = (Err EOF, d).
Proof.
  intros Hnil. unfold command. destruct (unicodeMode d).
  - unfold bind, expandUnicode, bind, readByte. rewrite Hnil. reflexivity.
  - unfold expandSingleByte_body, bind, readByte. rewrite Hnil. reflexivity.
Qed.

(** [readRune] takes commands until one hands out a rune or fails. *)
Lemma readRune_command (d : Decoder) :
  wf d ->
  readRune d =
    match command d with
    | (Ok o, d1) =>
        match emitted o with
        | [] => readRune d1
        | r :: _ => (Ok r, d1)
        end
    | (Err e, d1) => (Err e, d1)
    | (Panic, d1) => (Panic, d1)
    | (OutOfFuel, d1) => (OutOfFuel, d1)
    end.
Proof.
  intros Hd. destruct (unicodeMode d) eqn:Hu.
  - rewrite (readRune_unroll d Hd), (readRune_body_unicode d Hu).
    rewrite (command_unicode d Hu).
    destruct (expandUnicode d) as [[r|e| |] d1]; try reflexivity.
    simpl. destruct (r =? -1); reflexivity.
  - destruct (command d) as [[[r|]|e| |] d1] eqn:Hc.
    + rewrite (command_single d Hu) in Hc.
      rewrite (readRune_unroll d Hd), (readRune_body_single d Hu).
      rewrite (expandSingleByte_unroll d Hd), Hc.
      simpl. destruct (r =? -1); reflexivity.
    + destruct (command_round d d1 Hc) as (_ & Hu1 & Hb).
      pose proof (command_wf d d1 None Hd Hc) as Hd1. simpl.
      rewrite (readRune_unroll d Hd), (readRune_unroll d1 Hd1).
      rewrite (readRune_body_single d Hu), (readRune_body_single d1 Hu1).
      rewrite (expandSingleByte_next d d1 Hd Hb). reflexivity.
    + rewrite (command_single d Hu) in Hc.
      rewrite (readRune_unroll d Hd), (readRune_body_single d Hu).
      rewrite (expandSingleByte_unroll d Hd), Hc. reflexivity.
    + rewrite (command_single d Hu) in Hc.
      rewrite (readRune_unroll d Hd), (readRune_body_single d Hu).
      rewrite (expandSingleByte_unroll d Hd), Hc. reflexivity.
    + rewrite (command_single d Hu) in Hc.
      rewrite (readRune_unroll d Hd), (readRune_body_single d Hu).
      rewrite (expandSingleByte_unroll d Hd), Hc. reflexivity.
Qed.

(** So does [ReadString], writing each rune handed out, until the end of the
    input or an error. *)
Lemma ReadString_from_command (sb : gostring) (d : Decoder) :
  wf d ->
  ReadString_from sb d =
    match command d with
    | (Ok o, d1) => ReadString_from (written sb (emitted o)) d1
    | (Err e, d1) => if isEOF e then (Ok sb, d1) else (Err e, d1)
    | (Panic, d1) => (Panic, d1)
    | (OutOfFuel, d1) => (OutOfFuel, d1)
    end.
Proof.
  intros Hd. rewrite (ReadString_from_unroll sb d Hd), (readRune_command d Hd).
  destruct (command d) as [[o|e| |] d1] eqn:Hc; try reflexivity.
  pose proof (command_wf d d1 o Hd Hc) as Hd1.
  destruct o as [r|]; simpl.
  - destruct (r =? -1); simpl; [|reflexivity].
    rewrite (ReadString_from_unroll sb d1 Hd1). reflexivity.
  - rewrite (ReadString_from_unroll sb d1 Hd1). reflexivity.
Qed.

Lemma run_wf (n : nat) (d d1 : Decoder) (rs : list rune) :
  wf d -> run n d = Some (rs, d1) -> wf d1.
Proof.
  revert d rs. induction n as [|n IH]; intros d rs Hd H; simpl in H.
  - injection H as _ <-. assumption.
  - destruct (command d) as [[o|e| |] d2] eqn:Hc; try discriminate.
    destruct (run n d2) as [[rs2 d3]|] eqn:Hr; try discriminate.
    injection H as _ <-.
    exact (IH d2 rs2 (command_wf d d2 o Hd Hc) Hr).
Qed.

Lemma written_app (sb : gostring) (rs1 rs2 : list rune) :
  written sb (rs1 ++ rs2) = written (written sb rs1) rs2.
Proof. unfold written. apply fold_left_app. Qed.

Lemma run_ReadString_from (n : nat) (d d1 : Decoder) (rs : list rune) (sb : gostring) :
  wf d -> run n d = Some (rs, d1) ->
  ReadString_from sb d = ReadString_from (written sb rs) d1.
Proof.
  revert d rs sb. induction n as [|n IH]; intros d rs sb Hd H; simpl in H.
  - injection H as <- <-. reflexivity.
  - destruct (command d) as [[o|e| |] d2] eqn:Hc; try discriminate.
    destruct (run n d2) as [[rs2 d3]|] eqn:Hr; try discriminate.
    injection H as <- <-.
    rewrite (ReadString_from_command sb d Hd), Hc.
    rewrite (IH d2 rs2 _ (command_wf d d2 o Hd Hc) Hr).
    rewrite written_app. reflexivity.
Qed.

Lemma run_readRune (n : nat) (d d1 : Decoder) :
  wf d -> run n d = Some ([], d1) -> readRune d = readRune d1.
Proof.
  revert d. induction n as [|n IH]; intros d Hd H; simpl in H.
  - injection H as <-. reflexivity.
  - destruct (command d) as [[o|e| |] d2] eqn:Hc; try discriminate.
    destruct (run n d2) as [[rs2 d3]|] eqn:Hr; try discriminate.
    injection H as Hnil <-.
    apply app_eq_nil in Hnil as [Ho ->].
    rewrite (readRune_command d Hd), Hc, Ho.
    exact (IH d2 (command_wf d d2 o Hd Hc) Hr).
Qed.

Lemma ReadString_from_nil (sb : gostring) (d : Decoder) :
  brd d = [] -> ReadString_from sb d = (Ok sb, d).
Proof.
  intros Hnil. unfold ReadString_from. rewrite Hnil. simpl.
  rewrite (readRune_nil d Hnil). reflexivity.
Qed.

Lemma readRunes_ReadString_from (k : nat) (d d1 : Decoder) (rs : list rune)
    (sb : gostring) :
  wf d -> readRunes k d = Some (rs, d1) ->
  wf d1 /\ ReadString_from sb d = ReadString_from (written sb rs) d1.
Proof.
  revert d rs sb. induction k as [|k IH]; intros d rs sb Hd H; simpl in H.
  - injection H as <- <-. split; [assumption | reflexivity].
  - destruct (readRune d) as [[r|e| |] d2] eqn:Hr; try discriminate.
    destruct (readRunes k d2) as [[rs2 d3]|] eqn:Hk; try discriminate.
    injection H as <- <-.
    assert (wf d2) as Hd2.
    { pose proof (sound_readRune d Hd) as Hs. rewrite Hr in Hs. apply Hs. }
    destruct (IH d2 rs2 (WriteRune sb r) Hd2 Hk) as [Hd3 Heq].
    split; [assumption|].
    rewrite (ReadString_from_unroll sb d Hd), Hr. exact Heq.
Qed.
(** * The claims *)

(** ** Window definition *)

(** C5: defineExtendedWindow succeeds on every 16-bit descriptor D, and sets
    the dynamic window with index D >> 13 (an index below 8) to the base
    ((D & 0x1FFF) << 7) + 0x10000, selecting it. *)
Theorem defineExtendedWindow_total (d : Decoder) (D : Z) :
  0 <= D < 65536 -> length (dynamicOffset d) = 8%nat ->
  0 <= Z.shiftr D 13 < 8 /\
  defineExtendedWindow D d =
    (Ok tt, redefined d (Z.shiftr D 13) (Z.shiftl (Z.land D 0x1FFF) 7 + 0x10000)) /\
  index (dynamicOffset (snd (defineExtendedWindow D d))) (Z.shiftr D 13)
    = Some (Z.shiftl (Z.land D 0x1FFF) 7 + 0x10000).
Proof.
  intros HD Hlen. pose proof (shiftr13 D HD) as Hw.
  assert (defineExtendedWindow D d =
    (Ok tt, redefined d (Z.shiftr D 13) (Z.shiftl (Z.land D 0x1FFF) 7 + 0x10000)))
    as Hrun.
  { unfold defineExtendedWindow, bind, setDynamicOffset. cbv zeta.
    destruct (index_Some (dynamicOffset d) (Z.shiftr D 13)) as (v & Hv & _);
      [rewrite Hlen; lia|].
    rewrite Hv. unfold setWindow, redefined. simpl.
    rewrite extended_offset by assumption.
    change 0x1FFF with (Z.ones 13). rewrite Z.land_ones by lia.
    rewrite shiftl7. reflexivity. }
  split; [assumption|]. split; [assumption|].
  rewrite Hrun. unfold redefined, index. simpl.
  destruct (Z.leb_spec 0 (Z.shiftr D 13)); [|lia].
  apply list_lookup_insert_eq. lia.
Qed.

Lemma defineExtendedWindow_total_witness :
  defineExtendedWindow 0xFFFF (NewDecoder []) =
    (Ok tt, mkDecoder 7 [0x0080; 0x00C0; 0x0400; 0x0600; 0x0900; 0x3040; 0x30A0; 0x10FF80]
              [] 0 false).
Proof.
  destruct (defineExtendedWindow_total (NewDecoder []) 0xFFFF) as (_ & H & _).
  - lia.
  - reflexivity.
  - exact H.
Defined.

(** C3, as stated, fails at the offset byte 0x00: [defineWindow] rejects it
    with [ErrIllegalInput], the error of the reserved tag, and not with an
    error of the invalid-window-offset kind. *)
Lemma defineWindow_zero_is_illegal_input :
  fst (defineWindow 0 0x00 (NewDecoder [])) = Err ErrIllegalInput /\
  ~ (exists e, fst (defineWindow 0 0x00 (NewDecoder [])) = Err e /\
               kind e = InvalidWindowOffset).
Proof.
  split; [reflexivity|].
  intros (e & He & Hk). simpl in He. inversion He; subst. discriminate Hk.
Qed.

(** C3 (amended): defineWindow(index, b) fails exactly when the offset byte b
    is 0x00, with ErrIllegalInput, or lies in [reservedStart, fixedThreshold),
    with the error that reports the offset; for every other offset byte it
    succeeds, selects the window and sets its base to b << 7 when
    b < gapThreshold, to (b << 7) + gapOffset when
    gapThreshold <= b < reservedStart, and to fixedOffset[b - fixedThreshold]
    when b >= fixedThreshold.  A failure leaves the decoder as it was. *)
Theorem defineWindow_cases (d : Decoder) (iWindow b : Z) :
  isByte b -> 0 <= iWindow < 8 -> length (dynamicOffset d) = 8%nat ->
  (b = 0 -> defineWindow iWindow b d = (Err ErrIllegalInput, d)) /\
  (0 < b < gapThreshold ->
     defineWindow iWindow b d = (Ok tt, redefined d iWindow (Z.shiftl b 7))) /\
  (gapThreshold <= b < reservedStart ->
     defineWindow iWindow b d =
       (Ok tt, redefined d iWindow (Z.shiftl b 7 + gapOffset))) /\
  (reservedStart <= b < fixedThreshold ->
     defineWindow iWindow b d = (Err (ErrOffset b), d) /\
     kind (ErrOffset b) = InvalidWindowOffset) /\
  (fixedThreshold <= b ->
     exists v, index fixedOffset (b - fixedThreshold) = Some v /\
       defineWindow iWindow b d = (Ok tt, redefined d iWindow v)).
Proof.
  unfold isByte, gapThreshold, reservedStart, fixedThreshold, gapOffset.
  intros Hb Hi Hlen.
  destruct (index_Some (dynamicOffset d) iWindow) as (v0 & Hv0 & _);
    [rewrite Hlen; lia|].
  unfold defineWindow, gapThreshold, reservedStart, fixedThreshold, gapOffset.
  split; [|split; [|split; [|split]]].
  - intros ->. reflexivity.
  - intros H. destruct (Z.eqb_spec b 0); [lia|].
    destruct (Z.ltb_spec b 104); [|lia].
    unfold bind, setDynamicOffset. rewrite Hv0. simpl.
    rewrite shiftl7, int32_small by lia. rewrite <- shiftl7. reflexivity.
  - intros H. destruct (Z.eqb_spec b 0); [lia|].
    destruct (Z.ltb_spec b 104); [lia|]. destruct (Z.ltb_spec b 168); [|lia].
    unfold bind, setDynamicOffset. rewrite Hv0. simpl.
    rewrite shiftl7, (int32_small (b * 128)), int32_small by lia.
    rewrite <- shiftl7. reflexivity.
  - intros H. destruct (Z.eqb_spec b 0); [lia|].
    destruct (Z.ltb_spec b 104); [lia|]. destruct (Z.ltb_spec b 168); [lia|].
    destruct (Z.ltb_spec b 249); [|lia]. split; reflexivity.
  - intros H. destruct (Z.eqb_spec b 0); [lia|].
    destruct (Z.ltb_spec b 104); [lia|]. destruct (Z.ltb_spec b 168); [lia|].
    destruct (Z.ltb_spec b 249); [lia|].
    destruct (index_Some fixedOffset (b - 249)) as (v & Hv & _); [simpl; lia|].
    exists v. split; [assumption|].
    unfold bind, readTable, setDynamicOffset.
    rewrite byte_small by lia. rewrite Hv, Hv0. reflexivity.
Qed.

Lemma defineWindow_cases_witness :
  defineWindow 2 0x00 (NewDecoder []) = (Err ErrIllegalInput, NewDecoder []) /\
  defineWindow 2 0xA8 (NewDecoder []) = (Err (ErrOffset 0xA8), NewDecoder []) /\
  defineWindow 2 0x68 (NewDecoder []) =
    (Ok tt, redefined (NewDecoder []) 2 (Z.shiftl 0x68 7 + gapOffset)).
Proof.
  split; [|split].
  - destruct (defineWindow_cases (NewDecoder []) 2 0x00) as (H & _);
      [unfold isByte; lia | lia | reflexivity |].
    apply H. reflexivity.
  - destruct (defineWindow_cases (NewDecoder []) 2 0xA8) as (_ & _ & _ & H & _);
      [unfold isByte; lia | lia | reflexivity |].
    apply H. unfold reservedStart, fixedThreshold. lia.
  - destruct (defineWindow_cases (NewDecoder []) 2 0x68) as (_ & _ & H & _);
      [unfold isByte; lia | lia | reflexivity |].
    apply H. unfold gapThreshold, reservedStart. lia.
Defined.

(** ** The active window *)

(** C7: on a well-formed decoder every operation leaves one active window
    index in [0, 8); a successful defineWindow or defineExtendedWindow makes
    the window it redefined the active one; and across either definition and
    across any one command of either mode, a window whose base has changed is
    the active window afterwards: nothing redefines without activating. *)
Theorem active_window_coupled (d : Decoder) (iWindow b D : Z) :
  wf d ->
  (0 <= window (snd (expandSingleByte_body d)) < 8 /\
   0 <= window (snd (expandUnicode d)) < 8 /\
   0 <= window (snd (readRune d)) < 8 /\
   0 <= window (snd (ReadString d)) < 8) /\
  (forall d', defineWindow iWindow b d = (Ok tt, d') ->
     window d' = iWindow /\ exists v, d' = redefined d iWindow v) /\
  (forall d', defineExtendedWindow D d = (Ok tt, d') ->
     window d' = Z.shiftr D 13 /\ exists v, d' = redefined d (Z.shiftr D 13) v) /\
  coupled_step d (snd (defineWindow iWindow b d)) /\
  coupled_step d (snd (defineExtendedWindow D d)) /\
  coupled_step d (snd (expandSingleByte_body d)) /\
  coupled_step d (snd (expandUnicode d)).
Proof.
  intros Hd.
  split; [|split; [|split; [|split; [|split; [|split]]]]].
  - pose proof (sound_expandSingleByte_body d Hd) as H1.
    pose proof (sound_expandUnicode d Hd) as H2.
    pose proof (sound_readRune d Hd) as H3.
    pose proof (sound_ReadString d Hd) as H4.
    destruct (expandSingleByte_body d) as [o1 d1], (expandUnicode d) as [o2 d2],
      (readRune d) as [o3 d3], (ReadString d) as [o4 d4]. simpl.
    destruct H1 as [H1 _], H2 as [H2 _], H3 as [H3 _], H4 as [H4 _].
    repeat split; apply wf_window; assumption.
  - intros d' Hrun.
    destruct (defineWindow_effect iWindow b d) as [(o & H & Ho) | (v & Hi & H)];
      rewrite Hrun in H; inversion H; subst.
    + contradiction.
    + split; [reflexivity | eauto].
  - intros d' Hrun.
    destruct (defineExtendedWindow_effect D d) as [H | (v & Hi & H)];
      rewrite Hrun in H; inversion H; subst.
    split; [reflexivity | eauto].
  - apply coupled_defineWindow.
  - apply coupled_defineExtendedWindow.
  - apply coupled_expandSingleByte_body.
  - apply coupled_expandUnicode.
Qed.

Lemma active_window_coupled_witness :
  0 <= window (snd (readRune (NewDecoder [0x19; 0x02; 0xC1]))) < 8 /\
  coupled_step (NewDecoder [0x19; 0x02; 0xC1])
               (snd (expandSingleByte_body (NewDecoder [0x19; 0x02; 0xC1]))).
Proof.
  assert (wf (NewDecoder [0x19; 0x02; 0xC1])) as Hwf.
  { apply wf_NewDecoder. repeat constructor; unfold isByte; lia. }
  destruct (active_window_coupled (NewDecoder [0x19; 0x02; 0xC1]) 1 0x02 0xFFFF Hwf)
    as ((_ & _ & H1 & _) & _ & _ & _ & _ & H2 & _).
  split; assumption.
Defined.


(** ** Totality *)

(** C10: every window index the decoder computes from a byte b or from a
    16-bit descriptor D lies in [0, 8), and on every input of bytes Decode,
    ReadRune and ReadString return a value or an error: no index is out of
    range, no loop runs on for ever, and the decoder stays well-formed. *)
Theorem decoder_never_panics (input : list Z) (d : Decoder) (b D : Z) :
  Forall isByte input -> wf d -> 0 <= D < 65536 ->
  ((oneof b [SQ0; SQ1; SQ2; SQ3; SQ4; SQ5; SQ6; SQ7] = true -> 0 <= b - SQ0 < 8) /\
   (oneof b [SD0; SD1; SD2; SD3; SD4; SD5; SD6; SD7] = true -> 0 <= b - SD0 < 8) /\
   (oneof b [SC0; SC1; SC2; SC3; SC4; SC5; SC6; SC7] = true -> 0 <= b - SC0 < 8) /\
   ((UC0 <=? b) && (b <=? UC7) = true -> 0 <= b - UC0 < 8) /\
   ((UD0 <=? b) && (b <=? UD7) = true -> 0 <= b - UD0 < 8) /\
   0 <= Z.shiftr D 13 < 8) /\
  ((exists s, Decode input = Ok s) \/ (exists e, Decode input = Err e)) /\
  ~ failed (fst (ReadRune d)) /\ wf (snd (ReadRune d)) /\
  ~ failed (fst (ReadString d)) /\ wf (snd (ReadString d)).
Proof.
  intros Hin Hd HD. split; [|split; [|split; [|split; [|split]]]].
  - split; [|split; [|split; [|split; [|split]]]].
    + intros H. tag_cases H; unfold_tags; lia.
    + intros H. tag_cases H; unfold_tags; lia.
    + intros H. tag_cases H; unfold_tags; lia.
    + intros H. apply andb_true_iff in H as [H1 H2].
      apply Z.leb_le in H1, H2. unfold UC0, UC7 in *. lia.
    + intros H. apply andb_true_iff in H as [H1 H2].
      apply Z.leb_le in H1, H2. unfold UD0, UD7 in *. lia.
    + apply shiftr13. assumption.
  - pose proof (sound_ReadString (NewDecoder input) (wf_NewDecoder input Hin)) as H.
    unfold Decode. destruct (ReadString (NewDecoder input)) as [[s|e| |] d1];
      simpl; destruct H as (_ & _ & H); try contradiction; eauto.
  - pose proof (sound_readRune d Hd) as H. unfold ReadRune.
    destruct (readRune d) as [[r|e| |] d1]; simpl;
      destruct H as (_ & _ & H); try contradiction; auto.
  - pose proof (sound_readRune d Hd) as H. unfold ReadRune.
    destruct (readRune d) as [[r|e| |] d1]; simpl;
      destruct H as (H & _); assumption.
  - pose proof (sound_ReadString d Hd) as H.
    destruct (ReadString d) as [[s|e| |] d1]; simpl;
      destruct H as (_ & _ & H); try contradiction; auto.
  - pose proof (sound_ReadString d Hd) as H.
    destruct (ReadString d) as [o d1]; simpl; destruct H as (H & _); assumption.
Qed.

Lemma decoder_never_panics_witness :
  (exists s, Decode [0x1F; 0xFF; 0x0B; 0xFF; 0xFF; 0x17; 0x08; 0x7F] = Ok s) \/
  (exists e, Decode [0x1F; 0xFF; 0x0B; 0xFF; 0xFF; 0x17; 0x08; 0x7F] = Err e).
Proof.
  assert (Forall isByte [0x1F; 0xFF; 0x0B; 0xFF; 0xFF; 0x17; 0x08; 0x7F]) as Hin.
  { repeat constructor; unfold isByte; lia. }
  destruct (decoder_never_panics
              [0x1F; 0xFF; 0x0B; 0xFF; 0xFF; 0x17; 0x08; 0x7F]
              (NewDecoder []) 0x08 0xFFFF Hin)
    as (_ & H & _).
  - apply wf_NewDecoder. constructor.
  - lia.
  - exact H.
Defined.

(** ** End of input *)

(** C9: decoding the empty byte stream yields the empty string and no error,
    and so does ReadString on an exhausted reader.  In general the end of
    the input, met where a command would start, is success: when readRune
    reports io.EOF, ReadString returns what it has built so far; after any
    number of runes returned by readRune, and after any number of whole
    commands that use up the input, ReadString and Decode return the string
    of the runes handed out, with no error.  Neither ever reports io.EOF as
    an error. *)
Theorem clean_end_is_success :
  Decode [] = Ok [] /\
  (forall d, brd d = [] -> ReadString d = (Ok [], d)) /\
  (forall d r d', readRune d = (Ok r, d') -> brd d' = [] ->
     ReadString d = (Ok (WriteRune [] r), d')) /\
  (forall d, fst (ReadString d) <> Err EOF) /\
  (forall input, Decode input <> Err EOF) /\
  (forall fuel sb d d', readRune d = (Err EOF, d') ->
     ReadString_loop (S fuel) sb d = (Ok sb, d')) /\
  (forall k sb d rs d1 d2, wf d -> readRunes k d = Some (rs, d1) ->
     readRune d1 = (Err EOF, d2) ->
     ReadString_from sb d = (Ok (written sb rs), d2) /\
     ReadString d = (Ok (written [] rs), d2) /\
     (forall input, d = NewDecoder input -> Decode input = Ok (written [] rs))) /\
  (forall n sb d rs d1, wf d -> run n d = Some (rs, d1) -> brd d1 = [] ->
     ReadString_from sb d = (Ok (written sb rs), d1) /\
     ReadString d = (Ok (written [] rs), d1) /\
     (forall input, d = NewDecoder input -> Decode input = Ok (written [] rs))).
Proof.
  split; [reflexivity|]. split; [|split; [|split; [|split; [|split; [|split]]]]].
  - intros d Hnil. unfold ReadString. rewrite Hnil. simpl.
    rewrite (readRune_nil d Hnil). reflexivity.
  - intros d r d' Hrun Hnil. unfold ReadString.
    pose proof (readRune_Ok_nonempty d d' r Hrun) as Hne.
    destruct (brd d) as [|b0 rest] eqn:Hb; [contradiction|].
    simpl. rewrite Hrun. rewrite (readRune_nil d' Hnil). reflexivity.
  - intros d. apply ReadString_loop_not_EOF.
  - intros input. apply ReadString_loop_not_EOF.
  - intros fuel sb d d' Hrun. simpl. rewrite Hrun. reflexivity.
  - intros k sb d rs d1 d2 Hd Hk Heof.
    assert (forall sb0, ReadString_from sb0 d = (Ok (written sb0 rs), d2)) as Hall.
    { intros sb0.
      destruct (readRunes_ReadString_from k d d1 rs sb0 Hd Hk) as [Hd1 Heq].
      rewrite Heq, (ReadString_from_unroll _ d1 Hd1), Heof. reflexivity. }
    split; [apply Hall|]. split; [apply (Hall [])|].
    intros input ->. unfold Decode.
    change (ReadString (NewDecoder input)) with (ReadString_from [] (NewDecoder input)).
    rewrite (Hall []). reflexivity.
  - intros n sb d rs d1 Hd Hn Hnil.
    assert (forall sb0, ReadString_from sb0 d = (Ok (written sb0 rs), d1)) as Hall.
    { intros sb0. rewrite (run_ReadString_from n d d1 rs sb0 Hd Hn).
      apply ReadString_from_nil. assumption. }
    split; [apply Hall|]. split; [apply (Hall [])|].
    intros input ->. unfold Decode.
    change (ReadString (NewDecoder input)) with (ReadString_from [] (NewDecoder input)).
    rewrite (Hall []). reflexivity.
Qed.

Lemma clean_end_is_success_witness :
  Decode [0x41; 0x42] = Ok [0x41; 0x42] /\
  Decode [0x41; 0x12; 0x9C; 0x11] = Ok [0x41; 0x041C] /\
  Decode [0x0F; 0x4E; 0x2D; 0xE0] = Ok [0x4E2D].
Proof.
  destruct clean_end_is_success as (_ & _ & _ & _ & _ & _ & Hk & Hn).
  split; [|split].
  - refine (proj2 (proj2 (Hk 2%nat [] (NewDecoder [0x41; 0x42]) [0x41; 0x42]
                             (mkDecoder 0 initialDynamicOffset [] 2 false)
                             (mkDecoder 0 initialDynamicOffset [] 2 false)
                             _ _ _)) _ eq_refl).
    + apply wf_NewDecoder. repeat constructor; unfold isByte; lia.
    + reflexivity.
    + reflexivity.
  - refine (proj2 (proj2 (Hn 4%nat [] (NewDecoder [0x41; 0x12; 0x9C; 0x11])
                             [0x41; 0x041C]
                             (mkDecoder 1 initialDynamicOffset [] 4 false)
                             _ _ _)) _ eq_refl).
    + apply wf_NewDecoder. repeat constructor; unfold isByte; lia.
    + reflexivity.
    + reflexivity.
  - refine (proj2 (proj2 (Hn 3%nat [] (NewDecoder [0x0F; 0x4E; 0x2D; 0xE0])
                             [0x4E2D]
                             (mkDecoder 0 initialDynamicOffset [] 4 false)
                             _ _ _)) _ eq_refl).
    + apply wf_NewDecoder. repeat constructor; unfold isByte; lia.
    + reflexivity.
    + reflexivity.
Defined.

(** ** Truncation *)

Lemma ReadString_of_readRune_error (d d' : Decoder) (e : error) (fuel : nat)
    (sb : gostring) :
  readRune d = (Err e, d') -> isEOF e = false ->
  ReadString_loop (S fuel) sb d = (Err e, d').
Proof. intros Hrun He. simpl. rewrite Hrun, He. reflexivity. Qed.

Lemma truncated_expandUnicode (d : Decoder) :
  truncated true (brd d) = true -> fst (expandUnicode d) = Err ErrUnexpectedEOF.
Proof.
  destruct d as [w dyn r n u]. simpl. intros H.
  destruct r as [|c [|b1 [|b2 [|]]]]; try discriminate;
    unfold bind, expandUnicode, bind, readByte; simpl.
  - destruct (_ && _); [discriminate|].
    destruct (_ && _); [reflexivity|].
    destruct (c =? UDX); [reflexivity|].
    destruct (c =? UQU); reflexivity.
  - destruct ((UC0 <=? c) && (c <=? UC7)) eqn:Huc.
    { apply andb_true_iff in Huc as [H1 H2]. apply Z.leb_le in H1, H2.
      destruct (Z.leb_spec UC0 c), (Z.leb_spec c UD7); unfold_tags; simpl in H;
        try lia; discriminate. }
    destruct ((UD0 <=? c) && (c <=? UD7)) eqn:Hud.
    { apply andb_true_iff in Hud as [H1 H2]. apply Z.leb_le in H1, H2.
      destruct (Z.leb_spec UC0 c), (Z.leb_spec c UD7); unfold_tags; simpl in H;
        try lia; discriminate. }
    destruct ((UC0 <=? c) && (c <=? UD7)); [discriminate|].
    destruct (c =? UDX); [reflexivity|].
    destruct (c =? UQU); [reflexivity|]. simpl in H.
    unfold mapErr; simpl. rewrite H. reflexivity.
  - destruct ((UC0 <=? c) && (c <=? UC7)) eqn:Huc.
    { apply andb_true_iff in Huc as [H1 H2]. apply Z.leb_le in H1, H2.
      destruct (Z.leb_spec UC0 c), (Z.leb_spec c UD7); unfold_tags; simpl in H;
        try lia; discriminate. }
    destruct ((UD0 <=? c) && (c <=? UD7)) eqn:Hud.
    { apply andb_true_iff in Hud as [H1 H2]. apply Z.leb_le in H1, H2.
      destruct (Z.leb_spec UC0 c), (Z.leb_spec c UD7); unfold_tags; simpl in H;
        try lia; discriminate. }
    destruct ((UC0 <=? c) && (c <=? UD7)); [discriminate|].
    destruct (c =? UDX); [discriminate|].
    destruct (c =? UQU); [discriminate|]. simpl in H.
    unfold mapErr; simpl. rewrite H. reflexivity.
Qed.

Lemma truncated_expandSingleByte_body (d : Decoder) :
  truncated false (brd d) = true ->
  fst (expandSingleByte_body d) = Err ErrUnexpectedEOF.
Proof.
  destruct d as [w dyn r n u]. cbn [brd]. intros H.
  destruct r as [|c [|b1 [|]]]; try discriminate; cbn [truncated] in H.
  - tag_cases H; reflexivity.
  - apply orb_true_iff in H as [H | H]; apply Z.eqb_eq in H; subst; reflexivity.
Qed.

(** C6: when the input stops inside a construct (a tag short of its trailing
    bytes, half a 16-bit unit, a surrogate unit without its successor), the
    step in progress fails with io.ErrUnexpectedEOF, and readRune, ReadRune
    and ReadString at that point report that same error, which is not the
    clean end of input.  The same holds from any earlier point of the
    stream: after any number of whole commands before the cut, ReadString
    and Decode fail with io.ErrUnexpectedEOF and return no string, and so do
    readRune and ReadRune when the commands in between hand out no rune. *)
Theorem truncation_is_unexpected_eof (d d1 : Decoder) (n : nat) (rs : list rune)
    (sb : gostring) (fuel : nat) :
  run n d = Some (rs, d1) ->
  truncated (unicodeMode d1) (brd d1) = true ->
  ((if unicodeMode d1 then fst (expandUnicode d1) = Err ErrUnexpectedEOF
    else fst (expandSingleByte_body d1) = Err ErrUnexpectedEOF) /\
   fst (command d1) = Err ErrUnexpectedEOF /\
   fst (readRune d1) = Err ErrUnexpectedEOF /\
   fst (ReadRune d1) = Err ErrUnexpectedEOF /\
   fst (ReadString_loop (S fuel) sb d1) = Err ErrUnexpectedEOF /\
   fst (ReadString d1) = Err ErrUnexpectedEOF) /\
  (wf d ->
   (rs = [] -> fst (readRune d) = Err ErrUnexpectedEOF /\
               fst (ReadRune d) = Err ErrUnexpectedEOF) /\
   fst (ReadString_from sb d) = Err ErrUnexpectedEOF /\
   fst (ReadString d) = Err ErrUnexpectedEOF /\
   (forall input, d = NewDecoder input -> Decode input = Err ErrUnexpectedEOF)) /\
  kind ErrUnexpectedEOF = UnexpectedEndOfInput /\
  isEOF ErrUnexpectedEOF = false.
Proof.
  intros Hrun H.
  assert (fst (readRune d1) = Err ErrUnexpectedEOF) as Hrr.
  { assert (exists c rest, brd d1 = c :: rest) as (c & rest & Hb).
    { destruct (brd d1) as [|c rest]; [|eauto].
      destruct (unicodeMode d1); discriminate. }
    unfold readRune. rewrite Hb.
    cbn [length readRune_loop]. unfold bind at 1. unfold readRune_body.
    destruct (unicodeMode d1) eqn:Hu.
    - pose proof (truncated_expandUnicode d1 H) as Hx.
      destruct (expandUnicode d1) as [o d2].
      simpl in Hx. subst o. reflexivity.
    - pose proof (truncated_expandSingleByte_body d1 H) as Hx.
      unfold expandSingleByte. rewrite Hb.
      cbn [length expandSingleByte_loop]. unfold bind at 1.
      destruct (expandSingleByte_body d1) as [o d2].
      simpl in Hx. subst o. reflexivity. }
  assert (forall f sb0, fst (ReadString_loop (S f) sb0 d1) = Err ErrUnexpectedEOF)
    as Hloop.
  { intros f sb0. destruct (readRune d1) as [o d2] eqn:Hr1. simpl in Hrr. subst o.
    rewrite (ReadString_of_readRune_error d1 d2 _ f sb0 Hr1 eq_refl).
    reflexivity. }
  split; [|split; [|split; reflexivity]].
  - split; [|split; [|split; [assumption|split; [|split]]]].
    + destruct (unicodeMode d1).
      * apply truncated_expandUnicode. assumption.
      * apply truncated_expandSingleByte_body. assumption.
    + destruct (unicodeMode d1) eqn:Hu.
      * rewrite (command_unicode d1 Hu).
        pose proof (truncated_expandUnicode d1 H) as Hx.
        destruct (expandUnicode d1) as [o d2]. simpl in Hx. subst o. reflexivity.
      * rewrite (command_single d1 Hu).
        apply truncated_expandSingleByte_body. assumption.
    + unfold ReadRune. destruct (readRune d1) as [o d2]. simpl in Hrr. subst o.
      reflexivity.
    + apply Hloop.
    + apply Hloop.
  - intros Hd.
    assert (forall sb0, fst (ReadString_from sb0 d) = Err ErrUnexpectedEOF) as Hall.
    { intros sb0. rewrite (run_ReadString_from n d d1 rs sb0 Hd Hrun).
      apply Hloop. }
    split; [|split; [apply Hall | split; [apply (Hall [])|]]].
    + intros ->. rewrite (run_readRune n d d1 Hd Hrun) in *.
      split; [assumption|].
      unfold ReadRune. rewrite (run_readRune n d d1 Hd Hrun).
      destruct (readRune d1) as [o d2]. simpl in Hrr. subst o. reflexivity.
    + intros input ->. apply (Hall []).
Qed.

Lemma truncation_is_unexpected_eof_witness :
  fst (ReadString (mkDecoder 0 initialDynamicOffset [0xD8; 0x00; 0xDC] 1 true))
    = Err ErrUnexpectedEOF /\
  Decode [0x0F; 0x4E] = Err ErrUnexpectedEOF /\
  Decode [0x11; 0x01] = Err ErrUnexpectedEOF /\
  Decode [0x0F; 0xF0; 0x12] = Err ErrUnexpectedEOF /\
  Decode [0x41; 0x42; 0x0B; 0xFF] = Err ErrUnexpectedEOF /\
  fst (ReadRune (NewDecoder [0x11; 0x0F; 0xE0; 0x18])) = Err ErrUnexpectedEOF.
Proof.
  assert (forall input, Forall isByte input -> wf (NewDecoder input)) as Hwf.
  { intros input. apply wf_NewDecoder. }
  split; [|split; [|split; [|split; [|split]]]].
  - destruct (truncation_is_unexpected_eof
                (mkDecoder 0 initialDynamicOffset [0xD8; 0x00; 0xDC] 1 true)
                (mkDecoder 0 initialDynamicOffset [0xD8; 0x00; 0xDC] 1 true)
                0 [] [] 0 eq_refl eq_refl)
      as ((_ & _ & _ & _ & _ & H) & _).
    exact H.
  - destruct (truncation_is_unexpected_eof
                (NewDecoder [0x0F; 0x4E])
                (mkDecoder 0 initialDynamicOffset [0x4E] 1 true)
                1 [] [] 0 eq_refl eq_refl)
      as (_ & H & _).
    apply H; [|reflexivity].
    apply Hwf. repeat constructor; unfold isByte; lia.
  - destruct (truncation_is_unexpected_eof
                (NewDecoder [0x11; 0x01])
                (mkDecoder 1 initialDynamicOffset [0x01] 1 false)
                1 [] [] 0 eq_refl eq_refl)
      as (_ & H & _).
    apply H; [|reflexivity].
    apply Hwf. repeat constructor; unfold isByte; lia.
  - destruct (truncation_is_unexpected_eof
                (NewDecoder [0x0F; 0xF0; 0x12])
                (mkDecoder 0 initialDynamicOffset [0xF0; 0x12] 1 true)
                1 [] [] 0 eq_refl eq_refl)
      as (_ & H & _).
    apply H; [|reflexivity].
    apply Hwf. repeat constructor; unfold isByte; lia.
  - destruct (truncation_is_unexpected_eof
                (NewDecoder [0x41; 0x42; 0x0B; 0xFF])
                (mkDecoder 0 initialDynamicOffset [0x0B; 0xFF] 2 false)
                2 [0x41; 0x42] [] 0 eq_refl eq_refl)
      as (_ & H & _).
    apply H; [|reflexivity].
    apply Hwf. repeat constructor; unfold isByte; lia.
  - destruct (truncation_is_unexpected_eof
                (NewDecoder [0x11; 0x0F; 0xE0; 0x18])
                (mkDecoder 0 initialDynamicOffset [0x18] 3 false)
                3 [] [] 0 eq_refl eq_refl)
      as (_ & H & _).
    apply H; [|reflexivity].
    apply Hwf. repeat constructor; unfold isByte; lia.
Defined.
(** ** Quoting and plain data *)

(** C8: in single-byte mode, after the quote tag SQn the next byte b decodes
    to staticOffset[n] + b when b < 0x80 and to dynamicOffset[n] + (b - 0x80)
    otherwise, and the decoder is left with the same active window, the same
    mode and the same eight window bases: only the two bytes are consumed. *)
Theorem quote_is_one_off (d : Decoder) (n b : Z) (rest : list Z) :
  wf d -> unicodeMode d = false -> 0 <= n < 8 ->
  brd d = (SQ0 + n) :: b :: rest ->
  exists so dyo,
    index staticOffset n = Some so /\
    index (dynamicOffset d) n = Some dyo /\
    let r := if b <? 0x80 then so + b else dyo + (b - 0x80) in
    let d' := mkDecoder (window d) (dynamicOffset d) rest
                        (bytesRead d + 2) (unicodeMode d) in
    expandSingleByte d = (Ok r, d') /\ readRune d = (Ok r, d').
Proof.
  intros Hd Hu Hn Hbrd.
  assert (isByte b) as Hb.
  { pose proof (wf_bytes d Hd) as H. rewrite Hbrd in H.
    inversion H as [|? ? _ H']; subst. inversion H'; assumption. }
  destruct (index_Some staticOffset n) as (so & Hso & Hsin); [simpl; lia|].
  destruct (index_Some (dynamicOffset d) n) as (dyo & Hdyo & Hdin);
    [rewrite (wf_length d Hd); lia|].
  pose proof staticOffset_bounds as Hsb. rewrite Forall_forall in Hsb.
  specialize (Hsb so Hsin). cbv beta in Hsb.
  pose proof (wf_offsets d Hd) as Hob. rewrite Forall_forall in Hob.
  specialize (Hob dyo Hdin). unfold okOffset in Hob.
  exists so, dyo. split; [assumption|]. split; [assumption|]. cbv zeta.
  pose proof (body_quote d n b so dyo rest Hd Hn Hbrd Hso Hdyo) as Hbody.
  pose proof (expandSingleByte_of_body _ _ _ Hbody) as Hexp.
  split; [exact Hexp|].
  apply readRune_of_expandSingleByte; [assumption | exact Hexp |].
  unfold isByte in Hb. destruct (Z.ltb_spec b 128); lia.
Qed.

Lemma quote_is_one_off_witness :
  readRune (mkDecoder 3 initialDynamicOffset [0x03; 0x41; 0x42] 5 false) =
    (Ok 0x141, mkDecoder 3 initialDynamicOffset [0x42] 7 false).
Proof.
  assert (wf (mkDecoder 3 initialDynamicOffset [0x03; 0x41; 0x42] 5 false)) as Hwf.
  { constructor; simpl; [lia | reflexivity | apply initialDynamicOffset_bounds |].
    repeat constructor; unfold isByte; lia. }
  destruct (quote_is_one_off
              (mkDecoder 3 initialDynamicOffset [0x03; 0x41; 0x42] 5 false)
              2 0x41 [0x42] Hwf eq_refl)
    as (so & dyo & Hso & Hdyo & _ & H).
  - lia.
  - reflexivity.
  - inversion Hso; subst so. exact H.
Defined.

(** C4, as stated, fails for a plain byte below 0x80 once a window other than
    0 is active: with window 1 active, whose static partner starts at 0x80,
    the byte 0x41 decodes to 0x41 and not to 0x80 + 0x41. *)
Lemma plain_low_byte_ignores_active_window :
  index staticOffset (window (mkDecoder 1 initialDynamicOffset [0x41] 0 false))
    = Some 0x80 /\
  fst (readRune (mkDecoder 1 initialDynamicOffset [0x41] 0 false)) = Ok 0x41 /\
  fst (readRune (mkDecoder 1 initialDynamicOffset [0x41] 0 false))
    <> Ok (0x80 + 0x41) /\
  Decode [SC1; 0x41] = Ok [0x41].
Proof.
  split; [reflexivity|]. split; [reflexivity|]. split; [|reflexivity].
  vm_compute. discriminate.
Qed.

(** C4 (amended): in single-byte mode, a data byte b in [0x80, 0xFF] decodes
    to dynamicOffset[activeWindow] + (b - 0x80), and a data byte b < 0x80
    that is no tag and follows no SQn decodes through static window 0,
    whatever window is active: to staticOffset[0] + b, which is b itself.
    Either way one byte is consumed and the window state stays as it was. *)
Theorem plain_data_byte (d : Decoder) (b : Z) (rest : list Z) :
  wf d -> unicodeMode d = false -> brd d = b :: rest ->
  oneof b singleByteTags = false ->
  exists so dyo,
    index staticOffset 0 = Some so /\ so = 0 /\
    index (dynamicOffset d) (window d) = Some dyo /\
    let r := if b <? 0x80 then so + b else dyo + (b - 0x80) in
    let d' := mkDecoder (window d) (dynamicOffset d) rest
                        (bytesRead d + 1) (unicodeMode d) in
    expandSingleByte d = (Ok r, d') /\ readRune d = (Ok r, d').
Proof.
  intros Hd Hu Hbrd Htag.
  assert (isByte b) as Hb.
  { pose proof (wf_bytes d Hd) as H. rewrite Hbrd in H.
    inversion H; assumption. }
  destruct (index_Some (dynamicOffset d) (window d)) as (dyo & Hdyo & Hdin);
    [rewrite (wf_length d Hd); apply (wf_window d Hd)|].
  pose proof (wf_offsets d Hd) as Hob. rewrite Forall_forall in Hob.
  specialize (Hob dyo Hdin). unfold okOffset in Hob.
  exists 0, dyo. split; [reflexivity|]. split; [reflexivity|].
  split; [assumption|]. cbv zeta.
  pose proof (body_data d b dyo rest Hd Hbrd Htag Hdyo) as Hbody.
  pose proof (expandSingleByte_of_body _ _ _ Hbody) as Hexp.
  split; [exact Hexp|].
  apply readRune_of_expandSingleByte; [assumption | exact Hexp |].
  unfold isByte in Hb. destruct (Z.ltb_spec b 128); lia.
Qed.

Lemma plain_data_byte_witness :
  readRune (mkDecoder 1 initialDynamicOffset [0x41; 0xC1] 0 false) =
    (Ok 0x41, mkDecoder 1 initialDynamicOffset [0xC1] 1 false).
Proof.
  assert (wf (mkDecoder 1 initialDynamicOffset [0x41; 0xC1] 0 false)) as Hwf.
  { constructor; simpl; [lia | reflexivity | apply initialDynamicOffset_bounds |].
    repeat constructor; unfold isByte; lia. }
  destruct (plain_data_byte
              (mkDecoder 1 initialDynamicOffset [0x41; 0xC1] 0 false)
              0x41 [0xC1] Hwf eq_refl eq_refl eq_refl)
    as (so & dyo & _ & Hso & _ & _ & H).
  subst so. exact H.
Defined.

(** ** Surrogate pairs *)

(** What [expandUnicode] does with a high surrogate unit [hi], by the unit
    [lo] that follows it. *)
Lemma high_surrogate_cases (d : Decoder) (h1 h2 l1 l2 : Z) (more : list Z) :
  isByte h1 -> isByte h2 -> isByte l1 -> isByte l2 ->
  brd d = h1 :: h2 :: l1 :: l2 :: more ->
  0xD800 <= uint16FromTwoBytes h1 h2 < 0xDC00 ->
  let hi := uint16FromTwoBytes h1 h2 in
  let lo := uint16FromTwoBytes l1 l2 in
  (~ (0xD800 <= lo < 0xE000) -> fst (expandUnicode d) = Err ErrIllegalInput) /\
  (0xDC00 <= lo < 0xE000 ->
     expandUnicode d =
       (Ok ((hi - 0xD800) * 1024 + (lo - 0xDC00) + 0x10000), consumed d 4 more)) /\
  (0xD800 <= lo < 0xDC00 ->
     expandUnicode d = (Ok 0xFFFD, consumed d 4 more)).
Proof.
  intros Hh1 Hh2 Hl1 Hl2 Hbrd Hhi. cbv zeta.
  rewrite (uint16FromTwoBytes_val h1 h2 Hh1 Hh2) in Hhi.
  assert (h1 < UC0 \/ UDX < h1) as Hnt
    by (left; unfold UC0; unfold isByte in *; lia).
  assert (utf16.IsSurrogate (uint16FromTwoBytes h1 h2) = true) as Hs1.
  { apply IsSurrogate_spec. rewrite uint16FromTwoBytes_val by assumption. lia. }
  split; [|split].
  - intros Hlo.
    destruct (not_unicode_tag h1 Hnt) as (H1 & H2 & H3 & H4).
    unfold expandUnicode. unfold bind at 1. unfold readByte at 1.
    rewrite Hbrd. rewrite H1, H2, H3, H4.
    unfold bind at 1. unfold mapErr at 1. unfold readByte at 1.
    cbn [window dynamicOffset brd bytesRead unicodeMode]. cbv zeta.
    rewrite Hs1.
    unfold readUint16, bind, mapErr, readByte, ret.
    cbn [window dynamicOffset brd bytesRead unicodeMode].
    rewrite IsSurrogate_false by lia. reflexivity.
  - intros Hlo.
    rewrite (unicode_pair d h1 h2 l1 l2 more Hbrd Hnt Hs1)
      by (apply IsSurrogate_spec; lia).
    rewrite DecodeRune_pair; [reflexivity | | assumption].
    rewrite uint16FromTwoBytes_val by assumption. lia.
  - intros Hlo.
    rewrite (unicode_pair d h1 h2 l1 l2 more Hbrd Hnt Hs1)
      by (apply IsSurrogate_spec; lia).
    unfold utf16.DecodeRune, utf16.surr1, utf16.surr2, utf16.surr3.
    destruct (Z.leb_spec 0xdc00 (uint16FromTwoBytes l1 l2)); [lia|].
    rewrite andb_false_r. reflexivity.
Qed.

(** C2: in unicode mode a high surrogate unit followed by a unit that is no
    surrogate fails with ErrIllegalInput, and a high/low pair combines into
    its supplementary code point; but a high surrogate followed by a second
    high surrogate, which is no valid low surrogate either, is accepted and
    decodes to U+FFFD without any error. *)
Theorem high_surrogate_pairing_evaluated :
  Decode [SCU; 0xD8; 0x00; 0x00; 0x41] = Err ErrIllegalInput /\
  Decode [SCU; 0xD8; 0x00; 0xDC; 0x00] = Ok [0x10000] /\
  Decode [SCU; 0xDB; 0xFF; 0xDF; 0xFF] = Ok [0x10FFFF] /\
  expandUnicode (mkDecoder 0 initialDynamicOffset [0xD8; 0x00; 0xD8; 0x00] 1 true)
    = (Ok 0xFFFD, mkDecoder 0 initialDynamicOffset [] 5 true) /\
  Decode [SCU; 0xD8; 0x00; 0xD8; 0x00] = Ok [0xFFFD].
Proof. repeat split; reflexivity. Qed.

(** ** Round trip *)

Lemma wfState_initialState : wfState initialState.
Proof.
  constructor; simpl; [lia | reflexivity | apply initialDynamicOffset_bounds].
Qed.

(** C1: for every sequence s of scalar values (none a surrogate, none beyond
    0x10FFFF), whatever the encoder's heuristics choose, encoding s succeeds
    and decoding the bytes it wrote succeeds and gives back exactly s:
    Decode(Encode(s)) == s. *)
Theorem decode_encode_roundtrip
    (pickWindow : WindowState -> rune -> Z)
    (preferQuote preferUnicode : WindowState -> rune -> list rune -> bool)
    (s : list rune) :
  forallb validRune s = true ->
  exists bytes,
    Encode pickWindow preferQuote preferUnicode s [] = Some bytes /\
    Decode bytes = Ok s.
Proof.
  intros Hs.
  destruct (encodeAll_decodes pickWindow preferQuote preferUnicode s
              initialState 0 [] wfState_initialState Hs)
    as (out & d' & Henc & Hbytes & Hread).
  exists out. unfold Encode. rewrite Henc. split; [reflexivity|].
  unfold Decode.
  change (ReadString (NewDecoder out))
    with (ReadString_from [] (decoderOf initialState out 0)).
  rewrite Hread. reflexivity.
Qed.

Lemma decode_encode_roundtrip_witness :
  exists bytes,
    Encode (fun st _ => activeWindow st + 1) (fun _ _ _ => false)
           (fun _ c _ => (0x3400 <=? c) && (c <? 0xE000))
           [0x48; 0x07; 0xE9; 0x41C; 0x43E; 0x3042; 0x4E2D; 0x6587; 0xFFFD;
            0x1F600; 0x1F601; 0x10FFFF] [] = Some bytes /\
    Decode bytes =
      Ok [0x48; 0x07; 0xE9; 0x41C; 0x43E; 0x3042; 0x4E2D; 0x6587; 0xFFFD;
          0x1F600; 0x1F601; 0x10FFFF].
Proof.
  apply (decode_encode_roundtrip
           (fun st _ => activeWindow st + 1) (fun _ _ _ => false)
           (fun _ c _ => (0x3400 <=? c) && (c <? 0xE000))).
  reflexivity.
Defined.

(** * Further properties of the decoder *)

(** ** The reader only moves forward *)



























(** ** End of input is only ever met between commands *)

Lemma neverEOF_ret {A} (a : A) : neverEOF (ret a).
Proof. intros d d' H. discriminate. Qed.

Lemma neverEOF_fail {A} (e : error) : e <> EOF -> neverEOF (@fail A e).
Proof. intros He d d' H. injection H as H _. contradiction. Qed.

Lemma neverEOF_bind {A B} (m : M A) (k : A -> M B) :
  neverEOF m -> (forall a, neverEOF (k a)) -> neverEOF (bind m k).
Proof.
  intros Hm Hk d d' H. unfold bind in H. specialize (Hm d).
  destruct (m d) as [[a|e| |] d1]; try discriminate.
  - exact (Hk a d1 d' H).
  - injection H as -> ->. exact (Hm d' eq_refl).
Qed.

Lemma neverEOF_unexpectedEOF {A} (m : M A) : neverEOF (mapErr unexpectedEOF m).
Proof.
  intros d d' H. unfold mapErr in H.
  destruct (m d) as [[a|e| |] d1]; try discriminate.
  destruct e; discriminate.
Qed.

Lemma neverEOF_readUint16 : neverEOF readUint16.
Proof.
  unfold readUint16.
  apply neverEOF_bind; [apply neverEOF_unexpectedEOF|]. intros b1.
  apply neverEOF_bind; [apply neverEOF_unexpectedEOF|]. intros b2.
  apply neverEOF_ret.
Qed.

Lemma neverEOF_setWindow (w : Z) : neverEOF (setWindow w).
Proof. intros d d' H. discriminate. Qed.

Lemma neverEOF_setUnicodeMode (u : bool) : neverEOF (setUnicodeMode u).
Proof. intros d d' H. discriminate. Qed.

Lemma neverEOF_getWindow : neverEOF getWindow.
Proof. intros d d' H. discriminate. Qed.

Lemma neverEOF_readTable (a : list Z) (i : Z) : neverEOF (readTable a i).
Proof. intros d d' H. unfold readTable in H. destruct (index a i); discriminate. Qed.

Lemma neverEOF_getDynamicOffset (i : Z) : neverEOF (getDynamicOffset i).
Proof.
  intros d d' H. unfold getDynamicOffset in H.
  destruct (index (dynamicOffset d) i); discriminate.
Qed.

Lemma neverEOF_setDynamicOffset (i v : Z) : neverEOF (setDynamicOffset i v).
Proof.
  intros d d' H. unfold setDynamicOffset in H.
  destruct (index (dynamicOffset d) i); discriminate.
Qed.

Lemma neverEOF_defineWindow (i b : Z) : neverEOF (defineWindow i b).
Proof.
  unfold defineWindow. destruct (b =? 0); [apply neverEOF_fail; discriminate|].
  apply neverEOF_bind; [|intros; apply neverEOF_setWindow].
  destruct (b <? gapThreshold); [apply neverEOF_setDynamicOffset|].
  destruct (b <? reservedStart); [apply neverEOF_setDynamicOffset|].
  destruct (b <? fixedThreshold); [apply neverEOF_fail; discriminate|].
  apply neverEOF_bind; [apply neverEOF_readTable|].
  intros v. apply neverEOF_setDynamicOffset.
Qed.

Lemma neverEOF_defineExtendedWindow (c : Z) : neverEOF (defineExtendedWindow c).
Proof.
  unfold defineExtendedWindow. cbv zeta.
  apply neverEOF_bind; [apply neverEOF_setDynamicOffset|].
  intros; apply neverEOF_setWindow.
Qed.

Lemma neverEOF_outputCharacter (b sw dw : Z) : neverEOF (outputCharacter b sw dw).
Proof.
  unfold outputCharacter. destruct (b <? 0x80).
  - apply neverEOF_bind; [apply neverEOF_readTable | intros; apply neverEOF_ret].
  - apply neverEOF_bind; [apply neverEOF_getDynamicOffset | intros; apply neverEOF_ret].
Qed.

Lemma eofAtEnd_of_never {A} (m : M A) : neverEOF m -> eofAtEnd m.
Proof. intros Hm d d' H. destruct (Hm d d' H). Qed.

Lemma eofAtEnd_bind {A B} (m : M A) (k : A -> M B) :
  eofAtEnd m -> (forall a, eofAtEnd (k a)) -> eofAtEnd (bind m k).
Proof.
  intros Hm Hk d d' H. unfold bind in H. specialize (Hm d).
  destruct (m d) as [[a|e| |] d1]; try discriminate.
  - exact (Hk a d1 d' H).
  - injection H as -> ->. exact (Hm d' eq_refl).
Qed.

Lemma eofAtEnd_readByte : eofAtEnd readByte.
Proof.
  intros d d' H. unfold readByte in H.
  destruct (brd d) as [|b rest] eqn:Hb; [|discriminate].
  injection H as <-. assumption.
Qed.

Lemma eofAtStart_readByte_bind {A} (k : Z -> M A) :
  (forall b, neverEOF (k b)) -> eofAtStart (bind readByte k).
Proof.
  intros Hk d d' H. unfold bind, readByte in H.
  destruct (brd d) as [|b rest] eqn:Hb.
  - injection H as <-. split; reflexivity.
  - destruct (Hk b _ _ H).
Qed.

Lemma eofAtEnd_of_start {A} (m : M A) : eofAtStart m -> eofAtEnd m.
Proof. intros Hm d d' H. destruct (Hm d d' H) as [Hnil ->]. assumption. Qed.

(** Past its first byte a command never reports [io.EOF]: every later read
    goes through [unexpectedEOF]. *)
Lemma eofAtStart_expandUnicode : eofAtStart expandUnicode.
Proof.
  unfold expandUnicode.
  apply eofAtStart_readByte_bind. intros b.
  destruct (_ && _).
  { apply neverEOF_bind; [apply neverEOF_setWindow|]. intros _.
    apply neverEOF_bind; [apply neverEOF_setUnicodeMode | intros; apply neverEOF_ret]. }
  destruct (_ && _).
  { apply neverEOF_bind; [apply neverEOF_unexpectedEOF|]. intros b1.
    apply neverEOF_bind; [apply neverEOF_setUnicodeMode|]. intros _.
    apply neverEOF_bind; [apply neverEOF_defineWindow | intros; apply neverEOF_ret]. }
  destruct (b =? UDX).
  { apply neverEOF_bind; [apply neverEOF_unexpectedEOF|]. intros c.
    apply neverEOF_bind; [apply neverEOF_defineExtendedWindow|]. intros _.
    apply neverEOF_bind; [apply neverEOF_setUnicodeMode | intros; apply neverEOF_ret]. }
  destruct (b =? UQU).
  { apply neverEOF_bind; [apply neverEOF_readUint16 | intros; apply neverEOF_ret]. }
  apply neverEOF_bind; [apply neverEOF_unexpectedEOF|]. intros b1. cbv zeta.
  destruct (utf16.IsSurrogate _); [|apply neverEOF_ret].
  apply neverEOF_bind; [apply neverEOF_unexpectedEOF|]. intros ch1.
  destruct (negb _); [apply neverEOF_fail; discriminate | apply neverEOF_ret].
Qed.

Lemma eofAtEnd_expandUnicode : eofAtEnd expandUnicode.
Proof. apply eofAtEnd_of_start, eofAtStart_expandUnicode. Qed.

Lemma eofAtStart_expandSingleByte_body : eofAtStart expandSingleByte_body.
Proof.
  unfold expandSingleByte_body.
  apply eofAtStart_readByte_bind. intros b. cbv zeta.
  apply neverEOF_bind; [apply neverEOF_getWindow|]. intros w.
  destruct (oneof b _).
  { apply neverEOF_bind; [apply neverEOF_unexpectedEOF|]. intros b1.
    apply neverEOF_bind; [apply neverEOF_outputCharacter | intros; apply neverEOF_ret]. }
  destruct (b =? SDX).
  { apply neverEOF_bind; [apply neverEOF_unexpectedEOF|]. intros c.
    apply neverEOF_bind; [apply neverEOF_defineExtendedWindow | intros; apply neverEOF_ret]. }
  destruct (oneof b _).
  { apply neverEOF_bind; [apply neverEOF_unexpectedEOF|]. intros b1.
    apply neverEOF_bind; [apply neverEOF_defineWindow | intros; apply neverEOF_ret]. }
  destruct (oneof b _).
  { apply neverEOF_bind; [apply neverEOF_setWindow | intros; apply neverEOF_ret]. }
  destruct (b =? SCU).
  { apply neverEOF_bind; [apply neverEOF_setUnicodeMode | intros; apply neverEOF_ret]. }
  destruct (b =? SQU).
  { apply neverEOF_bind; [apply neverEOF_readUint16 | intros; apply neverEOF_ret]. }
  destruct (b =? Srs); [apply neverEOF_fail; discriminate|].
  apply neverEOF_bind; [apply neverEOF_outputCharacter | intros; apply neverEOF_ret].
Qed.

Lemma eofAtEnd_expandSingleByte_body : eofAtEnd expandSingleByte_body.
Proof. apply eofAtEnd_of_start, eofAtStart_expandSingleByte_body. Qed.

Lemma eofAtStart_command : eofAtStart command.
Proof.
  intros d d' H. destruct (unicodeMode d) eqn:Hu.
  - rewrite (command_unicode d Hu) in H.
    destruct (expandUnicode d) as [[r|e| |] d1] eqn:He; try discriminate.
    injection H as -> ->. exact (eofAtStart_expandUnicode d d' He).
  - rewrite (command_single d Hu) in H.
    exact (eofAtStart_expandSingleByte_body d d' H).
Qed.

Lemma readRune_EOF_run (m : nat) (d d' : Decoder) :
  (length (brd d) <= m)%nat -> wf d -> readRune d = (Err EOF, d') ->
  exists n, run n d = Some ([], d') /\ brd d' = [].
Proof.
  revert d. induction m as [|m IH]; intros d Hm Hd H;
    rewrite (readRune_command d Hd) in H;
    pose proof (advancing_command d Hd) as Ha;
    destruct (command d) as [[o|e| |] d1] eqn:Hc; try discriminate.
  - specialize (Ha o d1 eq_refl). lia.
  - injection H as -> ->. destruct (eofAtStart_command d d' Hc) as [Hnil ->].
    exists 0%nat. split; [reflexivity | assumption].
  - specialize (Ha o d1 eq_refl).
    destruct (emitted o) as [|r l] eqn:Ho; [|discriminate].
    destruct (IH d1 ltac:(lia) (command_wf d d1 o Hd Hc) H) as (n & Hn & Hnil).
    exists (S n). split; [|assumption].
    simpl. rewrite Hc, Hn, Ho. reflexivity.
  - injection H as -> ->. destruct (eofAtStart_command d d' Hc) as [Hnil ->].
    exists 0%nat. split; [reflexivity | assumption].
Qed.

Lemma eofAtEnd_expandSingleByte_loop (fuel : nat) : eofAtEnd (expandSingleByte_loop fuel).
Proof.
  induction fuel as [|fuel IH]; [intros d d' H; discriminate|].
  cbn [expandSingleByte_loop].
  apply eofAtEnd_bind; [apply eofAtEnd_expandSingleByte_body|].
  intros [r|]; [apply eofAtEnd_of_never, neverEOF_ret | assumption].
Qed.

Lemma eofAtEnd_readRune_body : eofAtEnd readRune_body.
Proof.
  intros d d'. unfold readRune_body. destruct (unicodeMode d).
  - apply eofAtEnd_expandUnicode.
  - apply eofAtEnd_expandSingleByte_loop.
Qed.

Lemma eofAtEnd_readRune_loop (fuel : nat) : eofAtEnd (readRune_loop fuel).
Proof.
  induction fuel as [|fuel IH]; [intros d d' H; discriminate|].
  cbn [readRune_loop].
  apply eofAtEnd_bind; [apply eofAtEnd_readRune_body|].
  intros r. destruct (r =? -1); [assumption | apply eofAtEnd_of_never, neverEOF_ret].
Qed.

Lemma eofAtEnd_readRune : eofAtEnd readRune.
Proof. intros d d'. apply eofAtEnd_readRune_loop. Qed.




(** ** Reading rune by rune and reading the rest *)

Lemma ReadString_loop_acc (fuel : nat) (sb : gostring) (d : Decoder) :
  ReadString_loop fuel sb d =
    match ReadString_loop fuel [] d with
    | (Ok s, d') => (Ok (sb ++ s), d')
    | (Err e, d') => (Err e, d')
    | (Panic, d') => (Panic, d')
    | (OutOfFuel, d') => (OutOfFuel, d')
    end.
Proof.
  revert sb d. induction fuel as [|fuel IH]; intros sb d; [reflexivity|].
  cbn [ReadString_loop].
  destruct (readRune d) as [[r|e| |] d1]; try reflexivity.
  - rewrite (IH (WriteRune sb r)), (IH (WriteRune [] r)).
    destruct (ReadString_loop fuel [] d1) as [[s|e| |] d2]; try reflexivity.
    unfold WriteRune. rewrite <- app_assoc. reflexivity.
  - destruct (isEOF e); [rewrite app_nil_r|]; reflexivity.
Qed.

(** X3: reading one rune with ReadRune and then the rest with ReadString is
    the same as reading everything with ReadString: the string is the rune
    (U+FFFD in its place when it is no scalar value) followed by the rest,
    and an error of the rest is the error of the whole. *)
Theorem ReadString_after_ReadRune (d d1 : Decoder) (r n : Z) :
  wf d -> ReadRune d = (Ok (r, n), d1) ->
  (forall s d2, ReadString d1 = (Ok s, d2) ->
     ReadString d = (Ok ((if validRune r then r else 0xFFFD) :: s), d2)) /\
  (forall e d2, ReadString d1 = (Err e, d2) -> ReadString d = (Err e, d2)).
Proof.
  intros Hd Hrun. unfold ReadRune in Hrun.
  destruct (readRune d) as [[r0|e0| |] d0] eqn:Hr; try discriminate.
  injection Hrun as -> _ ->.
  assert (ReadString d = ReadString_from (WriteRune [] r) d1) as Heq.
  { change (ReadString d) with (ReadString_from [] d).
    rewrite (ReadString_from_unroll [] d Hd), Hr. reflexivity. }
  unfold ReadString_from in Heq. rewrite ReadString_loop_acc in Heq.
  split.
  - intros s d2 H2. unfold ReadString in H2. rewrite H2 in Heq. exact Heq.
  - intros e d2 H2. unfold ReadString in H2. rewrite H2 in Heq. exact Heq.
Qed.

Lemma ReadString_after_ReadRune_witness :
  ReadString (NewDecoder [0x0E; 0xD8; 0x00; 0x41; 0x42])
    = (Ok [0xFFFD; 0x41; 0x42], mkDecoder 0 initialDynamicOffset [] 5 false).
Proof.
  destruct (ReadString_after_ReadRune
              (NewDecoder [0x0E; 0xD8; 0x00; 0x41; 0x42])
              (mkDecoder 0 initialDynamicOffset [0x41; 0x42] 3 false) 0xD800 3)
    as (H & _).
  - apply wf_NewDecoder. repeat constructor; unfold isByte; lia.
  - reflexivity.
  - apply (H [0x41; 0x42]). reflexivity.
Defined.

(** ** What comes out *)

(** X4: a rune that ReadRune returns lies in the code space 0..0x10FFFF; in
    particular the sentinel -1 the expansions use among themselves never
    reaches the caller. *)
Theorem ReadRune_in_code_space (d d' : Decoder) (r n : Z) :
  wf d -> ReadRune d = (Ok (r, n), d') -> 0 <= r <= 0x10FFFF /\ r <> -1.
Proof.
  intros Hd Hrun. unfold ReadRune in Hrun.
  pose proof (sound_readRune d Hd) as Hs.
  destruct (readRune d) as [[r0|e0| |] d0]; try discriminate.
  injection Hrun as -> _ _. destruct Hs as (_ & _ & Hr).
  unfold okRune in Hr. lia.
Qed.

Lemma ReadRune_in_code_space_witness : 0 <= 0x10FFFF <= 0x10FFFF /\ 0x10FFFF <> -1.
Proof.
  apply (ReadRune_in_code_space (NewDecoder [0x0B; 0xFF; 0xFF; 0xFF])
           (mkDecoder 7 [0x0080; 0x00C0; 0x0400; 0x0600; 0x0900; 0x3040; 0x30A0; 0x10FF80]
                      [] 4 false) 0x10FFFF 4).
  - apply wf_NewDecoder. repeat constructor; unfold isByte; lia.
  - reflexivity.
Defined.

Lemma ReadString_loop_valid (fuel : nat) (sb s : gostring) (d d' : Decoder) :
  forallb validRune sb = true ->
  ReadString_loop fuel sb d = (Ok s, d') -> forallb validRune s = true.
Proof.
  revert sb d. induction fuel as [|fuel IH]; intros sb d Hsb H; [discriminate|].
  cbn [ReadString_loop] in H.
  destruct (readRune d) as [[r|e| |] d1]; try discriminate.
  - apply (IH (WriteRune sb r) d1); [|assumption].
    unfold WriteRune. rewrite forallb_app, Hsb. cbn [forallb andb].
    destruct (validRune r) eqn:Hv; [rewrite Hv|]; reflexivity.
  - destruct (isEOF e); [|discriminate]. injection H as <- _. assumption.
Qed.

(** X5: a string that Decode or ReadString returns holds scalar values only:
    no surrogate and nothing beyond 0x10FFFF, whatever the bytes were. *)
Theorem decoded_string_is_well_formed (input : list Z) (d d' : Decoder)
    (s s' : gostring) :
  (Decode input = Ok s -> forallb validRune s = true) /\
  (ReadString d = (Ok s', d') -> forallb validRune s' = true).
Proof.
  split.
  - unfold Decode. intros H.
    destruct (ReadString (NewDecoder input)) as [o d1] eqn:Hr. simpl in H. subst o.
    exact (ReadString_loop_valid _ [] s _ d1 eq_refl Hr).
  - intros H. exact (ReadString_loop_valid _ [] s' d d' eq_refl H).
Qed.

Lemma decoded_string_is_well_formed_witness :
  forallb validRune [0xFFFD; 0x41] = true.
Proof.
  destruct (decoded_string_is_well_formed [0x0E; 0xDC; 0x00; 0x41]
              (NewDecoder []) (NewDecoder []) [0xFFFD; 0x41] []) as (H & _).
  apply H. reflexivity.
Defined.

(** ** Data bytes and the commands before them *)

Lemma passes_spec (b : Z) :
  passes b = true -> isByte b /\ oneof b singleByteTags = false.
Proof.
  unfold passes, isByte. intros H.
  apply andb_true_iff in H as [H H3]. apply andb_true_iff in H as [H1 H2].
  apply Z.leb_le in H1. apply Z.ltb_lt in H2. apply negb_true_iff in H3.
  split; [lia | assumption].
Qed.

(** A data byte seen by [readRune] in single-byte mode. *)
Lemma readRune_data (d : Decoder) (b base : Z) (rest : list Z) :
  wf d -> unicodeMode d = false -> brd d = b :: rest -> passes b = true ->
  index (dynamicOffset d) (window d) = Some base ->
  readRune d =
    (Ok (if b <? 0x80 then b else base + (b - 0x80)), consumed d 1 rest).
Proof.
  intros Hd Hu Hbrd Hp Hbase.
  destruct (passes_spec b Hp) as (Hb & Htag).
  pose proof (body_data d b base rest Hd Hbrd Htag Hbase) as Hbody.
  apply readRune_of_expandSingleByte;
    [assumption | apply expandSingleByte_of_body; assumption |].
  assert (0 <= base) as Hpos.
  { pose proof (wf_offsets d Hd) as Ho. rewrite Forall_forall in Ho.
    unfold index in Hbase. destruct (0 <=? window d); [|discriminate].
    apply list_elem_of_lookup_2 in Hbase. apply Ho in Hbase.
    unfold okOffset in Hbase. lia. }
  unfold isByte in Hb. destruct (Z.ltb_spec b 128); lia.
Qed.

(** A command of single-byte mode that only moves the window state is
    invisible to [readRune]. *)
Lemma readRune_skip (d d1 : Decoder) :
  wf d -> unicodeMode d = false -> unicodeMode d1 = false ->
  expandSingleByte_body d = (Ok None, d1) -> readRune d = readRune d1.
Proof.
  intros Hd Hu Hu1 Hbody.
  assert (wf d1) as Hd1.
  { pose proof (sound_expandSingleByte_body d Hd) as H. rewrite Hbody in H.
    apply H. }
  rewrite (readRune_unroll d Hd), (readRune_unroll d1 Hd1).
  rewrite (readRune_body_single d Hu), (readRune_body_single d1 Hu1).
  rewrite (expandSingleByte_next d d1 Hd Hbody). reflexivity.
Qed.

(** So is a command of unicode mode that goes back to single-byte mode. *)
Lemma readRune_leave (d d1 : Decoder) :
  wf d -> unicodeMode d = true -> expandUnicode d = (Ok (-1), d1) ->
  readRune d = readRune d1.
Proof.
  intros Hd Hu Hexp. apply readRune_again; [assumption|].
  rewrite readRune_body_unicode by assumption. assumption.
Qed.

Lemma wf_tail2 (d : Decoder) (a b : Z) (rest : list Z) :
  wf d -> brd d = a :: b :: rest -> isByte b /\ Forall isByte rest.
Proof.
  intros Hd Hbrd. pose proof (wf_bytes d Hd) as H. rewrite Hbrd in H.
  inversion H as [|? ? _ H']; subst. inversion H'; subst. split; assumption.
Qed.

(** X6: SCn in single-byte mode, like UCn in unicode mode, selects window n
    without a rune of its own: the byte after it is decoded in single-byte
    mode through window n, which stays the active one. *)
Theorem select_then_data (d : Decoder) (n b base : Z) (rest : list Z) :
  wf d -> 0 <= n < 8 ->
  brd d = (if unicodeMode d then UC0 + n else SC0 + n) :: b :: rest ->
  passes b = true ->
  index (dynamicOffset d) n = Some base ->
  readRune d =
    (Ok (if b <? 0x80 then b else base + (b - 0x80)),
     mkDecoder n (dynamicOffset d) rest (bytesRead d + 2) false).
Proof.
  intros Hd Hn Hbrd Hp Hbase.
  destruct (wf_tail2 d _ b rest Hd Hbrd) as (Hb & Hrest).
  pose (d1 := mkDecoder n (dynamicOffset d) (b :: rest) (bytesRead d + 1) false).
  assert (wf d1) as Hd1.
  { destruct Hd as [Hw Hl Ho Hby]. constructor; simpl; try assumption.
    constructor; assumption. }
  assert (readRune d = readRune d1) as ->.
  { destruct (unicodeMode d) eqn:Hu.
    - apply readRune_leave; [assumption | assumption |].
      apply (unicode_select d n (b :: rest) Hn Hbrd).
    - apply readRune_skip; [assumption | assumption | reflexivity |].
      rewrite (body_select d n (b :: rest) Hn Hbrd). rewrite Hu. reflexivity. }
  rewrite (readRune_data d1 b base rest Hd1 eq_refl eq_refl Hp Hbase).
  unfold consumed, d1. cbn [window dynamicOffset bytesRead unicodeMode].
  replace (bytesRead d + 1 + 1) with (bytesRead d + 2) by lia. reflexivity.
Qed.

Lemma select_then_data_witness :
  readRune (mkDecoder 0 initialDynamicOffset [0xE2; 0x9C; 0x41] 7 true) =
    (Ok 0x41C, mkDecoder 2 initialDynamicOffset [0x41] 9 false).
Proof.
  apply (select_then_data (mkDecoder 0 initialDynamicOffset [0xE2; 0x9C; 0x41] 7 true)
           2 0x9C 0x400 [0x41]).
  - constructor; simpl; [lia | reflexivity | apply initialDynamicOffset_bounds |].
    repeat constructor; unfold isByte; lia.
  - lia.
  - reflexivity.
  - reflexivity.
  - reflexivity.
Defined.

Lemma defineWindow_fixed (d : Decoder) (i x base : Z) :
  0 <= i < 8 -> length (dynamicOffset d) = 8%nat -> isByte x ->
  fixedThreshold <= x -> index fixedOffset (x - fixedThreshold) = Some base ->
  defineWindow i x d = (Ok tt, redefined d i base).
Proof.
  intros Hi Hlen Hx Hfix Hbase. unfold isByte, fixedThreshold in *.
  unfold defineWindow, gapThreshold, reservedStart, fixedThreshold.
  destruct (Z.eqb_spec x 0); [lia|].
  destruct (Z.ltb_spec x 104); [lia|]. destruct (Z.ltb_spec x 168); [lia|].
  destruct (Z.ltb_spec x 249); [lia|].
  unfold bind at 1 2. unfold readTable. rewrite byte_small by lia.
  rewrite Hbase.
  pose proof (redefine_run d i base Hi Hlen) as Hre. unfold bind in Hre. exact Hre.
Qed.

(** UDn x positions window n and goes back to single-byte mode. *)
Lemma unicode_define (d d' : Decoder) (n x : Z) (more : list Z) :
  0 <= n < 8 -> brd d = (UD0 + n) :: x :: more ->
  defineWindow n x
    (mkDecoder (window d) (dynamicOffset d) more (bytesRead d + 2) false)
    = (Ok tt, d') ->
  expandUnicode d = (Ok (-1), d').
Proof.
  intros Hn Hbrd Hdef. unfold expandUnicode. unfold bind at 1. unfold readByte at 1.
  rewrite Hbrd.
  destruct (Z.leb_spec UC0 (UD0 + n)); [|unfold_tags; lia].
  destruct (Z.leb_spec (UD0 + n) UC7); [unfold_tags; lia|]. cbn [andb].
  destruct (Z.leb_spec UD0 (UD0 + n)); [|lia].
  destruct (Z.leb_spec (UD0 + n) UD7); [|unfold_tags; lia]. cbn [andb].
  replace (UD0 + n - UD0) with n by lia.
  unfold bind at 1. unfold mapErr, readByte.
  cbn [window dynamicOffset brd bytesRead unicodeMode].
  unfold bind at 1. unfold setUnicodeMode.
  cbn [window dynamicOffset brd bytesRead unicodeMode].
  unfold bind at 1.
  replace (bytesRead d + 1 + 1) with (bytesRead d + 2) by lia.
  rewrite Hdef. reflexivity.
Qed.

(** UDX hi lo positions an extended window and goes back to single-byte
    mode. *)
Lemma unicode_extended (d d' : Decoder) (hi lo : Z) (more : list Z) :
  brd d = UDX :: hi :: lo :: more ->
  defineExtendedWindow (uint16FromTwoBytes hi lo) (consumed d 3 more) = (Ok tt, d') ->
  expandUnicode d =
    (Ok (-1), mkDecoder (window d') (dynamicOffset d') (brd d') (bytesRead d') false).
Proof.
  intros Hbrd Hdef. unfold expandUnicode. unfold bind at 1. unfold readByte at 1.
  rewrite Hbrd.
  change ((UC0 <=? UDX) && (UDX <=? UC7)) with false.
  change ((UD0 <=? UDX) && (UDX <=? UD7)) with false.
  change (UDX =? UDX) with true. cbv iota.
  unfold bind at 1. unfold mapErr, readUint16, bind, mapErr, readByte, ret.
  cbn [window dynamicOffset brd bytesRead unicodeMode].
  unfold consumed in Hdef.
  replace (bytesRead d + 1 + 1 + 1) with (bytesRead d + 3) by lia.
  rewrite Hdef. reflexivity.
Qed.

Lemma wf_tail3 (d : Decoder) (a b c : Z) (rest : list Z) :
  wf d -> brd d = a :: b :: c :: rest ->
  isByte b /\ isByte c /\ Forall isByte rest.
Proof.
  intros Hd Hbrd. pose proof (wf_bytes d Hd) as H. rewrite Hbrd in H.
  inversion H as [|? ? _ H1]; subst. inversion H1 as [|? ? ? H2]; subst.
  inversion H2; subst. split; [assumption | split; assumption].
Qed.

(** X7: SDn in single-byte mode, like UDn in unicode mode, takes an offset
    byte x, positions window n at the base x stands for (x << 7 below
    gapThreshold, (x << 7) + gapOffset up to reservedStart, the fixed table
    from fixedThreshold on) and selects it; the byte after that is decoded
    in single-byte mode through the new position. *)
Theorem define_then_data (d : Decoder) (n x b base : Z) (rest : list Z) :
  wf d -> 0 <= n < 8 ->
  brd d = (if unicodeMode d then UD0 + n else SD0 + n) :: x :: b :: rest ->
  passes b = true ->
  (0 < x < gapThreshold /\ base = Z.shiftl x 7) \/
  (gapThreshold <= x < reservedStart /\ base = Z.shiftl x 7 + gapOffset) \/
  (fixedThreshold <= x /\ index fixedOffset (x - fixedThreshold) = Some base) ->
  readRune d =
    (Ok (if b <? 0x80 then b else base + (b - 0x80)),
     mkDecoder n (<[Z.to_nat n := base]> (dynamicOffset d)) rest
               (bytesRead d + 3) false).
Proof.
  intros Hd Hn Hbrd Hp Hcase.
  destruct (wf_tail3 d _ x b rest Hd Hbrd) as (Hx & Hb & Hrest).
  pose (d0 := mkDecoder (window d) (dynamicOffset d) (b :: rest)
                        (bytesRead d + 2) false).
  assert (defineWindow n x d0 = (Ok tt, redefined d0 n base)) as Hdef.
  { destruct Hcase as [[Hr Hv] | [[Hr Hv] | [Hr Hf]]].
    - rewrite Hv, shiftl7.
      apply defineWindow_low; [assumption | exact (wf_length d Hd) | assumption].
    - rewrite Hv, shiftl7.
      apply defineWindow_gap; [assumption | exact (wf_length d Hd) | assumption].
    - apply defineWindow_fixed;
        [assumption | exact (wf_length d Hd) | assumption | assumption | assumption]. }
  pose (d1 := redefined d0 n base).
  assert (readRune d = readRune d1) as ->.
  { destruct (unicodeMode d) eqn:Hu.
    - apply readRune_leave; [assumption | assumption |].
      apply (unicode_define d d1 n x (b :: rest) Hn Hbrd). exact Hdef.
    - apply readRune_skip; [assumption | assumption | reflexivity |].
      apply (body_define d d1 n x (b :: rest) Hn Hbrd).
      unfold consumed. rewrite Hu. exact Hdef. }
  assert (wf d1) as Hd1.
  { assert (wf d0) as Hd0.
    { destruct Hd as [Hw Hl Ho Hby]. constructor; simpl; try assumption.
      constructor; assumption. }
    pose proof (sound_defineWindow n x Hn Hx d0 Hd0) as H.
    rewrite Hdef in H. apply H. }
  assert (index (dynamicOffset d1) (window d1) = Some base) as Hbase.
  { unfold d1, redefined, d0, index. cbn [window dynamicOffset].
    destruct (Z.leb_spec 0 n); [|lia].
    apply list_lookup_insert_eq. rewrite (wf_length d Hd). lia. }
  rewrite (readRune_data d1 b base rest Hd1 eq_refl eq_refl Hp Hbase).
  unfold consumed, d1, redefined, d0.
  cbn [window dynamicOffset bytesRead unicodeMode brd].
  replace (bytesRead d + 2 + 1) with (bytesRead d + 3) by lia. reflexivity.
Qed.

Lemma define_then_data_witness :
  readRune (NewDecoder [0x19; 0xFB; 0x86; 0x41]) =
    (Ok 0x376,
     mkDecoder 1 [0x0080; 0x0370; 0x0400; 0x0600; 0x0900; 0x3040; 0x30A0; 0xFF00]
               [0x41] 3 false).
Proof.
  apply (define_then_data (NewDecoder [0x19; 0xFB; 0x86; 0x41]) 1 0xFB 0x86 0x370 [0x41]).
  - apply wf_NewDecoder. repeat constructor; unfold isByte; lia.
  - lia.
  - reflexivity.
  - reflexivity.
  - right. right. split; [unfold fixedThreshold; lia | reflexivity].
Defined.

Lemma shift_forms (D : Z) :
  0 <= D < 65536 ->
  Z.shiftr D 13 = D / 8192 /\
  Z.shiftl (Z.land D 0x1FFF) 7 + 0x10000 = D mod 8192 * 128 + 65536.
Proof.
  intros HD. split.
  - rewrite Z.shiftr_div_pow2 by lia. reflexivity.
  - change 0x1FFF with (Z.ones 13). rewrite Z.land_ones by lia.
    rewrite shiftl7. reflexivity.
Qed.

(** X8: SDX in single-byte mode, like UDX in unicode mode, takes a 16-bit
    descriptor D, big-endian, positions window D >> 13 at
    ((D & 0x1FFF) << 7) + 0x10000 and selects it; a byte from 0x80 on after
    that is decoded in single-byte mode to a supplementary code point. *)
Theorem extended_then_data (d : Decoder) (hi lo b : Z) (rest : list Z) :
  wf d ->
  brd d = (if unicodeMode d then UDX else SDX) :: hi :: lo :: b :: rest ->
  0x80 <= b ->
  let D := hi * 256 + lo in
  let base := Z.shiftl (Z.land D 0x1FFF) 7 + 0x10000 in
  0x10000 <= base + (b - 0x80) <= 0x10FFFF /\
  readRune d =
    (Ok (base + (b - 0x80)),
     mkDecoder (Z.shiftr D 13)
               (<[Z.to_nat (Z.shiftr D 13) := base]> (dynamicOffset d)) rest
               (bytesRead d + 4) false).
Proof.
  intros Hd Hbrd Hb80. cbv zeta.
  pose proof (wf_bytes d Hd) as Hby. rewrite Hbrd in Hby.
  inversion Hby as [|? ? _ H1]; subst. inversion H1 as [|? ? Hhi H2]; subst.
  inversion H2 as [|? ? Hlo H3]; subst. inversion H3 as [|? ? Hb Hrest]; subst.
  pose proof (uint16FromTwoBytes_val hi lo Hhi Hlo) as Hval.
  pose proof (uint16FromTwoBytes_range hi lo Hhi Hlo) as HD.
  rewrite Hval in HD.
  destruct (shift_forms (hi * 256 + lo) HD) as (Hw & Hbase).
  rewrite Hw, Hbase.
  pose proof (Z.mod_pos_bound (hi * 256 + lo) 8192 ltac:(lia)) as Hm.
  assert (0 <= (hi * 256 + lo) / 8192 < 8) as Hn.
  { split; [apply Z.div_pos; lia | apply Z.div_lt_upper_bound; lia]. }
  set (n := (hi * 256 + lo) / 8192) in *.
  set (base := (hi * 256 + lo) mod 8192 * 128 + 65536) in *.
  unfold isByte in Hb. split; [lia|].
  pose (d0 := consumed d 3 (b :: rest)).
  pose (d1 := mkDecoder n (<[Z.to_nat n := base]> (dynamicOffset d)) (b :: rest)
                        (bytesRead d + 3) false).
  assert (defineExtendedWindow (uint16FromTwoBytes hi lo) d0 = (Ok tt, redefined d0 n base))
    as Hdef.
  { rewrite Hval. apply defineExtendedWindow_run; [assumption|].
    exact (wf_length d Hd). }
  assert (readRune d = readRune d1) as ->.
  { destruct (unicodeMode d) eqn:Hu.
    - apply readRune_leave; [assumption | assumption |].
      rewrite (unicode_extended d _ hi lo (b :: rest) Hbrd Hdef). reflexivity.
    - apply readRune_skip; [assumption | assumption | reflexivity |].
      rewrite (body_extended d _ hi lo (b :: rest) Hbrd Hdef).
      unfold redefined, d0, consumed, d1.
      cbn [window dynamicOffset bytesRead unicodeMode brd]. rewrite Hu.
      reflexivity. }
  assert (wf d1) as Hd1.
  { destruct Hd as [Hwd Hl Ho Hbyd]. constructor; simpl.
    - assumption.
    - rewrite length_insert. assumption.
    - apply Forall_insert; [assumption|]. unfold okOffset, maxOffset, base. lia.
    - constructor; [unfold isByte; lia | assumption]. }
  assert (index (dynamicOffset d1) (window d1) = Some base) as Hix.
  { unfold d1, index. cbn [window dynamicOffset].
    destruct (Z.leb_spec 0 n); [|lia].
    apply list_lookup_insert_eq. rewrite (wf_length d Hd). lia. }
  assert (passes b = true) as Hp.
  { unfold passes. rewrite high_byte_no_tag by lia.
    destruct (Z.leb_spec 0 b), (Z.ltb_spec b 256); lia || reflexivity. }
  rewrite (readRune_data d1 b base rest Hd1 eq_refl eq_refl Hp Hix).
  destruct (Z.ltb_spec b 128); [lia|].
  unfold consumed, d1. cbn [window dynamicOffset bytesRead unicodeMode brd].
  replace (bytesRead d + 3 + 1) with (bytesRead d + 4) by lia. reflexivity.
Qed.

Lemma extended_then_data_witness :
  readRune (mkDecoder 0 initialDynamicOffset [0xF1; 0x61; 0xEC; 0x80] 0 true) =
    (Ok 0x1F600,
     mkDecoder 3 [0x0080; 0x00C0; 0x0400; 0x1F600; 0x0900; 0x3040; 0x30A0; 0xFF00]
               [] 4 false).
Proof.
  destruct (extended_then_data
              (mkDecoder 0 initialDynamicOffset [0xF1; 0x61; 0xEC; 0x80] 0 true)
              0x61 0xEC 0x80 []) as (_ & H).
  - constructor; simpl; [lia | reflexivity | apply initialDynamicOffset_bounds |].
    repeat constructor; unfold isByte; lia.
  - reflexivity.
  - lia.
  - exact H.
Defined.

(** ** Sixteen-bit units *)

(** X9: the raw quote, SQU in single-byte mode and UQU in unicode mode,
    hands out the 16-bit unit that follows it, high byte first, whatever its
    bytes are, and leaves the mode and every window as they were. *)
Theorem raw_quote_decodes (d : Decoder) (hi lo : Z) (rest : list Z) :
  wf d ->
  brd d = (if unicodeMode d then UQU else SQU) :: hi :: lo :: rest ->
  readRune d = (Ok (hi * 256 + lo), consumed d 3 rest).
Proof.
  intros Hd Hbrd.
  destruct (wf_tail3 d _ hi lo rest Hd Hbrd) as (Hhi & Hlo & _).
  pose proof (uint16FromTwoBytes_val hi lo Hhi Hlo) as Hval.
  pose proof (uint16FromTwoBytes_range hi lo Hhi Hlo) as Hr.
  destruct (unicodeMode d) eqn:Hu.
  - rewrite <- Hval. apply readRune_emit; [assumption | | lia].
    rewrite readRune_body_unicode by assumption.
    apply unicode_quote. assumption.
  - rewrite <- Hval. apply readRune_of_expandSingleByte; [assumption | | lia].
    apply expandSingleByte_of_body. apply body_rawquote. assumption.
Qed.

Lemma raw_quote_decodes_witness :
  readRune (mkDecoder 4 initialDynamicOffset [0xF0; 0xE0; 0x41; 0x00] 2 true) =
    (Ok 0xE041, mkDecoder 4 initialDynamicOffset [0x00] 5 true).
Proof.
  apply (raw_quote_decodes
           (mkDecoder 4 initialDynamicOffset [0xF0; 0xE0; 0x41; 0x00] 2 true)
           0xE0 0x41 [0x00]).
  - constructor; simpl; [lia | reflexivity | apply initialDynamicOffset_bounds |].
    repeat constructor; unfold isByte; lia.
  - reflexivity.
Defined.

(** X10: in unicode mode two bytes that start with no tag (0xE0..0xF1) and
    spell no surrogate are one 16-bit unit, high byte first, and the decoder
    stays in unicode mode; from single-byte mode SCU takes the decoder there
    without a rune of its own. *)
Theorem unit_decodes (d : Decoder) (hi lo : Z) (rest : list Z) :
  wf d ->
  brd d = (if unicodeMode d then [] else [SCU]) ++ hi :: lo :: rest ->
  hi < UC0 \/ UDX < hi ->
  ~ (0xD800 <= hi * 256 + lo < 0xE000) ->
  readRune d =
    (Ok (hi * 256 + lo),
     mkDecoder (window d) (dynamicOffset d) rest
               (bytesRead d + (if unicodeMode d then 2 else 3)) true).
Proof.
  intros Hd Hbrd Hhi Hns.
  assert (forall d0, wf d0 -> unicodeMode d0 = true -> brd d0 = hi :: lo :: rest ->
            readRune d0 = (Ok (hi * 256 + lo), consumed d0 2 rest)) as Hunit.
  { intros d0 Hd0 Hu0 Hb0.
    pose proof (wf_bytes d0 Hd0) as Hby. rewrite Hb0 in Hby.
    inversion Hby as [|? ? Hh H1]; subst. inversion H1 as [|? ? Hl _]; subst.
    pose proof (uint16FromTwoBytes_val hi lo Hh Hl) as Hval.
    pose proof (uint16FromTwoBytes_range hi lo Hh Hl) as Hr.
    rewrite <- Hval. apply readRune_emit; [assumption | | lia].
    rewrite readRune_body_unicode by assumption.
    apply unicode_unit; [assumption | assumption |].
    rewrite Hval. apply IsSurrogate_false. lia. }
  destruct (unicodeMode d) eqn:Hu.
  - rewrite (Hunit d Hd Hu Hbrd). unfold consumed. rewrite Hu. reflexivity.
  - cbn [app] in Hbrd.
    pose (d1 := mkDecoder (window d) (dynamicOffset d) (hi :: lo :: rest)
                          (bytesRead d + 1) true).
    assert (wf d1) as Hd1.
    { destruct Hd as [Hw Hl Ho Hby]. constructor; simpl; try assumption.
      rewrite Hbrd in Hby. inversion Hby; assumption. }
    rewrite (readRune_again d d1 Hd).
    + rewrite (Hunit d1 Hd1 eq_refl eq_refl). unfold consumed, d1.
      cbn [window dynamicOffset bytesRead unicodeMode].
      replace (bytesRead d + 1 + 2) with (bytesRead d + 3) by lia. reflexivity.
    + rewrite readRune_body_single by assumption.
      apply expandSingleByte_of_body. apply body_tounicode. assumption.
Qed.

Lemma unit_decodes_witness :
  readRune (NewDecoder [0x0F; 0x4E; 0x2D; 0x65]) =
    (Ok 0x4E2D, mkDecoder 0 initialDynamicOffset [0x65] 3 true).
Proof.
  apply (unit_decodes (NewDecoder [0x0F; 0x4E; 0x2D; 0x65]) 0x4E 0x2D [0x65]).
  - apply wf_NewDecoder. repeat constructor; unfold isByte; lia.
  - reflexivity.
  - left. unfold UC0. lia.
  - lia.
Defined.

(** X11: in unicode mode a unit that is a surrogate, high or low, is never
    handed out alone.  The unit after it is read as well: when that one is
    no surrogate the decoder fails with ErrIllegalInput; a high surrogate
    followed by a low one gives the supplementary code point of the pair;
    any other two surrogates give U+FFFD, without an error. *)
Theorem surrogate_unit_cases (d : Decoder) (h1 h2 l1 l2 : Z) (rest : list Z) :
  wf d -> unicodeMode d = true ->
  brd d = h1 :: h2 :: l1 :: l2 :: rest ->
  0xD800 <= h1 * 256 + h2 < 0xE000 ->
  let lead := h1 * 256 + h2 in
  let follow := l1 * 256 + l2 in
  (~ (0xD800 <= follow < 0xE000) -> fst (readRune d) = Err ErrIllegalInput) /\
  (lead < 0xDC00 /\ 0xDC00 <= follow < 0xE000 ->
     readRune d =
       (Ok ((lead - 0xD800) * 1024 + (follow - 0xDC00) + 0x10000),
        consumed d 4 rest)) /\
  (0xD800 <= follow < 0xE000 /\ (0xDC00 <= lead \/ follow < 0xDC00) ->
     readRune d = (Ok 0xFFFD, consumed d 4 rest)).
Proof.
  intros Hd Hu Hbrd Hlead. cbv zeta.
  pose proof (wf_bytes d Hd) as Hby. rewrite Hbrd in Hby.
  inversion Hby as [|? ? Hh1 H1]; subst. inversion H1 as [|? ? Hh2 H2]; subst.
  inversion H2 as [|? ? Hl1 H3]; subst. inversion H3 as [|? ? Hl2 _]; subst.
  pose proof (uint16FromTwoBytes_val h1 h2 Hh1 Hh2) as Hv1.
  pose proof (uint16FromTwoBytes_val l1 l2 Hl1 Hl2) as Hv2.
  assert (h1 < UC0 \/ UDX < h1) as Hnt
    by (left; unfold UC0; unfold isByte in *; lia).
  assert (utf16.IsSurrogate (uint16FromTwoBytes h1 h2) = true) as Hs1
    by (rewrite Hv1; apply IsSurrogate_spec; assumption).
  split; [|split].
  - intros Hf. rewrite (readRune_unroll d Hd).
    rewrite readRune_body_unicode by assumption.
    destruct (not_unicode_tag h1 Hnt) as (T1 & T2 & T3 & T4).
    unfold expandUnicode. unfold bind at 1. unfold readByte at 1.
    rewrite Hbrd. rewrite T1, T2, T3, T4.
    unfold bind at 1. unfold mapErr at 1. unfold readByte at 1.
    cbn [window dynamicOffset brd bytesRead unicodeMode]. cbv zeta.
    rewrite Hs1.
    unfold readUint16, bind, mapErr, readByte, ret.
    cbn [window dynamicOffset brd bytesRead unicodeMode].
    rewrite Hv2. rewrite IsSurrogate_false by lia. reflexivity.
  - intros (Hhi & Hlo).
    apply readRune_emit; [assumption | | lia].
    rewrite readRune_body_unicode by assumption.
    rewrite (unicode_pair d h1 h2 l1 l2 rest Hbrd Hnt Hs1)
      by (rewrite Hv2; apply IsSurrogate_spec; lia).
    rewrite Hv1, Hv2. rewrite DecodeRune_pair by lia. reflexivity.
  - intros (Hf & Hbad).
    apply readRune_emit; [assumption | | lia].
    rewrite readRune_body_unicode by assumption.
    rewrite (unicode_pair d h1 h2 l1 l2 rest Hbrd Hnt Hs1)
      by (rewrite Hv2; apply IsSurrogate_spec; lia).
    rewrite Hv1, Hv2.
    unfold utf16.DecodeRune, utf16.surr1, utf16.surr2, utf16.surr3,
      utf16.replacementChar.
    destruct (Z.ltb_spec (h1 * 256 + h2) 0xdc00);
      destruct (Z.leb_spec 0xdc00 (l1 * 256 + l2)); try lia;
      rewrite ?andb_false_r; reflexivity.
Qed.

Lemma surrogate_unit_cases_witness :
  readRune (mkDecoder 0 initialDynamicOffset [0xDC; 0x00; 0xDC; 0x01] 1 true) =
    (Ok 0xFFFD, mkDecoder 0 initialDynamicOffset [] 5 true).
Proof.
  destruct (surrogate_unit_cases
              (mkDecoder 0 initialDynamicOffset [0xDC; 0x00; 0xDC; 0x01] 1 true)
              0xDC 0x00 0xDC 0x01 []) as (_ & _ & H).
  - constructor; simpl; [lia | reflexivity | apply initialDynamicOffset_bounds |].
    repeat constructor; unfold isByte; lia.
  - reflexivity.
  - reflexivity.
  - lia.
  - apply H. lia.
Defined.

(** ** Text that is its own encoding *)

Lemma passes_valid (b : Z) : passes b = true -> validRune b = true.
Proof.
  intros Hp. destruct (passes_spec b Hp) as (Hb & _). unfold isByte in Hb.
  unfold validRune.
  destruct (Z.leb_spec 0 b), (Z.leb_spec b 0x10FFFF), (Z.leb_spec 0xD800 b);
    try lia; reflexivity.
Qed.

Lemma passing_bytes_decode (input : list Z) :
  forall (d : Decoder) (sb : gostring),
  wf d -> unicodeMode d = false ->
  index (dynamicOffset d) (window d) = Some 0x80 ->
  brd d = input -> forallb passes input = true ->
  ReadString_from sb d =
    (Ok (sb ++ input), consumed d (Z.of_nat (length input)) []).
Proof.
  induction input as [|b rest IH]; intros d sb Hd Hu Hbase Hbrd Hp.
  - rewrite (ReadString_from_unroll sb d Hd), (readRune_nil d Hbrd).
    cbn [isEOF]. rewrite app_nil_r. destruct d. simpl in *. subst.
    unfold consumed. simpl. rewrite Z.add_0_r. reflexivity.
  - cbn [forallb] in Hp. apply andb_true_iff in Hp as [Hb Hrest].
    rewrite (ReadString_from_unroll sb d Hd).
    rewrite (readRune_data d b 0x80 rest Hd Hu Hbrd Hb Hbase).
    replace (if b <? 128 then b else 128 + (b - 128)) with b
      by (destruct (b <? 128); lia).
    rewrite WriteRune_valid by (apply passes_valid; assumption).
    assert (wf (consumed d 1 rest)) as Hd1.
    { apply wf_consumed; [assumption|].
      pose proof (wf_bytes d Hd) as H. rewrite Hbrd in H.
      inversion H; assumption. }
    rewrite (IH (consumed d 1 rest) _ Hd1 Hu Hbase eq_refl Hrest).
    rewrite <- app_assoc. unfold consumed.
    cbn [window dynamicOffset bytesRead unicodeMode app length].
    replace (bytesRead d + Z.of_nat (S (length rest)))
      with (bytesRead d + 1 + Z.of_nat (length rest)) by lia.
    reflexivity.
Qed.

(** X12: a byte string without tags of single-byte mode, that is Latin-1
    text whose only control characters are NUL, tab, line feed and carriage
    return, is its own encoding: a fresh decoder gives back the bytes as the
    code points, reading all of them. *)
Theorem latin1_is_transparent (input : list Z) :
  forallb passes input = true ->
  Decode input = Ok input /\
  ReadString (NewDecoder input) =
    (Ok input, mkDecoder 0 initialDynamicOffset [] (Z.of_nat (length input)) false).
Proof.
  intros Hp.
  assert (Forall isByte input) as Hin.
  { apply Forall_forall. intros b Hb.
    rewrite forallb_forall in Hp. apply passes_spec.
    apply Hp. apply list_elem_of_In. assumption. }
  pose proof (passing_bytes_decode input (NewDecoder input) []
                (wf_NewDecoder input Hin) eq_refl eq_refl eq_refl Hp) as H.
  unfold Decode. change (ReadString (NewDecoder input))
    with (ReadString_from [] (NewDecoder input)).
  rewrite H. split; reflexivity.
Qed.

Lemma latin1_is_transparent_witness :
  Decode [0x48; 0xE9; 0x0A; 0x00; 0xFF; 0x7F] = Ok [0x48; 0xE9; 0x0A; 0x00; 0xFF; 0x7F].
Proof.
  apply (latin1_is_transparent [0x48; 0xE9; 0x0A; 0x00; 0xFF; 0x7F]).
  reflexivity.
Defined.

(** ** The reserved tag *)

(** X13: in single-byte mode the reserved tag Srs, met where a command is
    expected, stops the decoder with ErrIllegalInput, whatever the window
    state is and whatever follows: readRune fails with it after that one
    byte, and ReadString gives up the string read so far for it. *)
Theorem reserved_tag_is_illegal (d : Decoder) (rest : list Z) (sb : gostring)
    (fuel : nat) :
  unicodeMode d = false -> brd d = Srs :: rest ->
  readRune d = (Err ErrIllegalInput, consumed d 1 rest) /\
  ReadString_loop (S fuel) sb d = (Err ErrIllegalInput, consumed d 1 rest) /\
  fst (ReadRune d) = Err ErrIllegalInput.
Proof.
  intros Hu Hbrd.
  assert (expandSingleByte_body d = (Err ErrIllegalInput, consumed d 1 rest)) as Hbody.
  { unfold expandSingleByte_body. unfold bind at 1. unfold readByte at 1.
    rewrite Hbrd. reflexivity. }
  assert (readRune d = (Err ErrIllegalInput, consumed d 1 rest)) as Hrr.
  { unfold readRune. rewrite Hbrd. cbn [length readRune_loop].
    unfold bind at 1. unfold readRune_body. rewrite Hu.
    unfold expandSingleByte. rewrite Hbrd. cbn [length expandSingleByte_loop].
    unfold bind at 1. rewrite Hbody. reflexivity. }
  split; [assumption|]. split.
  - cbn [ReadString_loop]. rewrite Hrr. reflexivity.
  - unfold ReadRune. rewrite Hrr. reflexivity.
Qed.

Lemma reserved_tag_is_illegal_witness :
  ReadString_loop 1 [0x41] (mkDecoder 5 initialDynamicOffset [0x0C; 0x41] 1 false)
    = (Err ErrIllegalInput, mkDecoder 5 initialDynamicOffset [0x41] 2 false).
Proof.
  destruct (reserved_tag_is_illegal
              (mkDecoder 5 initialDynamicOffset [0x0C; 0x41] 1 false) [0x41] [0x41] 0)
    as (_ & H & _).
  - reflexivity.
  - reflexivity.
  - exact H.
Defined.

(** ** No window in the gap *)



Lemma placing_setWindow (w : Z) : placing (setWindow w).
Proof. intros d _ Hp. assumption. Qed.
















(** ** Every eligible half-block can be selected *)

(** X15: outside the gap every code point from 0x80 on can be brought under
    any window n: below 0x10000 some offset byte x makes defineWindow put
    window n on the 128 code points around it, and from 0x10000 on some
    16-bit descriptor with n in its top three bits makes
    defineExtendedWindow do so. *)
Theorem every_half_block_is_reachable (d : Decoder) (n c : Z) :
  length (dynamicOffset d) = 8%nat -> 0 <= n < 8 ->
  (0x80 <= c < 0x3400 \/ 0xE000 <= c < 0x10000 ->
     exists x base, isByte x /\
       defineWindow n x d = (Ok tt, redefined d n base) /\
       base <= c < base + 128) /\
  (0x10000 <= c <= 0x10FFFF ->
     exists D base, 0 <= D < 65536 /\ Z.shiftr D 13 = n /\
       defineExtendedWindow D d = (Ok tt, redefined d n base) /\
       base <= c < base + 128).
Proof.
  intros Hlen Hn. split.
  - intros [Hlow | Hhigh].
    + pose proof (Z.div_mod c 128 ltac:(lia)) as Hdm.
      pose proof (Z.mod_pos_bound c 128 ltac:(lia)) as Hm.
      exists (c / 128), (c / 128 * 128).
      split; [unfold isByte; lia|]. split; [|lia].
      apply defineWindow_low; [assumption | assumption |].
      unfold gapThreshold. lia.
    + pose proof (Z.div_mod (c - gapOffset) 128 ltac:(lia)) as Hdm.
      pose proof (Z.mod_pos_bound (c - gapOffset) 128 ltac:(lia)) as Hm.
      unfold gapOffset in Hdm, Hm.
      exists ((c - gapOffset) / 128), ((c - gapOffset) / 128 * 128 + gapOffset).
      unfold gapOffset.
      split; [unfold isByte; lia|]. split; [|lia].
      apply defineWindow_gap; [assumption | assumption |].
      unfold gapThreshold, reservedStart, gapOffset. lia.
  - intros Hc.
    destruct (extended_descriptor n c Hn Hc) as (HD & Hdiv & Hmod & Hin & _ & _).
    exists (n * 8192 + (c - 65536) / 128), ((c - 65536) / 128 * 128 + 65536).
    split; [assumption|]. split.
    { rewrite Z.shiftr_div_pow2 by lia. exact Hdiv. }
    split; [|assumption].
    rewrite defineExtendedWindow_run by assumption.
    rewrite Hdiv, Hmod. reflexivity.
Qed.

Lemma every_half_block_is_reachable_witness :
  exists D base, 0 <= D < 65536 /\ Z.shiftr D 13 = 5 /\
    defineExtendedWindow D (NewDecoder []) = (Ok tt, redefined (NewDecoder []) 5 base) /\
    base <= 0x1F600 < base + 128.
Proof.
  destruct (every_half_block_is_reachable (NewDecoder []) 5 0x1F600) as (_ & H).
  - reflexivity.
  - lia.
  - apply H. lia.
Defined.

(** ** Reading two bytes *)

(** X16: readUint16 takes two bytes, the high one first, into a value below
    65536; with one byte left it takes that byte and fails, and with none
    left it fails as well, both times with io.ErrUnexpectedEOF and never
    with io.EOF. *)
Theorem readUint16_cases (d : Decoder) :
  (forall hi lo rest, isByte hi -> isByte lo -> brd d = hi :: lo :: rest ->
     readUint16 d = (Ok (hi * 256 + lo), consumed d 2 rest) /\
     0 <= hi * 256 + lo < 65536) /\
  (forall hi, brd d = [hi] ->
     readUint16 d = (Err ErrUnexpectedEOF, consumed d 1 [])) /\
  (brd d = [] -> readUint16 d = (Err ErrUnexpectedEOF, d)) /\
  (forall d', readUint16 d <> (Err EOF, d')).
Proof.
  split; [|split; [|split]].
  - intros hi lo rest Hhi Hlo Hbrd. split; [|unfold isByte in *; lia].
    unfold readUint16, bind, mapErr, readByte, ret. rewrite Hbrd.
    cbn [window dynamicOffset brd bytesRead unicodeMode].
    rewrite uint16FromTwoBytes_val by assumption. unfold consumed.
    replace (bytesRead d + 1 + 1) with (bytesRead d + 2) by lia. reflexivity.
  - intros hi Hbrd.
    unfold readUint16, bind, mapErr, readByte, ret. rewrite Hbrd.
    cbn [window dynamicOffset brd bytesRead unicodeMode]. reflexivity.
  - intros Hbrd.
    unfold readUint16, bind, mapErr, readByte, ret. rewrite Hbrd. reflexivity.
  - intros d'. apply neverEOF_readUint16.
Qed.

Lemma readUint16_cases_witness :
  readUint16 (NewDecoder [0x12; 0x34; 0x56]) =
    (Ok 0x1234, mkDecoder 0 initialDynamicOffset [0x56] 2 false).
Proof.
  destruct (readUint16_cases (NewDecoder [0x12; 0x34; 0x56])) as (H & _).
  apply (H 0x12 0x34 [0x56]); [unfold isByte; lia | unfold isByte; lia | reflexivity].
Defined.

Lemma ReadRune_EOF (d d' : Decoder) :
  ReadRune d = (Err EOF, d') <-> readRune d = (Err EOF, d').
Proof.
  unfold ReadRune.
  destruct (readRune d) as [[r|e| |] d1]; cbv zeta; split; intros H;
    try discriminate; injection H as -> ->; reflexivity.
Qed.

(** X17: io.EOF is reported only between commands.  A command (one pass
    of expandUnicode or of the body of expandSingleByte) returns io.EOF only
    when it finds the reader exhausted, and then leaves the decoder as it
    was: once it has read its first byte, running out of input is never
    io.EOF.  On an exhausted reader ReadRune returns io.EOF and leaves the
    decoder alone.  readRune and ReadRune return io.EOF exactly when the
    rest of the input is a sequence of whole commands that hand out no rune;
    the decoder is then the one those commands leave, with nothing unread. *)
Theorem EOF_only_between_commands (d : Decoder) :
  (forall d', expandUnicode d = (Err EOF, d') -> brd d = [] /\ d' = d) /\
  (forall d', expandSingleByte_body d = (Err EOF, d') -> brd d = [] /\ d' = d) /\
  (forall d', command d = (Err EOF, d') -> brd d = [] /\ d' = d) /\
  (brd d = [] -> command d = (Err EOF, d) /\ ReadRune d = (Err EOF, d)) /\
  (forall d', ReadRune d = (Err EOF, d') -> brd d' = []) /\
  (forall d', readRune d = (Err EOF, d') -> brd d' = []) /\
  (wf d -> forall d',
     readRune d = (Err EOF, d') <->
     exists n, run n d = Some ([], d') /\ brd d' = []) /\
  (wf d -> forall d',
     ReadRune d = (Err EOF, d') <->
     exists n, run n d = Some ([], d') /\ brd d' = []).
Proof.
  assert (wf d -> forall d',
            readRune d = (Err EOF, d') <->
            exists n, run n d = Some ([], d') /\ brd d' = []) as Hiff.
  { intros Hd d'. split.
    - apply (readRune_EOF_run (length (brd d))); [lia | assumption].
    - intros (n & Hn & Hnil).
      rewrite (run_readRune n d d' Hd Hn). apply readRune_nil. assumption. }
  pose proof (ReadRune_EOF d) as Hsame.
  split; [|split; [|split; [|split; [|split; [|split; [|split]]]]]].
  - intros d' H. exact (eofAtStart_expandUnicode d d' H).
  - intros d' H. exact (eofAtStart_expandSingleByte_body d d' H).
  - intros d' H. exact (eofAtStart_command d d' H).
  - intros Hnil. split; [apply command_nil; assumption|].
    unfold ReadRune. rewrite (readRune_nil d Hnil). reflexivity.
  - intros d' H. apply Hsame in H. exact (eofAtEnd_readRune d d' H).
  - intros d' H. exact (eofAtEnd_readRune d d' H).
  - exact Hiff.
  - intros Hd d'. rewrite Hsame. apply Hiff. assumption.
Qed.

Lemma EOF_only_between_commands_witness :
  readRune (NewDecoder [0x11; 0x0F; 0xE2]) =
    (Err EOF, mkDecoder 2 initialDynamicOffset [] 3 false).
Proof.
  destruct (EOF_only_between_commands (NewDecoder [0x11; 0x0F; 0xE2]))
    as (_ & _ & _ & _ & _ & _ & H & _).
  apply H.
  - apply wf_NewDecoder. repeat constructor; unfold isByte; lia.
  - exists 3%nat. split; reflexivity.
Defined.

(** X18: uint16FromTwoBytes puts its first byte above its second: on bytes
    it is hi * 256 + lo, the two bytes can be read back from the value, and
    every value below 65536 is the value of its own two bytes. *)
Theorem uint16FromTwoBytes_is_big_endian (hi lo v : Z) :
  (isByte hi -> isByte lo ->
     uint16FromTwoBytes hi lo = hi * 256 + lo /\
     uint16FromTwoBytes hi lo / 256 = hi /\
     uint16FromTwoBytes hi lo mod 256 = lo) /\
  (0 <= v < 65536 -> uint16FromTwoBytes (v / 256) (v mod 256) = v).
Proof.
  split.
  - intros Hhi Hlo. rewrite uint16FromTwoBytes_val by assumption.
    unfold isByte in *. split; [reflexivity|]. split.
    + symmetry. apply (Z.div_unique _ 256 hi lo); lia.
    + symmetry. apply (Z.mod_unique _ 256 hi lo); lia.
  - intros Hv. apply uint16_of_divmod. assumption.
Qed.

Lemma uint16FromTwoBytes_is_big_endian_witness :
  uint16FromTwoBytes (0xD83D / 256) (0xD83D mod 256) = 0xD83D.
Proof.
  destruct (uint16FromTwoBytes_is_big_endian 0 0 0xD83D) as (_ & H).
  apply H. lia.
Defined.

(** ** An offset byte that is refused *)

Lemma defineWindow_refused (d : Decoder) (i x : Z) :
  x = 0 \/ reservedStart <= x < fixedThreshold ->
  defineWindow i x d =
    (Err (if x =? 0 then ErrIllegalInput else ErrOffset x), d).
Proof.
  unfold defineWindow. unfold reservedStart, fixedThreshold, gapThreshold.
  intros [-> | Hx]; [reflexivity|].
  destruct (Z.eqb_spec x 0); [lia|].
  destruct (Z.ltb_spec x 104); [lia|]. destruct (Z.ltb_spec x 168); [lia|].
  destruct (Z.ltb_spec x 249); [reflexivity | lia].
Qed.

(** X19: an offset byte that is 0 or reserved stops the decoder after SDn as
    after UDn: readRune fails, with ErrIllegalInput for 0 and with the
    offset error otherwise, two bytes are consumed, every window and the
    selection stay as they were, and the decoder is left in single-byte
    mode, also when the command came in unicode mode. *)
Theorem refused_offset_stops (d : Decoder) (n x : Z) (rest : list Z) :
  wf d -> 0 <= n < 8 ->
  brd d = (if unicodeMode d then UD0 + n else SD0 + n) :: x :: rest ->
  x = 0 \/ reservedStart <= x < fixedThreshold ->
  readRune d =
    (Err (if x =? 0 then ErrIllegalInput else ErrOffset x),
     mkDecoder (window d) (dynamicOffset d) rest (bytesRead d + 2) false).
Proof.
  intros Hd Hn Hbrd Hx.
  rewrite (readRune_unroll d Hd).
  destruct (unicodeMode d) eqn:Hu.
  - rewrite readRune_body_unicode by assumption.
    unfold expandUnicode. unfold bind at 1. unfold readByte at 1.
    rewrite Hbrd.
    destruct (Z.leb_spec UC0 (UD0 + n)); [|unfold_tags; lia].
    destruct (Z.leb_spec (UD0 + n) UC7); [unfold_tags; lia|]. cbn [andb].
    destruct (Z.leb_spec UD0 (UD0 + n)); [|lia].
    destruct (Z.leb_spec (UD0 + n) UD7); [|unfold_tags; lia]. cbn [andb].
    replace (UD0 + n - UD0) with n by lia.
    unfold bind at 1. unfold mapErr, readByte.
    cbn [window dynamicOffset brd bytesRead unicodeMode].
    unfold bind at 1. unfold setUnicodeMode.
    cbn [window dynamicOffset brd bytesRead unicodeMode].
    unfold bind at 1. rewrite (defineWindow_refused _ n x Hx).
    replace (bytesRead d + 1 + 1) with (bytesRead d + 2) by lia. reflexivity.
  - rewrite readRune_body_single by assumption.
    rewrite (expandSingleByte_unroll d Hd).
    destruct (oneof_SD n Hn) as (H1 & H2 & H3).
    unfold expandSingleByte_body. unfold bind at 1. unfold readByte at 1.
    rewrite Hbrd. unfold bind at 1. unfold getWindow at 1. cbv zeta.
    rewrite H1, H2, H3.
    replace (SD0 + n - SD0) with n by lia.
    unfold bind at 1. unfold mapErr, readByte.
    cbn [window dynamicOffset brd bytesRead unicodeMode].
    unfold bind at 1. rewrite (defineWindow_refused _ n x Hx). rewrite Hu.
    replace (bytesRead d + 1 + 1) with (bytesRead d + 2) by lia. reflexivity.
Qed.

Lemma refused_offset_stops_witness :
  readRune (mkDecoder 2 initialDynamicOffset [0xE9; 0xA8; 0x41] 4 true) =
    (Err (ErrOffset 0xA8), mkDecoder 2 initialDynamicOffset [0x41] 6 false).
Proof.
  apply (refused_offset_stops
           (mkDecoder 2 initialDynamicOffset [0xE9; 0xA8; 0x41] 4 true) 1 0xA8 [0x41]).
  - constructor; simpl; [lia | reflexivity | apply initialDynamicOffset_bounds |].
    repeat constructor; unfold isByte; lia.
  - lia.
  - reflexivity.
  - right. unfold reservedStart, fixedThreshold. lia.
Defined.
